(** * thr_omp: per-thread energy/virial accumulators of LAMMPS' USER-OMP package

    A shallow embedding of [src/USER-OMP/thr_omp.cpp] and the properties of
    its setup, tally, partition and reduction routines.  The file has three
    parts: the model of the routines, the vocabulary the statements are
    written in (with an allocator and inputs to run the model on), and the
    properties.

    Conventions of the embedding
    - C [int] values are integers of [Z], and [int] is 32 bits wide.  The
      routines that compute with sizes and thread ids ([loop_setup_thr],
      [force_reduce_thr], [memory_usage_thr]) use the checked operations
      [int_add], [int_mul], [int_div]: a result outside
      [[INT_MIN, INT_MAX]] is undefined behaviour in C and makes the routine
      return [None].  [/] on [int] is [Z.quot].  The extent
      [nlocal + nghost] of the per-atom loops, the only other arithmetic on
      [int], is a sum in [Z]: it counts atoms that are stored.
    - [size_t] is 64 bits wide and [sizeof(double)] is 8; arithmetic on
      [size_t] is taken modulo 2^64, and the conversion of a [size_t] to
      [double] rounds to the nearest [double].
    - [int] flags are only ever tested for being non-zero; they are [bool].
    - [double] is an abstract carrier with the operations the file uses
      (class [Arith]): every statement holds for any interpretation of [+],
      [*], [0.0] and [0.5], IEEE binary64 included.  A law of the arithmetic
      is assumed only where a statement names it.
    - arrays are lists; every subscript is checked, an access outside the
      allocated extent makes the routine return [None] (undefined behaviour
      in C).  [NULL] is the empty list.
    - [v[6]] and a force row [f[m][0..2]] are records of 6 and 3 doubles.
    - [#if defined(_OPENMP)] is the argument [openmp] of the two routines
      that have it.
    - a routine with two parts keeps its name for the whole and gets a
      definition for each part ([ev_setup_grow] and [ev_setup_zero] for
      [ev_setup_thr], [tally_energy] and [tally_virial] for [ev_tally_thr]);
      a loop body is a definition of its own; the two overloads of
      [ev_reduce_thr] are [ev_reduce_thr_pair] and
      [ev_reduce_thr_dihedral].
    - the threads of a team are run a call at a time, in some order
      ([run_calls], [force_reduce_sched]); that the order of the threads
      does not matter is a property that is proved, not a convention. *)

From Stdlib Require Import ZArith QArith Qcanon Lia Bool.
From stdpp Require Import base tactics option list numbers.

Local Open Scope Z_scope.

(** * The model *)

(** ** Doubles *)

Class Arith (D : Type) := {
  d0 : D;                      (* 0.0 *)
  dhalf : D;                   (* 0.5 *)
  dadd : D -> D -> D;          (* x + y *)
  dmul : D -> D -> D;          (* x * y *)
}.

(** Exact rational arithmetic, used to run the model on concrete inputs. *)
#[export] Instance Q_arith : Arith Q :=
  {| d0 := 0%Q; dhalf := (1 # 2)%Q; dadd := Qplus; dmul := Qmult |}.

Record vec6 (D : Type) := V6 { c0 : D; c1 : D; c2 : D; c3 : D; c4 : D; c5 : D }.
Arguments V6 {D}.
Arguments c0 {D}. Arguments c1 {D}. Arguments c2 {D}.
Arguments c3 {D}. Arguments c4 {D}. Arguments c5 {D}.

Record vec3 (D : Type) := V3 { fx : D; fy : D; fz : D }.
Arguments V3 {D}.
Arguments fx {D}. Arguments fy {D}. Arguments fz {D}.

Section Vectors.
Context {D : Type} `{Arith D}.

Definition zero6 : vec6 D := V6 d0 d0 d0 d0 d0 d0.
Definition zero3 : vec3 D := V3 d0 d0 d0.

(** [a[k] += b[k]] for the six components *)
Definition add6 (a b : vec6 D) : vec6 D :=
  V6 (dadd (c0 a) (c0 b)) (dadd (c1 a) (c1 b)) (dadd (c2 a) (c2 b))
     (dadd (c3 a) (c3 b)) (dadd (c4 a) (c4 b)) (dadd (c5 a) (c5 b)).

(** [a[k] += 0.5*v[k]] for the six components *)
Definition add6_half (a v : vec6 D) : vec6 D :=
  V6 (dadd (c0 a) (dmul dhalf (c0 v))) (dadd (c1 a) (dmul dhalf (c1 v)))
     (dadd (c2 a) (dmul dhalf (c2 v))) (dadd (c3 a) (dmul dhalf (c3 v)))
     (dadd (c4 a) (dmul dhalf (c4 v))) (dadd (c5 a) (dmul dhalf (c5 v))).

Definition add3 (a b : vec3 D) : vec3 D :=
  V3 (dadd (fx a) (fx b)) (dadd (fy a) (fy b)) (dadd (fz a) (fz b)).
End Vectors.

(** ** Checked array accesses and counted loops *)

Notation "'let?' x ':=' m 'in' k" :=
  (match m with Some x => k | None => None end)
  (at level 10, x name, m at level 100, k at level 200, only parsing).

Section Arrays.
Context {A : Type}.

(** [a[i]] as an rvalue *)
Definition rd (a : list A) (i : Z) : option A :=
  if decide (0 <= i) then a !! Z.to_nat i else None.

(** [a[i] = x] *)
Definition wr (a : list A) (i : Z) (x : A) : option (list A) :=
  let? _x := rd a i in Some (<[Z.to_nat i := x]> a).

(** [a[i] = g(a[i])], the shape of [a[i] += e] *)
Definition upd (a : list A) (i : Z) (g : A -> A) : option (list A) :=
  let? x := rd a i in Some (<[Z.to_nat i := g x]> a).

End Arrays.

(** [a[t][i]] *)
Definition rd2 {A} (a : list (list A)) (t i : Z) : option A :=
  let? row := rd a t in rd row i.

(** [a[t][i] = g(a[t][i])] *)
Definition upd2 {A} (a : list (list A)) (t i : Z) (g : A -> A)
  : option (list (list A)) :=
  let? row := rd a t in
  let? row' := upd row i g in
  Some (<[Z.to_nat t := row']> a).

Section Loops.
Context {S : Type}.

Fixpoint foldM (body : Z -> S -> option S) (l : list Z) (s : S) : option S :=
  match l with
  | [] => Some s
  | i :: l' => let? s' := body i s in foldM body l' s'
  end.

(** [for (i = lo; i < hi; ++i) body] *)
Definition for_range (lo hi : Z) (body : Z -> S -> option S) (s : S)
  : option S :=
  foldM body (seqZ lo (hi - lo)) s.
End Loops.

(** ** Arithmetic on [int] and [size_t] *)

Definition INT_MIN : Z := -2147483648.
Definition INT_MAX : Z := 2147483647.

(** the value of an [int] expression whose mathematical value is [z];
    outside the range of [int] the behaviour is undefined *)
Definition to_int (z : Z) : option Z :=
  if decide (INT_MIN <= z <= INT_MAX) then Some z else None.

Definition int_add (a b : Z) : option Z := to_int (a + b).

Definition int_mul (a b : Z) : option Z := to_int (a * b).

(** [a / b] truncates towards zero; a zero divisor is undefined *)
Definition int_div (a b : Z) : option Z :=
  if b =? 0 then None else to_int (Z.quot a b).

(** the conversion to [size_t], and the product of two [size_t] *)
Definition to_size (z : Z) : Z := z mod 2 ^ 64.

Definition size_mul (a b : Z) : Z := to_size (a * b).

(** the [double] nearest to the natural number [n], ties to the even
    significand; every natural number below 2^53 is a [double] *)
Definition to_double (n : Z) : Z :=
  if n <? 2 ^ 53 then n
  else
    let e := Z.log2 n - 52 in
    let q := n / 2 ^ e in
    let r := n mod 2 ^ e in
    let half := 2 ^ (e - 1) in
    let q := if (half <? r) || ((r =? half) && Z.odd q) then q + 1 else q in
    q * 2 ^ e.

(** ** loop_setup_thr *)

Record loop_setup := LoopSetup {
  ls_f : Z;        (* returned force base, as an offset in rows from [f] *)
  ls_ifrom : Z;
  ls_ito : Z;
  ls_tid : Z;
}.

(** [openmp] is the compile-time switch [defined(_OPENMP)];
    [omp_get_thread_num] is the identity the OpenMP run time gives the
    caller; [f] is the incoming force base.  The result is [None] when an
    [int] computation overflows. *)
Definition loop_setup_thr (openmp : bool) (omp_get_thread_num : Z)
    (f inum nall nthreads : Z) : option loop_setup :=
  if openmp && (1 <? nthreads) then
    let tid := omp_get_thread_num in
    let? q := int_div inum nthreads in
    let? idelta := int_add 1 q in
    let? ifrom := int_mul tid idelta in
    let? ito := int_add ifrom idelta in
    let ito := if inum <? ito then inum else ito in
    let? toffs := int_mul nall tid in
    Some (LoopSetup (f + toffs) ifrom ito tid)
  else
    Some (LoopSetup f 0 inum 0).

(** the work items of a range *)
Definition in_range (r : loop_setup) (k : Z) : Prop :=
  ls_ifrom r <= k < ls_ito r.

(** The chunk size in the words of the specification:
    [ceil(ownedWorkCount / threadCount)]. *)
Definition ceil_div (a b : Z) : Z := (a + b - 1) / b.

(** ** The objects the routines work on *)

(** The two styles [ev_setup_thr] switches on ([thr_omp.h] is not among the
    sources; the [switch] has these two cases and no default). *)
Inductive style := PAIR | DIHEDRAL.

(** What the routines read through [lmp]: [lmp->comm->nthreads],
    [lmp->atom->nmax], [->nlocal], [->nghost], [lmp->force->newton] and
    [->newton_bond]. *)
Record LAMMPS := {
  comm_nthreads : Z;
  atom_nmax : Z;
  atom_nlocal : Z;
  atom_nghost : Z;
  force_newton : bool;
  force_newton_bond : bool;
}.

(** Modelled from the spec: [memory.h] ([Memory::create], [Memory::grow])
    is not among the sources.  The specification treats the allocator as a
    plain service that "grows per-atom ... storage to nthreads x ...": the
    result has the requested extents, and nothing is said about its
    contents.  The innermost extent 6 of the virial arrays is the record
    [vec6]. *)
Class Memory (D : Type) := {
  create_1d : Z -> list D;
  create_2d6 : Z -> list (vec6 D);
  grow_2d : list (list D) -> Z -> Z -> list (list D);
  grow_3d6 : list (list (vec6 D)) -> Z -> Z -> list (list (vec6 D));
  create_1d_extent : forall n, length (create_1d n) = Z.to_nat n;
  create_2d6_extent : forall n, length (create_2d6 n) = Z.to_nat n;
  grow_2d_extent : forall a n1 n2,
    length (grow_2d a n1 n2) = Z.to_nat n1 /\
    Forall (fun row => length row = Z.to_nat n2) (grow_2d a n1 n2);
  grow_3d6_extent : forall a n1 n2,
    length (grow_3d6 a n1 n2) = Z.to_nat n1 /\
    Forall (fun row => length row = Z.to_nat n2) (grow_3d6 a n1 n2);
}.

Record ThrOMP (D : Type) := {
  thr_style : style;
  eng_vdwl_thr : list D;
  eng_coul_thr : list D;
  eng_bond_thr : list D;
  virial_thr : list (vec6 D);
  maxeatom_thr : Z;
  maxvatom_thr : Z;
  eatom_thr : list (list D);
  vatom_thr : list (list (vec6 D));
}.
Arguments thr_style {D}. Arguments eng_vdwl_thr {D}.
Arguments eng_coul_thr {D}. Arguments eng_bond_thr {D}.
Arguments virial_thr {D}. Arguments maxeatom_thr {D}.
Arguments maxvatom_thr {D}. Arguments eatom_thr {D}.
Arguments vatom_thr {D}.

(** The parts of [Pair] and [Dihedral] that [ev_reduce_thr] touches. *)
Record Pair (D : Type) := {
  eng_vdwl : D;
  eng_coul : D;
  pair_virial : vec6 D;
  pair_vflag_either : bool;
  pair_vflag_atom : bool;
  pair_eflag_atom : bool;
  pair_eatom : list D;
  pair_vatom : list (vec6 D);
}.
Arguments eng_vdwl {D}. Arguments eng_coul {D}. Arguments pair_virial {D}.
Arguments pair_vflag_either {D}. Arguments pair_vflag_atom {D}.
Arguments pair_eflag_atom {D}. Arguments pair_eatom {D}.
Arguments pair_vatom {D}.

Record Dihedral (D : Type) := {
  energy : D;
  dihed_virial : vec6 D;
  dihed_vflag_either : bool;
  dihed_vflag_atom : bool;
  dihed_eflag_atom : bool;
  dihed_eatom : list D;
  dihed_vatom : list (vec6 D);
}.
Arguments energy {D}. Arguments dihed_virial {D}.
Arguments dihed_vflag_either {D}. Arguments dihed_vflag_atom {D}.
Arguments dihed_eflag_atom {D}. Arguments dihed_eatom {D}.
Arguments dihed_vatom {D}.

Section Setters.
Context {D : Type}.

Definition set_eng_vdwl_thr (s : ThrOMP D) (x : list D) : ThrOMP D :=
  {| thr_style := thr_style s; eng_vdwl_thr := x;
     eng_coul_thr := eng_coul_thr s; eng_bond_thr := eng_bond_thr s;
     virial_thr := virial_thr s; maxeatom_thr := maxeatom_thr s;
     maxvatom_thr := maxvatom_thr s; eatom_thr := eatom_thr s;
     vatom_thr := vatom_thr s |}.
Definition set_eng_coul_thr (s : ThrOMP D) (x : list D) : ThrOMP D :=
  {| thr_style := thr_style s; eng_vdwl_thr := eng_vdwl_thr s;
     eng_coul_thr := x; eng_bond_thr := eng_bond_thr s;
     virial_thr := virial_thr s; maxeatom_thr := maxeatom_thr s;
     maxvatom_thr := maxvatom_thr s; eatom_thr := eatom_thr s;
     vatom_thr := vatom_thr s |}.
Definition set_eng_bond_thr (s : ThrOMP D) (x : list D) : ThrOMP D :=
  {| thr_style := thr_style s; eng_vdwl_thr := eng_vdwl_thr s;
     eng_coul_thr := eng_coul_thr s; eng_bond_thr := x;
     virial_thr := virial_thr s; maxeatom_thr := maxeatom_thr s;
     maxvatom_thr := maxvatom_thr s; eatom_thr := eatom_thr s;
     vatom_thr := vatom_thr s |}.
Definition set_virial_thr (s : ThrOMP D) (x : list (vec6 D)) : ThrOMP D :=
  {| thr_style := thr_style s; eng_vdwl_thr := eng_vdwl_thr s;
     eng_coul_thr := eng_coul_thr s; eng_bond_thr := eng_bond_thr s;
     virial_thr := x; maxeatom_thr := maxeatom_thr s;
     maxvatom_thr := maxvatom_thr s; eatom_thr := eatom_thr s;
     vatom_thr := vatom_thr s |}.
Definition set_maxeatom_thr (s : ThrOMP D) (x : Z) : ThrOMP D :=
  {| thr_style := thr_style s; eng_vdwl_thr := eng_vdwl_thr s;
     eng_coul_thr := eng_coul_thr s; eng_bond_thr := eng_bond_thr s;
     virial_thr := virial_thr s; maxeatom_thr := x;
     maxvatom_thr := maxvatom_thr s; eatom_thr := eatom_thr s;
     vatom_thr := vatom_thr s |}.
Definition set_maxvatom_thr (s : ThrOMP D) (x : Z) : ThrOMP D :=
  {| thr_style := thr_style s; eng_vdwl_thr := eng_vdwl_thr s;
     eng_coul_thr := eng_coul_thr s; eng_bond_thr := eng_bond_thr s;
     virial_thr := virial_thr s; maxeatom_thr := maxeatom_thr s;
     maxvatom_thr := x; eatom_thr := eatom_thr s;
     vatom_thr := vatom_thr s |}.
Definition set_eatom_thr (s : ThrOMP D) (x : list (list D)) : ThrOMP D :=
  {| thr_style := thr_style s; eng_vdwl_thr := eng_vdwl_thr s;
     eng_coul_thr := eng_coul_thr s; eng_bond_thr := eng_bond_thr s;
     virial_thr := virial_thr s; maxeatom_thr := maxeatom_thr s;
     maxvatom_thr := maxvatom_thr s; eatom_thr := x;
     vatom_thr := vatom_thr s |}.
Definition set_vatom_thr (s : ThrOMP D) (x : list (list (vec6 D)))
  : ThrOMP D :=
  {| thr_style := thr_style s; eng_vdwl_thr := eng_vdwl_thr s;
     eng_coul_thr := eng_coul_thr s; eng_bond_thr := eng_bond_thr s;
     virial_thr := virial_thr s; maxeatom_thr := maxeatom_thr s;
     maxvatom_thr := maxvatom_thr s; eatom_thr := eatom_thr s;
     vatom_thr := x |}.

Definition set_eng_vdwl (p : Pair D) (x : D) : Pair D :=
  {| eng_vdwl := x; eng_coul := eng_coul p; pair_virial := pair_virial p;
     pair_vflag_either := pair_vflag_either p;
     pair_vflag_atom := pair_vflag_atom p;
     pair_eflag_atom := pair_eflag_atom p;
     pair_eatom := pair_eatom p; pair_vatom := pair_vatom p |}.
Definition set_eng_coul (p : Pair D) (x : D) : Pair D :=
  {| eng_vdwl := eng_vdwl p; eng_coul := x; pair_virial := pair_virial p;
     pair_vflag_either := pair_vflag_either p;
     pair_vflag_atom := pair_vflag_atom p;
     pair_eflag_atom := pair_eflag_atom p;
     pair_eatom := pair_eatom p; pair_vatom := pair_vatom p |}.
Definition set_pair_virial (p : Pair D) (x : vec6 D) : Pair D :=
  {| eng_vdwl := eng_vdwl p; eng_coul := eng_coul p; pair_virial := x;
     pair_vflag_either := pair_vflag_either p;
     pair_vflag_atom := pair_vflag_atom p;
     pair_eflag_atom := pair_eflag_atom p;
     pair_eatom := pair_eatom p; pair_vatom := pair_vatom p |}.
Definition set_pair_eatom (p : Pair D) (x : list D) : Pair D :=
  {| eng_vdwl := eng_vdwl p; eng_coul := eng_coul p;
     pair_virial := pair_virial p;
     pair_vflag_either := pair_vflag_either p;
     pair_vflag_atom := pair_vflag_atom p;
     pair_eflag_atom := pair_eflag_atom p;
     pair_eatom := x; pair_vatom := pair_vatom p |}.
Definition set_pair_vatom (p : Pair D) (x : list (vec6 D)) : Pair D :=
  {| eng_vdwl := eng_vdwl p; eng_coul := eng_coul p;
     pair_virial := pair_virial p;
     pair_vflag_either := pair_vflag_either p;
     pair_vflag_atom := pair_vflag_atom p;
     pair_eflag_atom := pair_eflag_atom p;
     pair_eatom := pair_eatom p; pair_vatom := x |}.

Definition set_energy (d : Dihedral D) (x : D) : Dihedral D :=
  {| energy := x; dihed_virial := dihed_virial d;
     dihed_vflag_either := dihed_vflag_either d;
     dihed_vflag_atom := dihed_vflag_atom d;
     dihed_eflag_atom := dihed_eflag_atom d;
     dihed_eatom := dihed_eatom d; dihed_vatom := dihed_vatom d |}.
Definition set_dihed_virial (d : Dihedral D) (x : vec6 D) : Dihedral D :=
  {| energy := energy d; dihed_virial := x;
     dihed_vflag_either := dihed_vflag_either d;
     dihed_vflag_atom := dihed_vflag_atom d;
     dihed_eflag_atom := dihed_eflag_atom d;
     dihed_eatom := dihed_eatom d; dihed_vatom := dihed_vatom d |}.
Definition set_dihed_eatom (d : Dihedral D) (x : list D) : Dihedral D :=
  {| energy := energy d; dihed_virial := dihed_virial d;
     dihed_vflag_either := dihed_vflag_either d;
     dihed_vflag_atom := dihed_vflag_atom d;
     dihed_eflag_atom := dihed_eflag_atom d;
     dihed_eatom := x; dihed_vatom := dihed_vatom d |}.
Definition set_dihed_vatom (d : Dihedral D) (x : list (vec6 D))
  : Dihedral D :=
  {| energy := energy d; dihed_virial := dihed_virial d;
     dihed_vflag_either := dihed_vflag_either d;
     dihed_vflag_atom := dihed_vflag_atom d;
     dihed_eflag_atom := dihed_eflag_atom d;
     dihed_eatom := dihed_eatom d; dihed_vatom := x |}.
End Setters.

(** ** The routines of thr_omp.cpp *)

Section Routines.
Context {D : Type} `{Arith D} `{Memory D}.

(** [ThrOMP::ThrOMP]: fixed-size storage per thread, no per-atom storage *)
Definition ThrOMP_new (lmp : LAMMPS) (st : style) : ThrOMP D :=
  {| thr_style := st;
     eng_vdwl_thr := create_1d (comm_nthreads lmp);
     eng_coul_thr := create_1d (comm_nthreads lmp);
     eng_bond_thr := create_1d (comm_nthreads lmp);
     virial_thr := create_2d6 (comm_nthreads lmp);
     maxeatom_thr := 0; maxvatom_thr := 0;
     eatom_thr := []; vatom_thr := [] |}.

(** [ev_setup_thr], first part: "reallocate per-atom arrays if necessary" *)
Definition ev_setup_grow (lmp : LAMMPS) (eflag_atom vflag_atom : bool)
    (s : ThrOMP D) : ThrOMP D :=
  let nthreads := comm_nthreads lmp in
  let s :=
    if eflag_atom && (maxeatom_thr s <? atom_nmax lmp) then
      let s := set_maxeatom_thr s (atom_nmax lmp) in
      set_eatom_thr s (grow_2d (eatom_thr s) nthreads (maxeatom_thr s))
    else s in
  if vflag_atom && (maxvatom_thr s <? atom_nmax lmp) then
    let s := set_maxvatom_thr s (atom_nmax lmp) in
    set_vatom_thr s (grow_3d6 (vatom_thr s) nthreads (maxeatom_thr s))
  else s.

(** the extent [ntotal] of [ev_setup_thr] *)
Definition setup_ntotal (lmp : LAMMPS) (st : style) : Z :=
  let newton :=
    match st with
    | PAIR => force_newton lmp
    | DIHEDRAL => force_newton_bond lmp
    end in
  if newton then atom_nlocal lmp + atom_nghost lmp else atom_nlocal lmp.

(** the body of [for (t = 0; t < nthreads; ++t)] in [ev_setup_thr] *)
Definition ev_setup_zero_thread (ntotal : Z)
    (eflag_global vflag_global eflag_atom vflag_atom : bool)
    (t : Z) (s : ThrOMP D) : option (ThrOMP D) :=
  let? s :=
    (if eflag_global then
       let? b := wr (eng_bond_thr s) t d0 in
       let? c := wr (eng_coul_thr s) t d0 in
       let? v := wr (eng_vdwl_thr s) t d0 in
       Some (set_eng_vdwl_thr
               (set_eng_coul_thr (set_eng_bond_thr s b) c) v)
     else Some s) in
  let? s :=
    (if vflag_global then
       let? v := wr (virial_thr s) t zero6 in
       Some (set_virial_thr s v)
     else Some s) in
  let? s :=
    (if eflag_atom then
       let? e := for_range 0 ntotal
                   (fun i e => upd2 e t i (fun _ => d0)) (eatom_thr s) in
       Some (set_eatom_thr s e)
     else Some s) in
  if vflag_atom then
    let? v := for_range 0 ntotal
                (fun i v => upd2 v t i (fun _ => zero6)) (vatom_thr s) in
    Some (set_vatom_thr s v)
  else Some s.

(** [ev_setup_thr], second part: "zero per thread accumulators" *)
Definition ev_setup_zero (lmp : LAMMPS)
    (eflag_global vflag_global eflag_atom vflag_atom : bool)
    (s : ThrOMP D) : option (ThrOMP D) :=
  let nthreads := comm_nthreads lmp in
  let ntotal := setup_ntotal lmp (thr_style s) in
  for_range 0 nthreads
    (ev_setup_zero_thread ntotal
       eflag_global vflag_global eflag_atom vflag_atom) s.

Definition ev_setup_thr (lmp : LAMMPS)
    (eflag_global vflag_global eflag_atom vflag_atom : bool)
    (s : ThrOMP D) : option (ThrOMP D) :=
  ev_setup_zero lmp eflag_global vflag_global eflag_atom vflag_atom
    (ev_setup_grow lmp eflag_atom vflag_atom s).

(** [ev_tally_thr], the block [if (eflag_either) { ... }] *)
Definition tally_energy (i j nlocal : Z)
    (newton_pair eflag_either eflag_global eflag_atom : bool)
    (evdwl ecoul : D) (tid : Z) (s : ThrOMP D) : option (ThrOMP D) :=
  if eflag_either then
    let? s :=
      (if eflag_global then
         if newton_pair then
           let? v := upd (eng_vdwl_thr s) tid (fun x => dadd x evdwl) in
           let? c := upd (eng_coul_thr s) tid (fun x => dadd x ecoul) in
           Some (set_eng_coul_thr (set_eng_vdwl_thr s v) c)
         else
           let evdwlhalf := dmul dhalf evdwl in
           let ecoulhalf := dmul dhalf ecoul in
           let? s :=
             (if i <? nlocal then
                let? v := upd (eng_vdwl_thr s) tid
                            (fun x => dadd x evdwlhalf) in
                let? c := upd (eng_coul_thr s) tid
                            (fun x => dadd x ecoulhalf) in
                Some (set_eng_coul_thr (set_eng_vdwl_thr s v) c)
              else Some s) in
           if j <? nlocal then
             let? v := upd (eng_vdwl_thr s) tid
                         (fun x => dadd x evdwlhalf) in
             let? c := upd (eng_coul_thr s) tid
                         (fun x => dadd x ecoulhalf) in
             Some (set_eng_coul_thr (set_eng_vdwl_thr s v) c)
           else Some s
       else Some s) in
    if eflag_atom then
      let epairhalf := dmul dhalf (dadd evdwl ecoul) in
      let? s :=
        (if newton_pair || (i <? nlocal) then
           let? e := upd2 (eatom_thr s) tid i
                       (fun x => dadd x epairhalf) in
           Some (set_eatom_thr s e)
         else Some s) in
      if newton_pair || (j <? nlocal) then
        let? e := upd2 (eatom_thr s) tid j (fun x => dadd x epairhalf) in
        Some (set_eatom_thr s e)
      else Some s
    else Some s
  else Some s.

(** [v[0..5]] of [ev_tally_thr] *)
Definition pair_v (fpair delx dely delz : D) : vec6 D :=
  V6 (dmul (dmul delx delx) fpair)
     (dmul (dmul dely dely) fpair)
     (dmul (dmul delz delz) fpair)
     (dmul (dmul delx dely) fpair)
     (dmul (dmul delx delz) fpair)
     (dmul (dmul dely delz) fpair).

(** [ev_tally_thr], the block [if (vflag_either) { ... }] *)
Definition tally_virial (i j nlocal : Z)
    (newton_pair vflag_either vflag_global vflag_atom : bool)
    (fpair delx dely delz : D) (tid : Z) (s : ThrOMP D)
  : option (ThrOMP D) :=
  if vflag_either then
    let v := pair_v fpair delx dely delz in
    let? s :=
      (if vflag_global then
         if newton_pair then
           let? a := upd (virial_thr s) tid (fun x => add6 x v) in
           Some (set_virial_thr s a)
         else
           let? s :=
             (if i <? nlocal then
                let? a := upd (virial_thr s) tid
                            (fun x => add6_half x v) in
                Some (set_virial_thr s a)
              else Some s) in
           if j <? nlocal then
             let? a := upd (virial_thr s) tid (fun x => add6_half x v) in
             Some (set_virial_thr s a)
           else Some s
       else Some s) in
    if vflag_atom then
      let? s :=
        (if newton_pair || (i <? nlocal) then
           let? a := upd2 (vatom_thr s) tid i (fun x => add6_half x v) in
           Some (set_vatom_thr s a)
         else Some s) in
      if newton_pair || (j <? nlocal) then
        let? a := upd2 (vatom_thr s) tid j (fun x => add6_half x v) in
        Some (set_vatom_thr s a)
      else Some s
    else Some s
  else Some s.

Definition ev_tally_thr (i j nlocal : Z)
    (newton_pair eflag_either eflag_global vflag_either vflag_global
     eflag_atom vflag_atom : bool)
    (evdwl ecoul fpair delx dely delz : D) (tid : Z) (s : ThrOMP D)
  : option (ThrOMP D) :=
  let? s := tally_energy i j nlocal newton_pair eflag_either eflag_global
              eflag_atom evdwl ecoul tid s in
  tally_virial i j nlocal newton_pair vflag_either vflag_global
    vflag_atom fpair delx dely delz tid s.

(** [for (i = 0; i < ntotal; ++i) dst[i] += src[n][i]] *)
Definition fold_rows {A : Type} (add : A -> A -> A) (ntotal n : Z)
    (src : list (list A)) (dst : list A) : option (list A) :=
  for_range 0 ntotal
    (fun i dst =>
       let? x := rd2 src n i in
       upd dst i (fun y => add y x)) dst.

(** [ev_reduce_thr] for a [Pair], the body of the loop over [n] *)
Definition ev_reduce_pair_thread (ntotal : Z) (s : ThrOMP D)
    (n : Z) (pair : Pair D) : option (Pair D) :=
  let? ev := rd (eng_vdwl_thr s) n in
  let pair := set_eng_vdwl pair (dadd (eng_vdwl pair) ev) in
  let? ec := rd (eng_coul_thr s) n in
  let pair := set_eng_coul pair (dadd (eng_coul pair) ec) in
  let? pair :=
    (if pair_vflag_either pair then
       let? v := rd (virial_thr s) n in
       let pair := set_pair_virial pair (add6 (pair_virial pair) v) in
       if pair_vflag_atom pair then
         let? va := fold_rows add6 ntotal n (vatom_thr s)
                      (pair_vatom pair) in
         Some (set_pair_vatom pair va)
       else Some pair
     else Some pair) in
  if pair_eflag_atom pair then
    let? ea := fold_rows dadd ntotal n (eatom_thr s) (pair_eatom pair) in
    Some (set_pair_eatom pair ea)
  else Some pair.

Definition ev_reduce_thr_pair (lmp : LAMMPS) (s : ThrOMP D)
    (pair : Pair D) : option (Pair D) :=
  let nthreads := comm_nthreads lmp in
  let ntotal :=
    if force_newton lmp then atom_nlocal lmp + atom_nghost lmp
    else atom_nlocal lmp in
  for_range 0 nthreads (ev_reduce_pair_thread ntotal s) pair.

(** [ev_reduce_thr] for a [Dihedral], the body of the loop over [n] *)
Definition ev_reduce_dihed_thread (ntotal : Z) (s : ThrOMP D)
    (n : Z) (dihed : Dihedral D) : option (Dihedral D) :=
  let? eb := rd (eng_bond_thr s) n in
  let dihed := set_energy dihed (dadd (energy dihed) eb) in
  let? dihed :=
    (if dihed_vflag_either dihed then
       let? v := rd (virial_thr s) n in
       let dihed := set_dihed_virial dihed (add6 (dihed_virial dihed) v) in
       if dihed_vflag_atom dihed then
         let? va := fold_rows add6 ntotal n (vatom_thr s)
                      (dihed_vatom dihed) in
         Some (set_dihed_vatom dihed va)
       else Some dihed
     else Some dihed) in
  if dihed_eflag_atom dihed then
    let? ea := fold_rows dadd ntotal n (eatom_thr s) (dihed_eatom dihed) in
    Some (set_dihed_eatom dihed ea)
  else Some dihed.

Definition ev_reduce_thr_dihedral (lmp : LAMMPS) (s : ThrOMP D)
    (dihed : Dihedral D) : option (Dihedral D) :=
  let nthreads := comm_nthreads lmp in
  let ntotal :=
    if force_newton_bond lmp then atom_nlocal lmp + atom_nghost lmp
    else atom_nlocal lmp in
  for_range 0 nthreads (ev_reduce_dihed_thread ntotal s) dihed.

(** [force_reduce_thr], the statements of the loop over [m]:
    [fall[m][c] += f[m][c]; f[m][c] = 0.0] for [c = 0, 1, 2], with
    [f = fall + toffs] *)
Definition force_reduce_row (toffs m : Z) (fall : list (vec3 D))
  : option (list (vec3 D)) :=
  let? a := rd fall m in
  let? b := rd fall (toffs + m) in
  let? fall := wr fall m (add3 a b) in
  wr fall (toffs + m) zero3.

(** [fall] is the whole force array, [nthreads] blocks of [nall] rows;
    a division by zero and an overflow of [int] are undefined like an
    access out of bounds *)
Definition force_reduce_thr (openmp : bool) (fall : list (vec3 D))
    (nall nthreads tid : Z) : option (list (vec3 D)) :=
  if negb openmp then Some fall
  else if nthreads =? 1 then Some fall
  else
    let? q := int_div nall nthreads in
    let? idelta := int_add 1 q in
    let? ifrom := int_mul tid idelta in
    let? ito := int_add ifrom idelta in
    let ito := if nall <? ito then nall else ito in
    for_range 1 nthreads
      (fun n fall =>
         let? toffs := int_mul n nall in
         for_range ifrom ito (force_reduce_row toffs) fall) fall.

(** every thread of the team has run [force_reduce_thr] after the
    barrier; the threads own disjoint rows, so their order is immaterial
    and they are run one after the other *)
Definition force_reduce_team (openmp : bool) (fall : list (vec3 D))
    (nall nthreads : Z) : option (list (vec3 D)) :=
  for_range 0 nthreads
    (fun tid fall => force_reduce_thr openmp fall nall nthreads tid) fall.

Definition sizeof_double : Z := 8.

(** The result is the value of [bytes], a [double] that holds a natural
    number.  Each product of [int]s is an [int]; it is converted to
    [size_t] for the product with [sizeof(double)], and that to [double]
    for the sum. *)
Definition memory_usage_thr (lmp : LAMMPS) (s : ThrOMP D) : option Z :=
  let nthreads := comm_nthreads lmp in
  let? n := int_mul nthreads (3 + 7) in
  let bytes := to_double (size_mul (to_size n) sizeof_double) in
  let? n := int_mul nthreads (maxeatom_thr s) in
  let bytes :=
    to_double (bytes + to_double (size_mul (to_size n) sizeof_double)) in
  let? n := int_mul nthreads (maxvatom_thr s) in
  let? n := int_mul n 6 in
  let bytes :=
    to_double (bytes + to_double (size_mul (to_size n) sizeof_double)) in
  Some bytes.

(** The footprint in the words of the specification: 3 energy scalars
    and 6 virial components per thread, and the two per-atom
    capacities. *)
Definition footprint_spec (lmp : LAMMPS) (s : ThrOMP D) : Z :=
  comm_nthreads lmp * (3 + 6) * sizeof_double
  + comm_nthreads lmp * maxeatom_thr s * sizeof_double
  + comm_nthreads lmp * maxvatom_thr s * 6 * sizeof_double.
End Routines.

(** * The vocabulary of the statements *)

(** ** Arrays *)

(** the array [a] after [a[i] = g(a[i])] *)
Definition bump {A : Type} (a : list A) (i : Z) (g : A -> A) : list A :=
  if decide (0 <= i) then alter g (Z.to_nat i) a else a.

(** the array [a] after [a[t][i] = g(a[t][i])] *)
Definition bump2 {A} (a : list (list A)) (t i : Z) (g : A -> A)
  : list (list A) :=
  bump a t (fun row => bump row i g).

(** the array [a] has an entry for each of [n] threads (or atoms) *)
Definition has_slots {A : Type} (a : list A) (n : Z) : Prop :=
  n <= Z.of_nat (length a).

(** the per-atom array [a] has a row for each of [nthreads] threads, and
    every row has an entry for each of [natoms] atoms *)
Definition has_cells {A : Type} (a : list (list A)) (nthreads natoms : Z)
  : Prop :=
  has_slots a nthreads /\ Forall (fun row => has_slots row natoms) a.

(** each thread has [n] rows in the per-atom array [a] *)
Definition rows_per_thread {A : Type} (a : list (list A)) (nthreads n : Z)
  : Prop :=
  length a = Z.to_nat nthreads /\
  Forall (fun row => length row = Z.to_nat n) a.

(** the value of [a[n]] and of [a[n][i]], for cells that exist *)
Definition slot {A : Type} (dflt : A) (a : list A) (n : Z) : A :=
  default dflt (rd a n).

Definition cell {A : Type} (dflt : A) (a : list (list A)) (n i : Z) : A :=
  default dflt (rd2 a n i).

(** ** ev_setup_thr *)

(** the fixed storage has a slot for each of [nthreads] threads *)
Definition slots_ready {D : Type} (s : ThrOMP D) (nthreads : Z) : Prop :=
  has_slots (eng_vdwl_thr s) nthreads /\ has_slots (eng_coul_thr s) nthreads /\
  has_slots (eng_bond_thr s) nthreads /\ has_slots (virial_thr s) nthreads.

(** an accumulator [x] after the zeroing: [z] if its category is requested
    and its index is inside the zeroed extent, else its old value *)
Definition zeroed {A : Type} (z : A) (requested inside : bool) (x : A) : A :=
  if requested && inside then z else x.

(** ** ev_tally_thr: the bookkeeping rules in the words of the
    specification *)

(** how many of the two endpoints are locally owned *)
Definition local_ends (nlocal i j : Z) : nat :=
  Nat.add (Nat.b2n (i <? nlocal)) (Nat.b2n (j <? nlocal)).

(** how many times atom [k] is credited by the pair [(i, j)]: once for each
    endpoint equal to [k] that counts, and an endpoint counts when the
    symmetry is on or it is locally owned *)
Definition credits (newton_pair : bool) (nlocal i j k : Z) : nat :=
  Nat.add (Nat.b2n ((newton_pair || (i <? nlocal)) && (k =? i)))
          (Nat.b2n ((newton_pair || (j <? nlocal)) && (k =? j))).

(** a global accumulator [x] after a tally of the value [e] ([plus] adds
    the full value, [plus_half] the pre-halved one) *)
Definition global_gain {V : Type} (plus plus_half : V -> V)
    (requested newton_pair : bool) (nlocal i j : Z) (x : V) : V :=
  if requested then
    if newton_pair then plus x
    else Nat.iter (local_ends nlocal i j) plus_half x
  else x.

(** the per-atom accumulator [x] of atom [k] after a tally *)
Definition atom_gain {V : Type} (plus_half : V -> V)
    (requested newton_pair : bool) (nlocal i j k : Z) (x : V) : V :=
  if requested then Nat.iter (credits newton_pair nlocal i j k) plus_half x
  else x.

(** what a tally leaves as it was *)
Definition same_energy {D : Type} (s s' : ThrOMP D) : Prop :=
  eng_vdwl_thr s' = eng_vdwl_thr s /\ eng_coul_thr s' = eng_coul_thr s /\
  eatom_thr s' = eatom_thr s.

Definition same_virial {D : Type} (s s' : ThrOMP D) : Prop :=
  virial_thr s' = virial_thr s /\ vatom_thr s' = vatom_thr s.

Definition same_rest {D : Type} (s s' : ThrOMP D) : Prop :=
  eng_bond_thr s' = eng_bond_thr s /\ thr_style s' = thr_style s /\
  maxeatom_thr s' = maxeatom_thr s /\ maxvatom_thr s' = maxvatom_thr s.

(** ** ev_reduce_thr *)

(** [x + term 0 + term 1 + ... + term (nthreads-1)], added in this order *)
Definition thread_sum {A : Type} (add : A -> A -> A) (term : Z -> A)
    (nthreads : Z) (x : A) : A :=
  foldl (fun acc n => add acc (term n)) x (seqZ 0 nthreads).

(** a per-atom entry [x] of the target after the reduction *)
Definition atoms_after {A : Type} (dflt : A) (add : A -> A -> A)
    (requested : bool) (ntotal nthreads : Z) (src : list (list A))
    (i : Z) (x : A) : A :=
  if requested && bool_decide (0 <= i < ntotal)
  then thread_sum add (fun n => cell dflt src n i) nthreads x
  else x.

(** the same for a virial, its six components summed each on its own:
    component [k] is [x[k] + term 0 [k] + ... + term (nthreads-1) [k]] *)
Definition thread_sum6 {D : Type} `{Arith D} (term : Z -> vec6 D)
    (nthreads : Z) (x : vec6 D) : vec6 D :=
  V6 (thread_sum dadd (fun n => c0 (term n)) nthreads (c0 x))
     (thread_sum dadd (fun n => c1 (term n)) nthreads (c1 x))
     (thread_sum dadd (fun n => c2 (term n)) nthreads (c2 x))
     (thread_sum dadd (fun n => c3 (term n)) nthreads (c3 x))
     (thread_sum dadd (fun n => c4 (term n)) nthreads (c4 x))
     (thread_sum dadd (fun n => c5 (term n)) nthreads (c5 x)).

(** a per-atom virial [x] of the target after the reduction *)
Definition atoms_after6 {D : Type} `{Arith D} (requested : bool)
    (ntotal nthreads : Z) (src : list (list (vec6 D))) (i : Z) (x : vec6 D)
  : vec6 D :=
  if requested && bool_decide (0 <= i < ntotal)
  then thread_sum6 (fun n => cell (V6 d0 d0 d0 d0 d0 d0) src n i) nthreads x
  else x.

(** the per-atom source has the cells of [ntotal] atoms for each thread and
    the target has room for them *)
Definition atoms_ready {A : Type} (src : list (list A)) (dst : list A)
    (nthreads ntotal : Z) : Prop :=
  has_cells src nthreads ntotal /\ has_slots dst ntotal.

(** ** force_reduce_thr *)

(** the row [k] of the force array *)
Definition force_row {D : Type} `{Arith D} (F : list (vec3 D)) (k : Z)
  : vec3 D :=
  default (V3 d0 d0 d0) (rd F k).

(** row [m] summed over the blocks [0 .. n-1], in this order, the
    components x, y and z each on its own: component [c] is
    [F[m][c] + F[nall + m][c] + ... + F[(n-1)*nall + m][c]] *)
Definition block_sum {D : Type} `{Arith D} (F : list (vec3 D))
    (nall m n : Z) : vec3 D :=
  let sum (c : vec3 D -> D) :=
    foldl (fun acc b => dadd acc (c (force_row F (b * nall + m))))
          (c (force_row F m)) (seqZ 1 (n - 1)) in
  V3 (sum fx) (sum fy) (sum fz).

(** the row [a] after [0.0] has been added [k] times to each component *)
Definition zeros_added {D : Type} `{Arith D} (k : nat) (a : vec3 D)
  : vec3 D :=
  let z (x : D) := Nat.iter k (fun x => dadd x d0) x in
  V3 (z (fx a)) (z (fy a)) (z (fz a)).

(** what a reduction of the rows [[lo, hi)] leaves behind: block 0 holds the
    sums over [n] blocks, the blocks [1 .. n-1] hold zero, every other row
    of the array is as in [F] *)
Definition rows_reduced {D : Type} `{Arith D} (F F' : list (vec3 D))
    (nall n lo hi : Z) : Prop :=
  length F' = length F /\
  (forall m, lo <= m < hi -> rd F' m = Some (block_sum F nall m n)) /\
  (forall b m, 1 <= b < n -> lo <= m < hi ->
     rd F' (b * nall + m) = Some (V3 d0 d0 d0)) /\
  (forall k, ~ lo <= k < hi ->
     (forall b m, 1 <= b < n -> lo <= m < hi -> k <> b * nall + m) ->
     rd F' k = rd F k).

(** ** Storage that covers the marks *)

(** every cell [a[t][i]] of the first [nthreads] threads and [natoms] atoms
    exists *)
Definition cells_upto {A : Type} (a : list (list A)) (nthreads natoms : Z)
  : Prop :=
  forall t i, 0 <= t < nthreads -> 0 <= i < natoms -> is_Some (rd2 a t i).

(** The state a [ThrOMP] object is meant to be in between calls: a slot per
    thread in the fixed storage, and per-atom buffers that reach as far as
    their marks [maxeatom_thr] and [maxvatom_thr] say. *)
Definition storage_covers_marks {D : Type} (s : ThrOMP D) (nthreads : Z)
  : Prop :=
  slots_ready s nthreads /\
  cells_upto (eatom_thr s) nthreads (maxeatom_thr s) /\
  cells_upto (vatom_thr s) nthreads (maxvatom_thr s).

(** [atoms_ready] with the cells counted one by one: no row is asked of a
    per-atom source that is read for no atom *)
Definition atoms_in_reach {A : Type} (src : list (list A)) (dst : list A)
    (nthreads ntotal : Z) : Prop :=
  cells_upto src nthreads ntotal /\ has_slots dst ntotal.

(** the reduction into [pair] stays below the marks of [s] and inside the
    per-atom arrays of [pair] *)
Definition pair_in_reach {D : Type} (ntotal : Z) (s : ThrOMP D)
    (pair : Pair D) : Prop :=
  (pair_eflag_atom pair = true ->
     ntotal <= maxeatom_thr s /\ has_slots (pair_eatom pair) ntotal) /\
  (pair_vflag_either pair && pair_vflag_atom pair = true ->
     ntotal <= maxvatom_thr s /\ has_slots (pair_vatom pair) ntotal).

(** what the zeroing leaves alone, whether or not the storage is large
    enough: the style, the marks, and the arrays of every category that is
    not requested *)
Definition unrequested_kept {D : Type} (eg vg ea va : bool)
    (s s' : ThrOMP D) : Prop :=
  thr_style s' = thr_style s /\
  maxeatom_thr s' = maxeatom_thr s /\ maxvatom_thr s' = maxvatom_thr s /\
  (eg = false -> eng_vdwl_thr s' = eng_vdwl_thr s /\
                 eng_coul_thr s' = eng_coul_thr s /\
                 eng_bond_thr s' = eng_bond_thr s) /\
  (vg = false -> virial_thr s' = virial_thr s) /\
  (ea = false -> eatom_thr s' = eatom_thr s) /\
  (va = false -> vatom_thr s' = vatom_thr s).

(** ** Calls in sequence *)

(** the calls [cs] made one after the other on the same object *)
Fixpoint run_calls {C S : Type} (call : C -> S -> option S) (cs : list C)
    (s : S) : option S :=
  match cs with
  | [] => Some s
  | c :: cs' => let? s' := call c s in run_calls call cs' s'
  end.

(** the arguments of one call of [ev_setup_thr] and what [lmp] holds at
    that time *)
Record setup_call := SetupCall {
  sc_lmp : LAMMPS;
  sc_eflag_global : bool;
  sc_vflag_global : bool;
  sc_eflag_atom : bool;
  sc_vflag_atom : bool;
}.

Definition ev_setup_call {D : Type} `{Arith D} `{Memory D} (c : setup_call)
    (s : ThrOMP D) : option (ThrOMP D) :=
  ev_setup_thr (sc_lmp c) (sc_eflag_global c) (sc_vflag_global c)
    (sc_eflag_atom c) (sc_vflag_atom c) s.

(** a setup call for [nthreads] threads whose atoms fit into [nmax] and
    that asks for the per-atom virial only together with the per-atom
    energy *)
Definition setup_call_ok (nthreads : Z) (st : style) (c : setup_call) : Prop :=
  comm_nthreads (sc_lmp c) = nthreads /\
  setup_ntotal (sc_lmp c) st <= atom_nmax (sc_lmp c) /\
  (sc_vflag_atom c = true -> sc_eflag_atom c = true).

(** the arguments of one call of [ev_tally_thr] *)
Record tally (D : Type) := Tally {
  t_i : Z; t_j : Z; t_nlocal : Z; t_newton_pair : bool;
  t_eflag_either : bool; t_eflag_global : bool;
  t_vflag_either : bool; t_vflag_global : bool;
  t_eflag_atom : bool; t_vflag_atom : bool;
  t_evdwl : D; t_ecoul : D; t_fpair : D;
  t_delx : D; t_dely : D; t_delz : D;
  t_tid : Z;
}.
Arguments Tally {D}.
Arguments t_i {D}. Arguments t_j {D}. Arguments t_nlocal {D}.
Arguments t_newton_pair {D}. Arguments t_eflag_either {D}.
Arguments t_eflag_global {D}. Arguments t_vflag_either {D}.
Arguments t_vflag_global {D}. Arguments t_eflag_atom {D}.
Arguments t_vflag_atom {D}. Arguments t_evdwl {D}. Arguments t_ecoul {D}.
Arguments t_fpair {D}. Arguments t_delx {D}. Arguments t_dely {D}.
Arguments t_delz {D}. Arguments t_tid {D}.

Definition ev_tally_call {D : Type} `{Arith D} (c : tally D) (s : ThrOMP D)
  : option (ThrOMP D) :=
  ev_tally_thr (t_i c) (t_j c) (t_nlocal c) (t_newton_pair c)
    (t_eflag_either c) (t_eflag_global c) (t_vflag_either c)
    (t_vflag_global c) (t_eflag_atom c) (t_vflag_atom c)
    (t_evdwl c) (t_ecoul c) (t_fpair c) (t_delx c) (t_dely c) (t_delz c)
    (t_tid c) s.

(** the thread of the tally is one of [nthreads], and its two atoms lie
    below the mark of every per-atom buffer it writes *)
Definition tally_in_bounds {D : Type} (nthreads : Z) (s : ThrOMP D)
    (c : tally D) : Prop :=
  0 <= t_tid c < nthreads /\
  (t_eflag_either c && t_eflag_atom c = true ->
     0 <= t_i c < maxeatom_thr s /\ 0 <= t_j c < maxeatom_thr s) /\
  (t_vflag_either c && t_vflag_atom c = true ->
     0 <= t_i c < maxvatom_thr s /\ 0 <= t_j c < maxvatom_thr s).

(** two sequences of tallies in which every thread makes the same calls in
    the same order: two interleavings of the same threads *)
Definition same_thread_order {D : Type} (cs cs' : list (tally D)) : Prop :=
  forall tid, filter (fun c => t_tid c = tid) cs
            = filter (fun c => t_tid c = tid) cs'.

(** ** What a tally adds *)

(** a per-atom row of one thread after a tally: [atom_gain] for each of its
    entries *)
Definition row_gain {V : Type} (plus_half : V -> V)
    (requested newton_pair : bool) (nlocal i j : Z) (row : list V) : list V :=
  if requested then
    let row :=
      if newton_pair || (i <? nlocal) then bump row i plus_half else row in
    if newton_pair || (j <? nlocal) then bump row j plus_half else row
  else row.

Section TallyGains.
Context {D : Type} `{Arith D}.

(** what the tally [c] does to an accumulated [eng_vdwl], [eng_coul] and
    virial *)
Definition tally_vdwl_gain (c : tally D) : D -> D :=
  global_gain (fun x => dadd x (t_evdwl c))
    (fun x => dadd x (dmul dhalf (t_evdwl c)))
    (t_eflag_either c && t_eflag_global c) (t_newton_pair c)
    (t_nlocal c) (t_i c) (t_j c).

Definition tally_coul_gain (c : tally D) : D -> D :=
  global_gain (fun x => dadd x (t_ecoul c))
    (fun x => dadd x (dmul dhalf (t_ecoul c)))
    (t_eflag_either c && t_eflag_global c) (t_newton_pair c)
    (t_nlocal c) (t_i c) (t_j c).

Definition tally_v (c : tally D) : vec6 D :=
  pair_v (t_fpair c) (t_delx c) (t_dely c) (t_delz c).

Definition tally_virial_gain (c : tally D) : vec6 D -> vec6 D :=
  global_gain (fun x => add6 x (tally_v c)) (fun x => add6_half x (tally_v c))
    (t_vflag_either c && t_vflag_global c) (t_newton_pair c)
    (t_nlocal c) (t_i c) (t_j c).

(** ... to the per-atom energy and virial of atom [k] *)
Definition tally_eatom_cell_gain (c : tally D) (k : Z) : D -> D :=
  atom_gain (fun x => dadd x (dmul dhalf (dadd (t_evdwl c) (t_ecoul c))))
    (t_eflag_either c && t_eflag_atom c) (t_newton_pair c)
    (t_nlocal c) (t_i c) (t_j c) k.

Definition tally_vatom_cell_gain (c : tally D) (k : Z) : vec6 D -> vec6 D :=
  atom_gain (fun x => add6_half x (tally_v c))
    (t_vflag_either c && t_vflag_atom c) (t_newton_pair c)
    (t_nlocal c) (t_i c) (t_j c) k.

(** ... and to a whole per-atom row of its thread *)
Definition tally_eatom_gain (c : tally D) : list D -> list D :=
  row_gain (fun x => dadd x (dmul dhalf (dadd (t_evdwl c) (t_ecoul c))))
    (t_eflag_either c && t_eflag_atom c) (t_newton_pair c)
    (t_nlocal c) (t_i c) (t_j c).

Definition tally_vatom_gain (c : tally D) : list (vec6 D) -> list (vec6 D) :=
  row_gain (fun x => add6_half x (tally_v c))
    (t_vflag_either c && t_vflag_atom c) (t_newton_pair c)
    (t_nlocal c) (t_i c) (t_j c).

(** the accumulators after a tally that stays inside the storage *)
Definition tallied (c : tally D) (s : ThrOMP D) : ThrOMP D :=
  {| thr_style := thr_style s;
     eng_vdwl_thr := bump (eng_vdwl_thr s) (t_tid c) (tally_vdwl_gain c);
     eng_coul_thr := bump (eng_coul_thr s) (t_tid c) (tally_coul_gain c);
     eng_bond_thr := eng_bond_thr s;
     virial_thr := bump (virial_thr s) (t_tid c) (tally_virial_gain c);
     maxeatom_thr := maxeatom_thr s;
     maxvatom_thr := maxvatom_thr s;
     eatom_thr := bump (eatom_thr s) (t_tid c) (tally_eatom_gain c);
     vatom_thr := bump (vatom_thr s) (t_tid c) (tally_vatom_gain c) |}.

(** the tallies [cs] applied one after the other to a single accumulator,
    as a serial run does *)
Definition serial_tallies {V : Type} (gain : tally D -> V -> V)
    (cs : list (tally D)) (x : V) : V :=
  foldl (fun acc c => gain c acc) x cs.
End TallyGains.

(** ** One force computation *)

Section Steps.
Context {D : Type} `{Arith D}.

(** a tally of a step that was set up with the per-atom flags [ea], [va]
    for [ntotal] atoms: it writes per-atom data only where the step asked
    for it, for atoms of the step *)
Definition tally_in_step (nthreads ntotal : Z) (ea va : bool) (c : tally D)
  : Prop :=
  0 <= t_tid c < nthreads /\
  (t_eflag_either c && t_eflag_atom c = true ->
     ea = true /\ 0 <= t_i c < ntotal /\ 0 <= t_j c < ntotal) /\
  (t_vflag_either c && t_vflag_atom c = true ->
     va = true /\ 0 <= t_i c < ntotal /\ 0 <= t_j c < ntotal).

(** the target of the reduction asks for per-atom sums only where the step
    was set up for them, and has room for [ntotal] atoms *)
Definition pair_in_step (ntotal : Z) (ea va : bool) (pair : Pair D) : Prop :=
  (pair_eflag_atom pair = true ->
     ea = true /\ has_slots (pair_eatom pair) ntotal) /\
  (pair_vflag_either pair && pair_vflag_atom pair = true ->
     va = true /\ has_slots (pair_vatom pair) ntotal).

Definition dihedral_in_step (ntotal : Z) (ea va : bool)
    (dihed : Dihedral D) : Prop :=
  (dihed_eflag_atom dihed = true ->
     ea = true /\ has_slots (dihed_eatom dihed) ntotal) /\
  (dihed_vflag_either dihed && dihed_vflag_atom dihed = true ->
     va = true /\ has_slots (dihed_vatom dihed) ntotal).

(** The calls of one force computation of a pair style, in the order the
    comments of the routines give: [ev_setup_thr], the tallies of the
    threads, [ev_reduce_thr]. *)
Definition pair_step `{Memory D} (lmp : LAMMPS) (eg vg ea va : bool)
    (cs : list (tally D)) (s : ThrOMP D) (pair : Pair D)
  : option (ThrOMP D * Pair D) :=
  let? s := ev_setup_thr lmp eg vg ea va s in
  let? s := run_calls ev_tally_call cs s in
  let? pair := ev_reduce_thr_pair lmp s pair in
  Some (s, pair).
End Steps.

(** ** Laws of the arithmetic *)

(** [g] can be moved across a sum: [g (x + y) = g x + y = x + g y] *)
Definition slides {A : Type} (add : A -> A -> A) (g : A -> A) : Prop :=
  (forall x y, g (add x y) = add (g x) y) /\
  (forall x y, g (add x y) = add x (g y)).

(** the laws of exact addition (the addition of binary64 is not
    associative) *)
Definition exact_sums (D : Type) `{Arith D} : Prop :=
  (forall x y z : D, dadd (dadd x y) z = dadd x (dadd y z)) /\
  (forall x y : D, dadd x y = dadd y x) /\
  (forall x : D, dadd x d0 = x).

(** exact sums in which two halves make a whole *)
Definition exact_halves (D : Type) `{Arith D} : Prop :=
  exact_sums D /\
  (forall x : D, dadd (dmul dhalf x) (dmul dhalf x) = x) /\
  (forall x y : D, dmul dhalf (dadd x y) = dadd (dmul dhalf x) (dmul dhalf y)).

(** ** Per-atom and global accumulators of a thread *)

(** [z + a[tid][0] + ... + a[tid][ntotal-1]] *)
Definition atom_sum {A : Type} (add : A -> A -> A) (z : A)
    (a : list (list A)) (tid ntotal : Z) : A :=
  thread_sum add (fun k => cell z a tid k) ntotal z.

Section AddUp.
Context {D : Type} `{Arith D}.

(** the per-atom energies of thread [t] add up to its global energy, and
    its per-atom virials to its global virial *)
Definition energies_add_up (s : ThrOMP D) (ntotal t : Z) : Prop :=
  atom_sum dadd d0 (eatom_thr s) t ntotal =
  dadd (slot d0 (eng_vdwl_thr s) t) (slot d0 (eng_coul_thr s) t).

Definition virials_add_up (s : ThrOMP D) (ntotal t : Z) : Prop :=
  atom_sum add6 zero6 (vatom_thr s) t ntotal = slot zero6 (virial_thr s) t.

(** a tally for two atoms of the step that asks for the global and the
    per-atom quantities together *)
Definition tally_both (ntotal : Z) (c : tally D) : Prop :=
  0 <= t_i c < ntotal /\ 0 <= t_j c < ntotal /\
  t_eflag_global c = t_eflag_atom c /\ t_vflag_global c = t_vflag_atom c.
End AddUp.

(** ** force_reduce_thr, the threads in any order *)

(** the threads [tids] run [force_reduce_thr] one after the other *)
Definition force_reduce_sched {D : Type} `{Arith D} (openmp : bool)
    (fall : list (vec3 D)) (nall nthreads : Z) (tids : list Z)
  : option (list (vec3 D)) :=
  foldM (fun tid fall => force_reduce_thr openmp fall nall nthreads tid)
    tids fall.

(** the rows of the threads [done] are reduced (row [m] belongs to thread
    [m / idelta]): block 0 holds their sums over [n] blocks and the other
    blocks hold zero there; every other row is as in [F] *)
Definition rows_reduced_for {D : Type} `{Arith D} (F F' : list (vec3 D))
    (nall n : Z) (done : list Z) : Prop :=
  let idelta := 1 + nall / n in
  length F' = length F /\
  (forall b m, 0 <= b < n -> 0 <= m < nall ->
     rd F' (b * nall + m) =
     if decide (elem_of (m / idelta) done)
     then Some (if decide (b = 0) then block_sum F nall m n
                else V3 d0 d0 d0)
     else rd F (b * nall + m)) /\
  (forall k, ~ 0 <= k < n * nall -> rd F' k = rd F k).

(** ** An allocator and inputs to run the model on *)

(** keeps the entries that fit where they are, fills fresh cells with [x] *)
Definition pad_rows {A : Type} (x : A) (a : list (list A)) (n1 n2 : Z)
  : list (list A) :=
  resize (Z.to_nat n2) x <$> resize (Z.to_nat n1) [] a.

(** fresh cells hold 0.0 *)
#[export] Instance pad_memory {D : Type} `{Arith D} : Memory D.
Proof.
  refine {| create_1d n := replicate (Z.to_nat n) d0;
            create_2d6 n := replicate (Z.to_nat n) zero6;
            grow_2d := pad_rows d0;
            grow_3d6 := pad_rows zero6 |}.
  - intros n. apply length_replicate.
  - intros n. apply length_replicate.
  - intros a n1 n2. unfold pad_rows. split.
    + by rewrite length_fmap, length_resize.
    + apply Forall_fmap, Forall_true. intros row. simpl. apply length_resize.
  - intros a n1 n2. unfold pad_rows. split.
    + by rewrite length_fmap, length_resize.
    + apply Forall_fmap, Forall_true. intros row. simpl. apply length_resize.
Defined.

(** two threads, four owned atoms and no ghosts, room for four atoms *)
Definition lmp_2x4 : LAMMPS :=
  {| comm_nthreads := 2; atom_nmax := 4; atom_nlocal := 4; atom_nghost := 0;
     force_newton := true; force_newton_bond := true |}.

(** the system of [lmp_2x4] one step earlier: two atoms, room for two *)
Definition lmp_2x2 : LAMMPS :=
  {| comm_nthreads := 2; atom_nmax := 2; atom_nlocal := 2; atom_nghost := 0;
     force_newton := true; force_newton_bond := true |}.

(** two atoms again, but room for four *)
Definition lmp_2x2_room4 : LAMMPS :=
  {| comm_nthreads := 2; atom_nmax := 4; atom_nlocal := 2; atom_nghost := 0;
     force_newton := true; force_newton_bond := true |}.

(** a freshly constructed pair-style object for [lmp_2x4] *)
Definition thr_fresh : ThrOMP Q := ThrOMP_new lmp_2x4 PAIR.

(** zeroed storage for the two threads and four atoms of [lmp_2x4] *)
Definition thr_ready : ThrOMP Q :=
  {| thr_style := PAIR;
     eng_vdwl_thr := replicate 2 0%Q;
     eng_coul_thr := replicate 2 0%Q;
     eng_bond_thr := replicate 2 0%Q;
     virial_thr := replicate 2 zero6;
     maxeatom_thr := 4; maxvatom_thr := 4;
     eatom_thr := replicate 2 (replicate 4 0%Q);
     vatom_thr := replicate 2 (replicate 4 zero6) |}.

(** accumulators of two threads and four atoms holding a tally *)
Definition thr_tallied : ThrOMP Q :=
  {| thr_style := PAIR;
     eng_vdwl_thr := [1; 2]%Q;
     eng_coul_thr := [3; 4]%Q;
     eng_bond_thr := [5; 6]%Q;
     virial_thr := [V6 1 2 3 4 5 6; V6 6 5 4 3 2 1]%Q;
     maxeatom_thr := 4; maxvatom_thr := 4;
     eatom_thr := [[1; 2; 3; 4]; [5; 6; 7; 8]]%Q;
     vatom_thr := replicate 2 (replicate 4 (V6 1 1 1 1 1 1))%Q |}.

(** a pair style that already holds contributions of another term *)
Definition pair_before : Pair Q :=
  {| eng_vdwl := 100%Q; eng_coul := 200%Q;
     pair_virial := (V6 10 20 30 40 50 60)%Q;
     pair_vflag_either := true; pair_vflag_atom := true;
     pair_eflag_atom := true;
     pair_eatom := [10; 20; 30; 40]%Q;
     pair_vatom := replicate 4 (V6 7 7 7 7 7 7)%Q |}.

(** a pair style that asks for the virial only *)
Definition pair_virial_only : Pair Q :=
  {| eng_vdwl := 0%Q; eng_coul := 0%Q;
     pair_virial := zero6;
     pair_vflag_either := true; pair_vflag_atom := true;
     pair_eflag_atom := false;
     pair_eatom := [];
     pair_vatom := replicate 4 zero6 |}.

(** two blocks of three force rows *)
Definition fall_2x3 : list (vec3 Q) :=
  [V3 1 2 3; V3 4 5 6; V3 7 8 9; V3 10 20 30; V3 40 50 60; V3 70 80 90]%Q.

(** three tallies with the symmetry on: the pairs (0, 1) and (1, 2) on
    thread 0, the pair (2, 3) on thread 1; the third asks for the global
    energy only *)
Definition tally_thread0 : tally Q :=
  Tally 0 1 4 true true true true true true true
        2%Q 4%Q 1%Q 1%Q 0%Q 0%Q 0.

Definition tally_thread1 : tally Q :=
  Tally 2 3 4 true true true true true true true
        6%Q 0%Q 1%Q 0%Q 1%Q 0%Q 1.

Definition tally_thread0_again : tally Q :=
  Tally 1 2 4 true true true false false false false
        10%Q 0%Q 0%Q 0%Q 0%Q 0%Q 0.

(** Canonical rationals: exact arithmetic whose laws hold as equalities,
    used where a statement assumes laws of [*] and [0.5]. *)
#[export] Instance Qc_arith : Arith Qc :=
  {| d0 := Q2Qc 0; dhalf := Q2Qc (1 # 2); dadd := Qcplus; dmul := Qcmult |}.

(** the pair (0, 1) on thread 0 with the symmetry on; the pair (2, 3) on
    thread 1 without it, atom 3 being a ghost *)
Definition tally_qc_thread0 : tally Qc :=
  Tally 0 1 4 true true true true true true true
        (Q2Qc 2) (Q2Qc 4) (Q2Qc 1) (Q2Qc 1) (Q2Qc 0) (Q2Qc 0) 0.

Definition tally_qc_thread1 : tally Qc :=
  Tally 2 3 3 false true true true true true true
        (Q2Qc 6) (Q2Qc 0) (Q2Qc 1) (Q2Qc 0) (Q2Qc 1) (Q2Qc 0) 1.

(** a dihedral style that asks for everything *)
Definition dihed_all_flags : Dihedral Q :=
  {| energy := 100%Q;
     dihed_virial := (V6 10 20 30 40 50 60)%Q;
     dihed_vflag_either := true; dihed_vflag_atom := true;
     dihed_eflag_atom := true;
     dihed_eatom := [10; 20; 30; 40]%Q;
     dihed_vatom := replicate 4 (V6 7 7 7 7 7 7)%Q |}.

(** * Properties *)

(** ** Checked accesses *)

Section ArrayFacts.
Context {A : Type}.
Implicit Types (a : list A) (i k : Z).

Lemma rd_Some a i x :
  rd a i = Some x <-> 0 <= i /\ a !! Z.to_nat i = Some x.
Proof.
  unfold rd. destruct (decide (0 <= i)) as [Hi|Hi]; split.
  - intros Hx. by split.
  - by intros [_ Hx].
  - done.
  - intros [Hi' _]. lia.
Qed.

Lemma rd_in_bounds a i :
  0 <= i < Z.of_nat (length a) -> is_Some (rd a i).
Proof.
  intros Hi. unfold rd. rewrite decide_True by lia.
  apply lookup_lt_is_Some. lia.
Qed.

Lemma rd_is_Some a i :
  is_Some (rd a i) <-> 0 <= i < Z.of_nat (length a).
Proof.
  split; [|apply rd_in_bounds].
  intros [x Hx]. apply rd_Some in Hx as [? Hx].
  apply lookup_lt_Some in Hx. lia.
Qed.

Lemma rd_None a i :
  rd a i = None <-> ~ (0 <= i < Z.of_nat (length a)).
Proof. rewrite <- rd_is_Some, eq_None_not_Some. done. Qed.

Lemma rd_ext a b : (forall i, rd a i = rd b i) -> a = b.
Proof.
  intros Hab. apply list_eq. intros n.
  specialize (Hab (Z.of_nat n)). unfold rd in Hab.
  rewrite !decide_True, Nat2Z.id in Hab by lia. done.
Qed.

Lemma upd_Some a i g a' :
  upd a i g = Some a' ->
  exists x, rd a i = Some x /\ a' = <[Z.to_nat i := g x]> a.
Proof.
  unfold upd. destruct (rd a i) as [x|] eqn:Hx; [|done].
  intros [= <-]. eauto.
Qed.

Lemma upd_in_bounds a i g :
  0 <= i < Z.of_nat (length a) ->
  exists x, rd a i = Some x /\ upd a i g = Some (<[Z.to_nat i := g x]> a).
Proof.
  intros Hi. destruct (rd_in_bounds a i Hi) as [x Hx].
  exists x. unfold upd. by rewrite Hx.
Qed.

Lemma rd_insert a i k x :
  0 <= i < Z.of_nat (length a) ->
  rd (<[Z.to_nat i := x]> a) k = if decide (k = i) then Some x else rd a k.
Proof.
  intros Hi. unfold rd. destruct (decide (k = i)) as [->|Hk].
  - rewrite decide_True by lia. apply list_lookup_insert_eq. lia.
  - destruct (decide (0 <= k)); [|done].
    apply list_lookup_insert_ne. lia.
Qed.

Lemma rd_upd a i g a' k :
  upd a i g = Some a' ->
  rd a' k = if decide (k = i) then g <$> rd a i else rd a k.
Proof.
  intros Hu. destruct (upd_Some _ _ _ _ Hu) as (x & Hx & ->).
  rewrite rd_insert by (apply rd_is_Some; eauto).
  case_decide; [by rewrite Hx|done].
Qed.

Lemma upd_length a i g a' : upd a i g = Some a' -> length a' = length a.
Proof.
  intros Hu. destruct (upd_Some _ _ _ _ Hu) as (x & Hx & ->).
  apply length_insert.
Qed.

Lemma wr_upd a i x : wr a i x = upd a i (fun _ => x).
Proof. reflexivity. Qed.
End ArrayFacts.

Section LoopFacts.
Context {S : Type}.
Implicit Types (body : Z -> S -> option S) (s : S).

Lemma foldM_app body l1 l2 s :
  foldM body (l1 ++ l2) s =
  match foldM body l1 s with Some s' => foldM body l2 s' | None => None end.
Proof.
  revert s. induction l1 as [|i l1 IH]; intros s; simpl; [done|].
  destruct (body i s); [apply IH|done].
Qed.

Lemma for_range_empty lo hi body s :
  hi <= lo -> for_range lo hi body s = Some s.
Proof. intros. unfold for_range. by rewrite seqZ_nil by lia. Qed.

Lemma for_range_first lo hi body s :
  lo < hi ->
  for_range lo hi body s =
  match body lo s with
  | Some s' => for_range (lo + 1) hi body s'
  | None => None
  end.
Proof.
  intros. unfold for_range. rewrite seqZ_cons by lia. simpl.
  replace (Z.succ lo) with (lo + 1) by lia.
  by replace (Z.pred (hi - lo)) with (hi - (lo + 1)) by lia.
Qed.

Lemma for_range_last lo hi body s :
  lo <= hi ->
  for_range lo (hi + 1) body s =
  match for_range lo hi body s with
  | Some s' => body hi s'
  | None => None
  end.
Proof.
  intros. unfold for_range.
  replace (hi + 1 - lo) with ((hi - lo) + 1) by lia.
  rewrite seqZ_app, foldM_app by lia.
  destruct (foldM body (seqZ lo (hi - lo)) s) as [s'|]; [|done].
  rewrite seqZ_cons, seqZ_nil by lia. simpl.
  replace (lo + (hi - lo)) with hi by lia. by destruct (body hi s').
Qed.

(** Invariant rule: the loop runs to completion and establishes the
    invariant at [hi]. *)
Lemma for_range_inv (P : Z -> S -> Prop) lo hi body s :
  lo <= hi ->
  P lo s ->
  (forall i s, lo <= i < hi -> P i s ->
     exists s', body i s = Some s' /\ P (i + 1) s') ->
  exists s', for_range lo hi body s = Some s' /\ P hi s'.
Proof.
  intros Hle H0 Hstep.
  assert (forall n : nat, lo + Z.of_nat n <= hi ->
    exists s', for_range lo (lo + Z.of_nat n) body s = Some s' /\
               P (lo + Z.of_nat n) s') as Hn.
  { induction n as [|n IH]; intros Hb.
    - exists s. rewrite Z.add_0_r. split; [by apply for_range_empty|done].
    - destruct IH as (s1 & Hs1 & HP1); [lia|].
      destruct (Hstep (lo + Z.of_nat n) s1) as (s2 & Hs2 & HP2); [lia|done|].
      exists s2. replace (lo + Z.of_nat (Datatypes.S n))
        with (lo + Z.of_nat n + 1) by lia.
      rewrite for_range_last, Hs1 by lia. done. }
  specialize (Hn (Z.to_nat (hi - lo))).
  replace (lo + Z.of_nat (Z.to_nat (hi - lo))) with hi in Hn by lia.
  apply Hn. lia.
Qed.
(** a step that fails makes the loop fail *)
Lemma for_range_None lo hi i body s :
  lo <= i < hi -> (forall s', body i s' = None) ->
  for_range lo hi body s = None.
Proof.
  intros Hi Hnone. unfold for_range.
  replace (hi - lo) with ((i - lo) + (hi - i)) by lia.
  rewrite seqZ_app, foldM_app by lia.
  destruct (foldM body (seqZ lo (i - lo)) s) as [s'|]; [|done].
  rewrite seqZ_cons by lia. simpl.
  replace (lo + (i - lo)) with i by lia. by rewrite Hnone.
Qed.
End LoopFacts.

(** ** Arithmetic on [int] *)

Lemma to_int_in_range z : INT_MIN <= z <= INT_MAX -> to_int z = Some z.
Proof. intros. unfold to_int. by rewrite decide_True. Qed.

Lemma to_int_Some z x :
  to_int z = Some x -> x = z /\ INT_MIN <= z <= INT_MAX.
Proof. unfold to_int. case_decide; [|done]. by intros [= <-]. Qed.

Lemma to_int_None z : ~ INT_MIN <= z <= INT_MAX -> to_int z = None.
Proof. intros. unfold to_int. by rewrite decide_False. Qed.

Lemma to_size_small n : 0 <= n < 2 ^ 64 -> to_size n = n.
Proof. intros. unfold to_size. by apply Z.mod_small. Qed.

Lemma to_double_small n : n < 2 ^ 53 -> to_double n = n.
Proof. intros. unfold to_double. by destruct (Z.ltb_spec n (2 ^ 53)); [|lia]. Qed.

(** the bytes of [n] doubles, for a count that is a natural [int] *)
Lemma size_bytes n :
  0 <= n <= INT_MAX ->
  to_double (size_mul (to_size n) sizeof_double) = n * sizeof_double.
Proof.
  intros Hn. unfold size_mul, sizeof_double, INT_MAX in *.
  rewrite (to_size_small n), to_size_small, to_double_small;
    change (2 ^ 64) with 18446744073709551616;
    change (2 ^ 53) with 9007199254740992; lia.
Qed.

(** ** loop_setup_thr: the ranges of the threads *)

Lemma quot_chunk inum nthreads :
  0 <= inum -> 1 <= nthreads ->
  Z.quot inum nthreads = inum / nthreads /\
  0 <= inum / nthreads /\
  nthreads * (inum / nthreads) <= inum < nthreads * (1 + inum / nthreads).
Proof.
  intros Hi Hn. rewrite Z.quot_div_nonneg by lia.
  pose proof (Z.div_mod inum nthreads ltac:(lia)) as Hdm.
  pose proof (Z.mod_pos_bound inum nthreads ltac:(lia)) as Hmod.
  pose proof (Z.div_pos inum nthreads Hi ltac:(lia)) as Hq.
  repeat split; [done|lia|lia].
Qed.

Lemma chunk_vs_ceil inum nthreads :
  0 <= inum -> 1 <= nthreads ->
  1 + inum / nthreads =
  ceil_div inum nthreads + (if inum mod nthreads =? 0 then 1 else 0).
Proof.
  intros Hi Hn. unfold ceil_div.
  pose proof (Z.div_mod inum nthreads ltac:(lia)) as Hdm.
  pose proof (Z.mod_pos_bound inum nthreads ltac:(lia)) as Hmod.
  set (q := inum / nthreads) in *. set (r := inum mod nthreads) in *.
  destruct (Z.eqb_spec r 0) as [Hr|Hr].
  - replace (inum + nthreads - 1) with (q * nthreads + (nthreads - 1)) by lia.
    rewrite Z.div_add_l, (Z.div_small (nthreads - 1)) by lia. lia.
  - replace (inum + nthreads - 1)
      with ((q + 1) * nthreads + (r - 1)) by lia.
    rewrite Z.div_add_l, (Z.div_small (r - 1)) by lia. lia.
Qed.

(** the chunks of a team end at or below [inum + nthreads] *)
Lemma chunks_fit inum nthreads tid :
  0 <= inum -> 1 <= nthreads -> 0 <= tid < nthreads ->
  (tid + 1) * (1 + inum / nthreads) <= inum + nthreads.
Proof.
  intros Hi Hn Ht.
  destruct (quot_chunk inum nthreads Hi Hn) as (_ & Hq0 & Hlo & _). nia.
Qed.

(** the [int] computations of the chunk and of the range *)
Lemma chunk_range_int (inum nthreads tid : Z) :
  0 <= inum -> 1 <= nthreads -> 0 <= tid ->
  (tid + 1) * (1 + inum / nthreads) <= INT_MAX ->
  let idelta := 1 + inum / nthreads in
  int_div inum nthreads = Some (inum / nthreads) /\
  int_add 1 (inum / nthreads) = Some idelta /\
  int_mul tid idelta = Some (tid * idelta) /\
  int_add (tid * idelta) idelta = Some (tid * idelta + idelta).
Proof.
  intros Hi Hn Ht Hfit idelta.
  destruct (quot_chunk inum nthreads Hi Hn) as (Hq & Hq0 & _ & _).
  fold idelta in Hfit. assert (1 <= idelta) as Hd by (unfold idelta; lia).
  unfold int_div, int_add, int_mul.
  destruct (Z.eqb_spec nthreads 0) as [?|_]; [lia|]. rewrite Hq.
  fold idelta. unfold INT_MIN, INT_MAX in *.
  repeat split; apply to_int_in_range; unfold INT_MIN, INT_MAX, idelta in *;
    nia.
Qed.

(** an overflow in the computation of the range *)
Lemma chunk_range_overflow (inum nthreads tid : Z) :
  0 <= inum -> 1 <= nthreads -> 0 <= tid ->
  INT_MAX < (tid + 1) * (1 + inum / nthreads) ->
  (let? q := int_div inum nthreads in
   let? idelta := int_add 1 q in
   let? ifrom := int_mul tid idelta in
   int_add ifrom idelta) = None.
Proof.
  intros Hi Hn Ht Hover.
  destruct (quot_chunk inum nthreads Hi Hn) as (Hq & Hq0 & _ & _).
  unfold int_div. destruct (Z.eqb_spec nthreads 0) as [?|_]; [lia|].
  rewrite Hq. unfold int_add, int_mul.
  destruct (to_int (inum / nthreads)) as [q|] eqn:E1; [|done].
  apply to_int_Some in E1 as [-> _].
  destruct (to_int (1 + inum / nthreads)) as [d|] eqn:E2; [|done].
  apply to_int_Some in E2 as [-> _].
  destruct (to_int (tid * (1 + inum / nthreads))) as [a|] eqn:E3; [|done].
  apply to_int_Some in E3 as [-> _].
  apply to_int_None. lia.
Qed.

(** the multi-thread path, with the chunk written with [/] *)
Lemma loop_setup_thr_multi (tid f inum nall nthreads : Z) :
  0 <= inum -> 1 < nthreads -> 0 <= tid ->
  (tid + 1) * (1 + inum / nthreads) <= INT_MAX ->
  INT_MIN <= nall * tid <= INT_MAX ->
  loop_setup_thr true tid f inum nall nthreads =
  Some (LoopSetup (f + tid * nall) (tid * (1 + inum / nthreads))
          (Z.min inum ((tid + 1) * (1 + inum / nthreads))) tid).
Proof.
  intros Hi Hn Ht Hfit Hoff. unfold loop_setup_thr.
  destruct (Z.ltb_spec 1 nthreads) as [_|?]; [simpl|lia].
  destruct (chunk_range_int inum nthreads tid Hi ltac:(lia) Ht Hfit)
    as (-> & -> & -> & ->).
  unfold int_mul. rewrite to_int_in_range by done.
  set (chunk := 1 + inum / nthreads). f_equal. f_equal; [lia|].
  destruct (Z.ltb_spec inum (tid * chunk + chunk)); lia.
Qed.

(** the multi-thread path when an [int] computation overflows *)
Lemma loop_setup_thr_overflow (tid f inum nall nthreads : Z) :
  0 <= inum -> 1 < nthreads -> 0 <= tid ->
  INT_MAX < (tid + 1) * (1 + inum / nthreads) \/
  ~ INT_MIN <= nall * tid <= INT_MAX ->
  loop_setup_thr true tid f inum nall nthreads = None.
Proof.
  intros Hi Hn Ht Hover. unfold loop_setup_thr.
  destruct (Z.ltb_spec 1 nthreads) as [_|?]; [simpl|lia].
  destruct Hover as [Hover|Hover].
  - pose proof (chunk_range_overflow inum nthreads tid Hi ltac:(lia) Ht Hover)
      as Hnone.
    destruct (int_div inum nthreads) as [q|]; [|done].
    destruct (int_add 1 q) as [d|]; [|done].
    destruct (int_mul tid d) as [a|]; [|done].
    by rewrite Hnone.
  - destruct (int_div inum nthreads) as [q|]; [|done].
    destruct (int_add 1 q) as [d|]; [|done].
    destruct (int_mul tid d) as [a|]; [|done].
    destruct (int_add a d) as [b|]; [|done].
    unfold int_mul. by rewrite to_int_None.
Qed.

(** C6, as the code has it.  With more than one thread (and OpenMP compiled
    in) the chunk is [1 + floor(inum / nthreads)]: that is
    [ceil(inum / nthreads)] when [nthreads] does not divide [inum], and one
    more when it does.  When the end [(tid+1)*chunk] of the caller's chunk
    and the offset [nall*tid] of its block are in the range of [int], the
    caller's range is [[tid*chunk, min(inum, (tid+1)*chunk))], its thread id
    is the one of the run time, and the returned base is [f + tid*nall];
    when one of them is not, the computation overflows and the behaviour is
    undefined.  The end of the chunk is in the range of [int] for every
    thread of the team if [inum + nthreads <= INT_MAX].  With one thread the
    result is thread 0, the range [[0, inum)], and [f] itself. *)
Theorem loop_setup_thr_ranges (openmp : bool) (tid f inum nall nthreads : Z) :
  0 <= inum -> 1 <= nthreads ->
  let chunk := 1 + inum / nthreads in
  (1 < nthreads -> 0 <= tid ->
   (tid + 1) * chunk <= INT_MAX -> INT_MIN <= nall * tid <= INT_MAX ->
     loop_setup_thr true tid f inum nall nthreads =
     Some (LoopSetup (f + tid * nall) (tid * chunk)
             (Z.min inum ((tid + 1) * chunk)) tid)) /\
  (1 < nthreads -> 0 <= tid ->
   INT_MAX < (tid + 1) * chunk \/ ~ INT_MIN <= nall * tid <= INT_MAX ->
     loop_setup_thr true tid f inum nall nthreads = None) /\
  (0 <= tid < nthreads -> inum + nthreads <= INT_MAX ->
     (tid + 1) * chunk <= INT_MAX) /\
  chunk = ceil_div inum nthreads + (if inum mod nthreads =? 0 then 1 else 0) /\
  loop_setup_thr openmp tid f inum nall 1 = Some (LoopSetup f 0 inum 0).
Proof.
  intros Hi Hn chunk. split; [|split; [|split; [|split]]].
  - intros Hn1 Ht Hfit Hoff. by apply loop_setup_thr_multi.
  - intros Hn1 Ht Hover. by apply loop_setup_thr_overflow.
  - intros Ht Hsum. pose proof (chunks_fit inum nthreads tid Hi Hn Ht).
    unfold chunk. lia.
  - by apply chunk_vs_ceil.
  - unfold loop_setup_thr. simpl. by rewrite andb_false_r.
Qed.

Lemma loop_setup_thr_ranges_witness :
  loop_setup_thr true 1 0 10 12 4 = Some (LoopSetup 12 3 6 1) /\
  loop_setup_thr true 3 0 10 12 4 = Some (LoopSetup 36 9 10 3) /\
  loop_setup_thr true 1 0 2147483647 12 2 = None /\
  loop_setup_thr true 0 0 10 12 1 = Some (LoopSetup 0 0 10 0).
Proof.
  pose proof (loop_setup_thr_ranges true 1 0 10 12 4 ltac:(lia) ltac:(lia))
    as (H1 & _).
  pose proof (loop_setup_thr_ranges true 3 0 10 12 4 ltac:(lia) ltac:(lia))
    as (H3 & _).
  pose proof (loop_setup_thr_ranges true 1 0 2147483647 12 2
                ltac:(lia) ltac:(lia)) as (_ & Hover & _).
  pose proof (loop_setup_thr_ranges true 0 0 10 12 1 ltac:(lia) ltac:(lia))
    as (_ & _ & _ & _ & H0).
  split; [|split; [|split]].
  - apply H1; [lia|lia|by vm_compute|split; by vm_compute].
  - apply H3; [lia|lia|by vm_compute|split; by vm_compute].
  - apply Hover; [lia|lia|]. left. by vm_compute.
  - exact H0.
Defined.

(** C6 as stated fails: with 4 work items and 2 threads the claimed chunk
    [ceil(4/2)] is 2 and the claimed range of thread 1 is [[2, 4)]; the code
    takes the chunk 3 and gives thread 1 the range [[3, 4)]. *)
Lemma loop_setup_thr_chunk_is_not_ceil :
  loop_setup_thr true 1 0 4 4 2 = Some (LoopSetup 4 3 4 1) /\
  (1 * ceil_div 4 2, Z.min 4 ((1 + 1) * ceil_div 4 2)) = (2, 4) /\
  (ls_ifrom (LoopSetup 4 3 4 1), ls_ito (LoopSetup 4 3 4 1)) <>
  (1 * ceil_div 4 2, Z.min 4 ((1 + 1) * ceil_div 4 2)).
Proof. vm_compute. repeat split; congruence. Qed.

(** C7, as the code has it.  For [inum >= 0] work items and [nthreads >= 1]
    threads with [inum + nthreads <= INT_MAX], and blocks of [nall >= 0]
    rows with [nall * nthreads <= INT_MAX], the call of every thread
    [0 .. nthreads-1] returns a range, and these ranges partition
    [[0, inum)]: every range is the interval [[ifrom, ito)] and lies inside
    [[0, inum)], every work item is in the range of some thread, and no work
    item is in the ranges of two threads.  (With one thread the range is the
    whole interval.) *)
Theorem loop_setup_thr_partition (f inum nall nthreads : Z) :
  0 <= inum -> 1 <= nthreads -> inum + nthreads <= INT_MAX ->
  0 <= nall -> nall * nthreads <= INT_MAX ->
  exists range : Z -> loop_setup,
    (forall tid, 0 <= tid < nthreads ->
       loop_setup_thr true tid f inum nall nthreads = Some (range tid)) /\
    (forall tid k, 0 <= tid < nthreads -> in_range (range tid) k ->
       0 <= k < inum) /\
    (forall k, 0 <= k < inum ->
       exists tid, 0 <= tid < nthreads /\ in_range (range tid) k) /\
    (forall tid1 tid2 k, 0 <= tid1 < nthreads -> 0 <= tid2 < nthreads ->
       in_range (range tid1) k -> in_range (range tid2) k -> tid1 = tid2).
Proof.
  intros Hi Hn Hsum Ha Hoff.
  destruct (decide (nthreads = 1)) as [->|Hn1].
  { exists (fun _ => LoopSetup f 0 inum 0). unfold in_range. simpl.
    split; [done|]. split; [lia|]. split; [|lia].
    intros k Hk. exists 0. lia. }
  destruct (quot_chunk inum nthreads Hi Hn) as (Hq & Hq0 & Hlo & Hhi).
  set (chunk := 1 + inum / nthreads) in *.
  exists (fun tid => LoopSetup (f + tid * nall) (tid * chunk)
                       (Z.min inum ((tid + 1) * chunk)) tid).
  assert (1 <= chunk) as Hc by lia.
  unfold in_range. simpl. split; [|split; [|split]].
  - intros tid Ht. apply loop_setup_thr_multi; [lia|lia|lia| |].
    + pose proof (chunks_fit inum nthreads tid Hi Hn Ht) as Hfit.
      fold chunk in Hfit. lia.
    + unfold INT_MIN, INT_MAX in *. nia.
  - intros tid k Ht Hk. nia.
  - intros k Hk. exists (k / chunk).
    pose proof (Z.div_mod k chunk ltac:(lia)) as Hdm.
    pose proof (Z.mod_pos_bound k chunk ltac:(lia)) as Hmod.
    pose proof (Z.div_pos k chunk ltac:(lia) ltac:(lia)) as Hd0.
    assert (k / chunk < nthreads) by nia.
    split; [lia|]. nia.
  - intros tid1 tid2 k Ht1 Ht2 Hk1 Hk2. nia.
Qed.

Lemma loop_setup_thr_partition_witness :
  exists range : Z -> loop_setup,
    (forall tid, 0 <= tid < 4 ->
       loop_setup_thr true tid 0 10 12 4 = Some (range tid)) /\
    exists tid, 0 <= tid < 4 /\ in_range (range tid) 7.
Proof.
  destruct (loop_setup_thr_partition 0 10 12 4)
    as (range & Hrun & _ & Hcover & _);
    [lia|lia|by vm_compute|lia|by vm_compute|].
  exists range. split; [exact Hrun|]. apply Hcover. lia.
Defined.

(** C7 as stated fails: with [INT_MAX] work items and 2 threads the chunk
    is 1073741824; thread 0 gets the range [[0, 1073741824)], and for
    thread 1 the end [ifrom + idelta] of its chunk is 2147483648, which
    overflows [int]: the behaviour is undefined and the work item
    1073741824 is in the range of no thread. *)
Lemma loop_setup_thr_partition_overflows :
  loop_setup_thr true 0 0 2147483647 1 2
    = Some (LoopSetup 0 0 1073741824 0) /\
  loop_setup_thr true 1 0 2147483647 1 2 = None /\
  0 <= 1073741824 < 2147483647 /\
  ~ in_range (LoopSetup 0 0 1073741824 0) 1073741824.
Proof.
  split; [by vm_compute|]. split; [by vm_compute|]. split; [lia|].
  unfold in_range. simpl. lia.
Qed.

(** ** memory_usage_thr *)

(** the report when every product is a natural [int] *)
Lemma memory_usage_thr_in_range {D : Type} (lmp : LAMMPS) (s : ThrOMP D) :
  0 <= comm_nthreads lmp -> 0 <= maxeatom_thr s -> 0 <= maxvatom_thr s ->
  comm_nthreads lmp * 10 <= INT_MAX ->
  comm_nthreads lmp * maxeatom_thr s <= INT_MAX ->
  comm_nthreads lmp * maxvatom_thr s * 6 <= INT_MAX ->
  memory_usage_thr lmp s =
  Some (comm_nthreads lmp * (3 + 7) * sizeof_double
        + comm_nthreads lmp * maxeatom_thr s * sizeof_double
        + comm_nthreads lmp * maxvatom_thr s * 6 * sizeof_double).
Proof.
  intros Hn He Hv H10 Hne Hnv. unfold memory_usage_thr, int_mul.
  rewrite !to_int_in_range by (unfold INT_MIN, INT_MAX in *; nia).
  rewrite !size_bytes by (unfold INT_MAX in *; nia).
  rewrite (to_double_small
             (comm_nthreads lmp * (3 + 7) * sizeof_double
              + comm_nthreads lmp * maxeatom_thr s * sizeof_double))
    by (unfold sizeof_double, INT_MAX in *;
        change (2 ^ 53) with 9007199254740992; nia).
  rewrite to_double_small; [done|].
  unfold sizeof_double, INT_MAX in *.
  change (2 ^ 53) with 9007199254740992. nia.
Qed.

(** a report that is defined has products in the range of [int] *)
Lemma memory_usage_thr_defined {D : Type} (lmp : LAMMPS) (s : ThrOMP D) b :
  memory_usage_thr lmp s = Some b ->
  INT_MIN <= comm_nthreads lmp * 10 <= INT_MAX /\
  INT_MIN <= comm_nthreads lmp * maxeatom_thr s <= INT_MAX /\
  INT_MIN <= comm_nthreads lmp * maxvatom_thr s * 6 <= INT_MAX.
Proof.
  unfold memory_usage_thr, int_mul. intros Hrun.
  destruct (to_int (comm_nthreads lmp * (3 + 7))) as [n1|] eqn:E1; [|done].
  destruct (to_int (comm_nthreads lmp * maxeatom_thr s)) as [n2|] eqn:E2;
    [|done].
  destruct (to_int (comm_nthreads lmp * maxvatom_thr s)) as [n3|] eqn:E3;
    [|done].
  destruct (to_int (n3 * 6)) as [n4|] eqn:E4; [|done].
  apply to_int_Some in E1 as [_ ?], E2 as [_ ?], E3 as [-> _], E4 as [_ ?].
  split; [lia|]. split; [lia|lia].
Qed.

(** a product outside the range of [int] leaves the report undefined *)
Lemma memory_usage_thr_overflow {D : Type} (lmp : LAMMPS) (s : ThrOMP D) :
  ~ INT_MIN <= comm_nthreads lmp * 10 <= INT_MAX \/
  ~ INT_MIN <= comm_nthreads lmp * maxeatom_thr s <= INT_MAX \/
  ~ INT_MIN <= comm_nthreads lmp * maxvatom_thr s * 6 <= INT_MAX ->
  memory_usage_thr lmp s = None.
Proof.
  intros Hover. destruct (memory_usage_thr lmp s) as [b|] eqn:E; [|done].
  apply memory_usage_thr_defined in E. tauto.
Qed.

(** the conversion to [double] above 2^53: to the nearest, ties to even *)
Example to_double_rounds :
  to_double (2 ^ 53 + 1) = 2 ^ 53 /\
  to_double (2 ^ 53 + 3) = 2 ^ 53 + 4 /\
  to_double (2 ^ 64 - 80) = 2 ^ 64.
Proof. by vm_compute. Qed.

(** The report is the footprint of the specification plus one [double] per
    thread: the fixed storage is counted as [3 + 7] doubles per thread. *)
Lemma memory_usage_thr_excess {D : Type} (lmp : LAMMPS) (s : ThrOMP D) :
  0 <= comm_nthreads lmp -> 0 <= maxeatom_thr s -> 0 <= maxvatom_thr s ->
  comm_nthreads lmp * 10 <= INT_MAX ->
  comm_nthreads lmp * maxeatom_thr s <= INT_MAX ->
  comm_nthreads lmp * maxvatom_thr s * 6 <= INT_MAX ->
  memory_usage_thr lmp s =
  Some (footprint_spec lmp s + comm_nthreads lmp * sizeof_double).
Proof.
  intros. rewrite memory_usage_thr_in_range by done.
  f_equal. unfold footprint_spec. lia.
Qed.

(** C10 at a fresh object with two threads: the constructor has allocated
    [2 * (3 + 6)] doubles, 144 bytes, and no per-atom storage; the report
    is 160. *)
Theorem memory_usage_thr_fresh_reports_160 :
  memory_usage_thr lmp_2x4 thr_fresh = Some 160 /\
  footprint_spec lmp_2x4 thr_fresh = 144 /\
  Z.of_nat (length (eng_vdwl_thr thr_fresh) + length (eng_coul_thr thr_fresh)
            + length (eng_bond_thr thr_fresh)
            + 6 * length (virial_thr thr_fresh)) * sizeof_double = 144.
Proof. vm_compute. done. Qed.

(** ** ev_setup_thr: growth of the per-atom buffers *)

Section Growth.
Context {D : Type} `{Arith D} `{Memory D}.

(** What the growth step does for the virial: the high-water mark
    [maxvatom_thr] becomes [nmax], and the buffer gets as many rows per
    thread as the *energy* mark [maxeatom_thr] says. *)
Lemma ev_setup_grow_vatom (lmp : LAMMPS) (eflag_atom : bool)
    (s : ThrOMP D) :
  maxvatom_thr s < atom_nmax lmp ->
  let s' := ev_setup_grow lmp eflag_atom true s in
  maxvatom_thr s' = atom_nmax lmp /\
  rows_per_thread (vatom_thr s') (comm_nthreads lmp) (maxeatom_thr s') /\
  maxeatom_thr s' =
    (if eflag_atom && (maxeatom_thr s <? atom_nmax lmp)
     then atom_nmax lmp else maxeatom_thr s).
Proof.
  intros Hlt. unfold ev_setup_grow.
  destruct (eflag_atom && (maxeatom_thr s <? atom_nmax lmp)); simpl;
    (destruct (Z.ltb_spec (maxvatom_thr s) (atom_nmax lmp)); [simpl|lia]);
    (split; [done|split; [apply grow_3d6_extent|done]]).
Qed.

(** The energy buffer, in contrast, follows its own mark. *)
Lemma ev_setup_grow_eatom (lmp : LAMMPS) (vflag_atom : bool)
    (s : ThrOMP D) :
  maxeatom_thr s < atom_nmax lmp ->
  let s' := ev_setup_grow lmp true vflag_atom s in
  maxeatom_thr s' = atom_nmax lmp /\
  rows_per_thread (eatom_thr s') (comm_nthreads lmp) (atom_nmax lmp).
Proof.
  intros Hlt. unfold ev_setup_grow. simpl.
  destruct (Z.ltb_spec (maxeatom_thr s) (atom_nmax lmp)); [simpl|lia].
  destruct (vflag_atom && _); simpl; (split; [done|apply grow_2d_extent]).
Qed.
End Growth.

(** C1 at a fresh object, per-atom virial requested and per-atom energy
    not: [nmax = 4] exceeds the virial mark 0, the mark becomes 4, and
    [vatom_thr] is grown to [nthreads x maxeatom_thr = 2 x 0] rows, not to
    [2 x 4].  And on a call that succeeds: after a step that set up
    everything for [nmax = 2], a call with [nmax = 4], two atoms and the
    per-atom virial only returns with the virial mark 4 and two rows per
    thread in [vatom_thr]. *)
Theorem ev_setup_grow_vatom_uses_energy_mark :
  (let s' := ev_setup_grow lmp_2x4 false true thr_fresh in
   maxvatom_thr s' = 4 /\
   maxeatom_thr s' = 0 /\
   length <$> vatom_thr s' = [0%nat; 0%nat] /\
   ~ rows_per_thread (vatom_thr s') 2 (maxvatom_thr s')) /\
  (exists s1 s2 : ThrOMP Q,
     ev_setup_thr lmp_2x2 true true true true (ThrOMP_new lmp_2x2 PAIR)
       = Some s1 /\
     ev_setup_thr lmp_2x2_room4 false false false true s1 = Some s2 /\
     maxvatom_thr s2 = 4 /\
     maxeatom_thr s2 = 2 /\
     length <$> vatom_thr s2 = [2%nat; 2%nat]).
Proof.
  split.
  - vm_compute. repeat split; try done.
    intros [_ Hrows]. by inversion Hrows.
  - eexists. eexists. split; [vm_compute; reflexivity|].
    split; [vm_compute; reflexivity|]. vm_compute. repeat split.
Qed.

(** ** Updates in place, as functions *)

Section Bump.
Context {A : Type}.
Implicit Types (a : list A) (i k : Z) (g : A -> A).

Lemma upd_bump a i g :
  is_Some (rd a i) -> upd a i g = Some (bump a i g).
Proof.
  intros [x Hx]. unfold upd, bump. rewrite Hx.
  apply rd_Some in Hx as [Hi Hx]. rewrite decide_True by done.
  f_equal. apply list_eq. intros n.
  destruct (decide (n = Z.to_nat i)) as [->|Hn].
  - rewrite list_lookup_alter_eq, Hx. simpl.
    apply list_lookup_insert_eq. by eapply lookup_lt_Some.
  - by rewrite list_lookup_alter_ne, list_lookup_insert_ne.
Qed.

Lemma rd_bump a i g k :
  rd (bump a i g) k = (if decide (k = i) then g else id) <$> rd a k.
Proof.
  unfold bump, rd. destruct (decide (0 <= i)) as [Hi|Hi].
  - destruct (decide (k = i)) as [->|Hk].
    + rewrite !decide_True by done. apply list_lookup_alter_eq.
    + destruct (decide (0 <= k)); [|done].
      rewrite list_lookup_alter_ne by lia. by rewrite option_fmap_id.
  - destruct (decide (k = i)) as [->|Hk].
    + by rewrite decide_False.
    + by rewrite option_fmap_id.
Qed.

Lemma bump_length a i g : length (bump a i g) = length a.
Proof. unfold bump. case_decide; [apply length_alter|done]. Qed.

Lemma rd_bump_is_Some a i g k :
  is_Some (rd (bump a i g) k) <-> is_Some (rd a k).
Proof. by rewrite !rd_is_Some, bump_length. Qed.
End Bump.

Lemma rd2_Some {A} (a : list (list A)) t i x :
  rd2 a t i = Some x <-> exists row, rd a t = Some row /\ rd row i = Some x.
Proof.
  unfold rd2. destruct (rd a t) as [row|].
  - split; [eauto|]. by intros (? & [= <-] & ?).
  - split; [done|]. by intros (? & ? & ?).
Qed.

Lemma upd2_bump2 {A} (a : list (list A)) t i g :
  is_Some (rd2 a t i) -> upd2 a t i g = Some (bump2 a t i g).
Proof.
  intros [x Hx]. apply rd2_Some in Hx as (row & Hrow & Hx).
  unfold upd2, bump2. rewrite Hrow, upd_bump by eauto.
  pose proof (upd_bump a t (fun _ => bump row i g) ltac:(eauto)) as Hu.
  unfold upd in Hu. rewrite Hrow in Hu. injection Hu as ->.
  f_equal. apply rd_ext. intros k. rewrite !rd_bump.
  destruct (decide (k = t)) as [->|]; [|done]. by rewrite Hrow.
Qed.

Lemma rd2_bump2 {A} (a : list (list A)) t i g t' k :
  rd2 (bump2 a t i g) t' k =
  (if decide (t' = t /\ k = i) then g else id) <$> rd2 a t' k.
Proof.
  unfold rd2, bump2. rewrite rd_bump.
  destruct (decide (t' = t)) as [->|Ht].
  - destruct (rd a t) as [row|];
      [|by destruct (decide (t = t /\ k = i))].
    simpl. rewrite rd_bump. destruct (decide (k = i)) as [->|Hk].
    + by rewrite decide_True.
    + by rewrite decide_False by (intros [_ ?]; congruence).
  - rewrite option_fmap_id, decide_False by (intros [? _]; congruence).
    destruct (rd a t'); simpl; [|done]. by rewrite option_fmap_id.
Qed.

Lemma rd2_bump2_is_Some {A} (a : list (list A)) t i g t' k :
  is_Some (rd2 (bump2 a t i g) t' k) <-> is_Some (rd2 a t' k).
Proof. rewrite rd2_bump2. apply fmap_is_Some. Qed.

(** ** ev_tally_thr *)

Lemma local_ends_cases nlocal i j :
  local_ends nlocal i j =
  if i <? nlocal then (if j <? nlocal then 2%nat else 1%nat)
  else (if j <? nlocal then 1%nat else 0%nat).
Proof. unfold local_ends. by destruct (i <? nlocal), (j <? nlocal). Qed.

Lemma credits_ghosts nlocal i j k :
  nlocal <= i -> nlocal <= j -> credits false nlocal i j k = 0%nat.
Proof.
  intros Hi Hj. unfold credits.
  destruct (Z.ltb_spec i nlocal), (Z.ltb_spec j nlocal); try lia. done.
Qed.

Section Tally.
Context {D : Type} `{Arith D}.
Implicit Types (s : ThrOMP D).

(** turn the checked updates of the goal into [bump]s, given that the cells
    exist *)
Ltac run_upd :=
  repeat first
    [ rewrite upd_bump by (rewrite ?rd_bump_is_Some; assumption)
    | rewrite upd2_bump2 by (rewrite ?rd2_bump2_is_Some; auto) ].

(** read a per-thread array after its [bump]s *)
Ltac slot_read :=
  rewrite ?rd_bump;
  match goal with
  | |- context [decide (?t = ?tid)] =>
      destruct (decide (t = tid)); destruct (rd _ t); done
  end.

(** read a per-atom array after its [bump2]s at the endpoints [i], [j] *)
Ltac cell_read i j :=
  rewrite ?rd2_bump2;
  match goal with
  | |- context [rd2 _ ?t ?k] =>
      destruct (Z.eqb_spec k i); destruct (Z.eqb_spec k j);
      repeat (match goal with
              | |- context [decide ?P] => destruct (decide P) as [[? ?]|?]
              | |- context [decide ?P] => destruct (decide P)
              end; try lia; try tauto);
      destruct (rd2 _ t k); simpl; done
  end.

(** The block [if (eflag_either) { ... }] of [ev_tally_thr]. *)
Lemma tally_energy_spec i j nlocal newton_pair ee eg ea evdwl ecoul tid s :
  is_Some (rd (eng_vdwl_thr s) tid) ->
  is_Some (rd (eng_coul_thr s) tid) ->
  (ee && ea && (newton_pair || (i <? nlocal)) = true ->
     is_Some (rd2 (eatom_thr s) tid i)) ->
  (ee && ea && (newton_pair || (j <? nlocal)) = true ->
     is_Some (rd2 (eatom_thr s) tid j)) ->
  exists s',
    tally_energy i j nlocal newton_pair ee eg ea evdwl ecoul tid s = Some s' /\
    (forall t, rd (eng_vdwl_thr s') t =
       (if decide (t = tid)
        then global_gain (fun x => dadd x evdwl)
               (fun x => dadd x (dmul dhalf evdwl))
               (ee && eg) newton_pair nlocal i j
        else id) <$> rd (eng_vdwl_thr s) t) /\
    (forall t, rd (eng_coul_thr s') t =
       (if decide (t = tid)
        then global_gain (fun x => dadd x ecoul)
               (fun x => dadd x (dmul dhalf ecoul))
               (ee && eg) newton_pair nlocal i j
        else id) <$> rd (eng_coul_thr s) t) /\
    (forall t k, rd2 (eatom_thr s') t k =
       (if decide (t = tid)
        then atom_gain (fun x => dadd x (dmul dhalf (dadd evdwl ecoul)))
               (ee && ea) newton_pair nlocal i j k
        else id) <$> rd2 (eatom_thr s) t k) /\
    (ee = false \/ (newton_pair = false /\ nlocal <= i /\ nlocal <= j) ->
       same_energy s s') /\
    same_virial s s' /\ same_rest s s'.
Proof.
  intros Hv Hc Hi Hj.
  unfold tally_energy, global_gain, atom_gain, local_ends, credits,
    same_energy, same_virial, same_rest.
  destruct ee; simpl in *.
  2:{ exists s. repeat split; intros; rewrite ?option_fmap_id; try done.
      all: destruct (decide (t = tid)); by rewrite option_fmap_id. }
  destruct eg, newton_pair, (Z.ltb_spec i nlocal), (Z.ltb_spec j nlocal), ea;
    simpl in *; run_upd; simpl; run_upd; simpl; run_upd.
  all: eexists; split; [reflexivity|]; simpl.
  all: split; [intros t; slot_read|].
  all: split; [intros t; slot_read|].
  all: split; [intros t k; cell_read i j|].
  all: split; [|done].
  all: intros [?|(? & ? & ?)]; try done; try lia.
Qed.

(** The block [if (vflag_either) { ... }] of [ev_tally_thr]. *)
Lemma tally_virial_spec i j nlocal newton_pair ve vg va
    fpair delx dely delz tid s :
  is_Some (rd (virial_thr s) tid) ->
  (ve && va && (newton_pair || (i <? nlocal)) = true ->
     is_Some (rd2 (vatom_thr s) tid i)) ->
  (ve && va && (newton_pair || (j <? nlocal)) = true ->
     is_Some (rd2 (vatom_thr s) tid j)) ->
  let v := pair_v fpair delx dely delz in
  exists s',
    tally_virial i j nlocal newton_pair ve vg va fpair delx dely delz tid s
      = Some s' /\
    (forall t, rd (virial_thr s') t =
       (if decide (t = tid)
        then global_gain (fun x => add6 x v) (fun x => add6_half x v)
               (ve && vg) newton_pair nlocal i j
        else id) <$> rd (virial_thr s) t) /\
    (forall t k, rd2 (vatom_thr s') t k =
       (if decide (t = tid)
        then atom_gain (fun x => add6_half x v)
               (ve && va) newton_pair nlocal i j k
        else id) <$> rd2 (vatom_thr s) t k) /\
    (ve = false \/ (newton_pair = false /\ nlocal <= i /\ nlocal <= j) ->
       same_virial s s') /\
    same_energy s s' /\ same_rest s s'.
Proof.
  intros Hv Hi Hj v.
  unfold tally_virial, global_gain, atom_gain, local_ends, credits,
    same_energy, same_virial, same_rest.
  fold v. clearbody v.
  destruct ve; simpl in *.
  2:{ exists s. repeat split; intros; rewrite ?option_fmap_id; try done.
      all: destruct (decide (t = tid)); by rewrite option_fmap_id. }
  destruct vg, newton_pair, (Z.ltb_spec i nlocal), (Z.ltb_spec j nlocal), va;
    simpl in *; run_upd; simpl; run_upd; simpl; run_upd.
  all: eexists; split; [reflexivity|]; simpl.
  all: split; [intros t; slot_read|].
  all: split; [intros t k; cell_read i j|].
  all: split; [|done].
  all: intros [?|(? & ? & ?)]; try done; try lia.
Qed.
End Tally.

Lemma ev_setup_thr_fresh_all_flags :
  ev_setup_thr lmp_2x4 true true true true thr_fresh = Some thr_ready.
Proof. vm_compute. reflexivity. Qed.

Section TallyClaims.
Context {D : Type} `{Arith D}.
Implicit Types (s : ThrOMP D).

(** C3, as the code has it.  A call with [eflag_either] set succeeds when
    the cells it touches exist, and then:
    - the global accumulators [eng_vdwl_thr[tid]], [eng_coul_thr[tid]] change
      only if [eflag_global] is set; with [newton_pair] they gain the full
      [evdwl], [ecoul] once, whatever [i] and [j] are; without it they gain
      [0.5*evdwl], [0.5*ecoul] once for each endpoint below [nlocal];
    - the per-atom accumulators change only if [eflag_atom] is set; atom [k]
      of thread [tid] gains [0.5*(evdwl+ecoul)] once for each endpoint equal
      to [k] that counts (all with [newton_pair], the local ones without);
    - the slots of the other threads keep their values; and without
      [newton_pair] a pair of two ghosts changes no energy accumulator. *)
Theorem ev_tally_thr_energy i j nlocal newton_pair eg ve vg ea va
    evdwl ecoul fpair delx dely delz tid s :
  is_Some (rd (eng_vdwl_thr s) tid) ->
  is_Some (rd (eng_coul_thr s) tid) ->
  is_Some (rd (virial_thr s) tid) ->
  (ea && (newton_pair || (i <? nlocal)) = true ->
     is_Some (rd2 (eatom_thr s) tid i)) ->
  (ea && (newton_pair || (j <? nlocal)) = true ->
     is_Some (rd2 (eatom_thr s) tid j)) ->
  (ve && va && (newton_pair || (i <? nlocal)) = true ->
     is_Some (rd2 (vatom_thr s) tid i)) ->
  (ve && va && (newton_pair || (j <? nlocal)) = true ->
     is_Some (rd2 (vatom_thr s) tid j)) ->
  exists s',
    ev_tally_thr i j nlocal newton_pair true eg ve vg ea va
      evdwl ecoul fpair delx dely delz tid s = Some s' /\
    (forall t, rd (eng_vdwl_thr s') t =
       (if decide (t = tid)
        then global_gain (fun x => dadd x evdwl)
               (fun x => dadd x (dmul dhalf evdwl))
               eg newton_pair nlocal i j
        else id) <$> rd (eng_vdwl_thr s) t) /\
    (forall t, rd (eng_coul_thr s') t =
       (if decide (t = tid)
        then global_gain (fun x => dadd x ecoul)
               (fun x => dadd x (dmul dhalf ecoul))
               eg newton_pair nlocal i j
        else id) <$> rd (eng_coul_thr s) t) /\
    (forall t k, rd2 (eatom_thr s') t k =
       (if decide (t = tid)
        then atom_gain (fun x => dadd x (dmul dhalf (dadd evdwl ecoul)))
               ea newton_pair nlocal i j k
        else id) <$> rd2 (eatom_thr s) t k) /\
    (newton_pair = false -> nlocal <= i -> nlocal <= j -> same_energy s s') /\
    eng_bond_thr s' = eng_bond_thr s.
Proof.
  intros Hvd Hco Hvi Hei Hej Hvai Hvaj.
  destruct (tally_energy_spec i j nlocal newton_pair true eg ea
              evdwl ecoul tid s Hvd Hco Hei Hej)
    as (s1 & Hs1 & Hvd1 & Hco1 & Hea1 & Hsame1 & (Hv1 & Hva1) & Hrest1).
  destruct (tally_virial_spec i j nlocal newton_pair ve vg va
              fpair delx dely delz tid s1)
    as (s2 & Hs2 & _ & _ & _ & (Hvd2 & Hco2 & Hea2) & Hrest2).
  { by rewrite Hv1. } { by rewrite Hva1. } { by rewrite Hva1. }
  exists s2. unfold ev_tally_thr. rewrite Hs1, Hs2.
  split; [done|]. rewrite Hvd2, Hco2, Hea2.
  split; [done|]. split; [done|]. split; [done|]. split.
  - intros Hn Hi Hj. destruct Hsame1 as (? & ? & ?); [by right|].
    unfold same_energy. by rewrite Hvd2, Hco2, Hea2.
  - destruct Hrest1 as (Hb1 & _), Hrest2 as (Hb2 & _). by rewrite Hb2.
Qed.

(** C4.  A call of [ev_tally_thr] computes
    [v = (delx*delx*fpair, dely*dely*fpair, delz*delz*fpair,
          delx*dely*fpair, delx*delz*fpair, dely*delz*fpair)],
    the components (xx, yy, zz, xy, xz, yz), and succeeds when the cells it
    touches exist.  With [vflag_either] set, [virial_thr[tid]] changes only
    if [vflag_global] is set (full [v] once with [newton_pair], [0.5*v] once
    per local endpoint without), and [vatom_thr[tid][k]] only if
    [vflag_atom] is set ([0.5*v] once per endpoint equal to [k] that
    counts); [v] and [0.5*v] are added component by component.  This holds
    whatever the energy flags and energies are; the virial block changes no
    energy accumulator, and with [eflag_either] unset no energy accumulator
    changes at all. *)
Theorem ev_tally_thr_virial i j nlocal newton_pair ee eg vg ea va
    evdwl ecoul fpair delx dely delz tid s :
  is_Some (rd (eng_vdwl_thr s) tid) ->
  is_Some (rd (eng_coul_thr s) tid) ->
  is_Some (rd (virial_thr s) tid) ->
  (ee && ea && (newton_pair || (i <? nlocal)) = true ->
     is_Some (rd2 (eatom_thr s) tid i)) ->
  (ee && ea && (newton_pair || (j <? nlocal)) = true ->
     is_Some (rd2 (eatom_thr s) tid j)) ->
  (va && (newton_pair || (i <? nlocal)) = true ->
     is_Some (rd2 (vatom_thr s) tid i)) ->
  (va && (newton_pair || (j <? nlocal)) = true ->
     is_Some (rd2 (vatom_thr s) tid j)) ->
  let v := V6 (dmul (dmul delx delx) fpair) (dmul (dmul dely dely) fpair)
              (dmul (dmul delz delz) fpair) (dmul (dmul delx dely) fpair)
              (dmul (dmul delx delz) fpair) (dmul (dmul dely delz) fpair) in
  let plus (x : vec6 D) :=
    V6 (dadd (c0 x) (c0 v)) (dadd (c1 x) (c1 v)) (dadd (c2 x) (c2 v))
       (dadd (c3 x) (c3 v)) (dadd (c4 x) (c4 v)) (dadd (c5 x) (c5 v)) in
  let plus_half (x : vec6 D) :=
    V6 (dadd (c0 x) (dmul dhalf (c0 v))) (dadd (c1 x) (dmul dhalf (c1 v)))
       (dadd (c2 x) (dmul dhalf (c2 v))) (dadd (c3 x) (dmul dhalf (c3 v)))
       (dadd (c4 x) (dmul dhalf (c4 v))) (dadd (c5 x) (dmul dhalf (c5 v))) in
  exists s',
    ev_tally_thr i j nlocal newton_pair ee eg true vg ea va
      evdwl ecoul fpair delx dely delz tid s = Some s' /\
    (forall t, rd (virial_thr s') t =
       (if decide (t = tid)
        then global_gain plus plus_half vg newton_pair nlocal i j
        else id) <$> rd (virial_thr s) t) /\
    (forall t k, rd2 (vatom_thr s') t k =
       (if decide (t = tid)
        then atom_gain plus_half va newton_pair nlocal i j k
        else id) <$> rd2 (vatom_thr s) t k) /\
    (newton_pair = false -> nlocal <= i -> nlocal <= j ->
       same_virial s s') /\
    (ee = false -> same_energy s s') /\
    eng_bond_thr s' = eng_bond_thr s.
Proof.
  intros Hvd Hco Hvi Hei Hej Hvai Hvaj v plus plus_half.
  destruct (tally_energy_spec i j nlocal newton_pair ee eg ea
              evdwl ecoul tid s Hvd Hco Hei Hej)
    as (s1 & Hs1 & _ & _ & _ & Hsame1 & (Hv1 & Hva1) & Hrest1).
  destruct (tally_virial_spec i j nlocal newton_pair true vg va
              fpair delx dely delz tid s1)
    as (s2 & Hs2 & Hv2 & Hva2 & Hsame2 & (Hvd2 & Hco2 & Hea2) & Hrest2).
  { by rewrite Hv1. } { by rewrite Hva1. } { by rewrite Hva1. }
  exists s2. unfold ev_tally_thr. rewrite Hs1, Hs2.
  split; [done|]. rewrite Hv1, Hva1 in *.
  split; [exact Hv2|]. split; [exact Hva2|]. split; [|split].
  - intros Hn Hi Hj. destruct Hsame2 as (? & ?); [by right|].
    unfold same_virial. by rewrite <- Hv1, <- Hva1.
  - intros ->. destruct Hsame1 as (? & ? & ?); [by left|].
    unfold same_energy. by rewrite Hvd2, Hco2, Hea2.
  - destruct Hrest1 as (Hb1 & _), Hrest2 as (Hb2 & _). by rewrite Hb2.
Qed.
End TallyClaims.

Lemma ev_tally_thr_energy_witness :
  exists s',
    ev_tally_thr 0 1 4 true true true false false true false
      2%Q 0%Q 0%Q 0%Q 0%Q 0%Q 0 thr_ready = Some s' /\
    rd (eng_vdwl_thr s') 0 = Some (dadd 0%Q 2%Q) /\
    rd (eng_vdwl_thr s') 1 = Some 0%Q /\
    rd2 (eatom_thr s') 0 1 = Some (dadd 0%Q (dmul dhalf (dadd 2%Q 0%Q))).
Proof.
  destruct (ev_tally_thr_energy 0 1 4 true true false false true false
              2%Q 0%Q 0%Q 0%Q 0%Q 0%Q 0 thr_ready)
    as (s' & Hs' & Hvd & _ & Hea & _).
  - vm_compute. eexists. reflexivity.
  - vm_compute. eexists. reflexivity.
  - vm_compute. eexists. reflexivity.
  - intros _. vm_compute. eexists. reflexivity.
  - intros _. vm_compute. eexists. reflexivity.
  - simpl. discriminate.
  - simpl. discriminate.
  - exists s'. split; [exact Hs'|]. split; [exact (Hvd 0)|].
    split; [exact (Hvd 1)|exact (Hea 0 1)].
Defined.

(** C3 as stated fails: with [eflag_either] and [newton_pair] set but
    [eflag_global] unset (per-atom energy only), [evdwl = 2] is not added to
    [eng_vdwl_thr[tid]]. *)
Lemma ev_tally_thr_global_energy_is_gated :
  exists s',
    ev_tally_thr 0 1 4 true true false false false true false
      2%Q 0%Q 0%Q 0%Q 0%Q 0%Q 0 thr_ready = Some s' /\
    rd (eng_vdwl_thr s') 0 = rd (eng_vdwl_thr thr_ready) 0 /\
    rd (eng_vdwl_thr s') 0 <>
      (fun x => dadd x 2%Q) <$> rd (eng_vdwl_thr thr_ready) 0.
Proof.
  eexists. split; [vm_compute; reflexivity|].
  vm_compute. split; [reflexivity|discriminate].
Qed.

Lemma ev_tally_thr_virial_witness :
  exists s',
    ev_tally_thr 0 1 1 false false false true true false true
      0%Q 0%Q 2%Q 1%Q 3%Q 0%Q 0 thr_ready = Some s' /\
    rd (virial_thr s') 0 =
      Some (V6 (0 + (1 # 2) * (1 * 1 * 2)) (0 + (1 # 2) * (3 * 3 * 2))
               (0 + (1 # 2) * (0 * 0 * 2)) (0 + (1 # 2) * (1 * 3 * 2))
               (0 + (1 # 2) * (1 * 0 * 2)) (0 + (1 # 2) * (3 * 0 * 2)))%Q /\
    rd (virial_thr s') 1 = Some (V6 0 0 0 0 0 0)%Q /\
    rd2 (vatom_thr s') 0 0 =
      Some (V6 (0 + (1 # 2) * (1 * 1 * 2)) (0 + (1 # 2) * (3 * 3 * 2))
               (0 + (1 # 2) * (0 * 0 * 2)) (0 + (1 # 2) * (1 * 3 * 2))
               (0 + (1 # 2) * (1 * 0 * 2)) (0 + (1 # 2) * (3 * 0 * 2)))%Q /\
    rd2 (vatom_thr s') 0 1 = Some (V6 0 0 0 0 0 0)%Q.
Proof.
  destruct (ev_tally_thr_virial 0 1 1 false false false true false true
              0%Q 0%Q 2%Q 1%Q 3%Q 0%Q 0 thr_ready)
    as (s' & Hs' & Hv & Hva & _).
  - vm_compute. eexists. reflexivity.
  - vm_compute. eexists. reflexivity.
  - vm_compute. eexists. reflexivity.
  - simpl. discriminate.
  - simpl. discriminate.
  - intros _. vm_compute. eexists. reflexivity.
  - simpl. discriminate.
  - exists s'. split; [exact Hs'|]. split; [exact (Hv 0)|].
    split; [exact (Hv 1)|]. split; [exact (Hva 0 0)|exact (Hva 0 1)].
Defined.

(** ** ev_reduce_thr *)

Lemma thread_sum_0 {A : Type} (add : A -> A -> A) term n x :
  n <= 0 -> thread_sum add term n x = x.
Proof. intros. unfold thread_sum. by rewrite seqZ_nil. Qed.

Lemma thread_sum_succ {A : Type} (add : A -> A -> A) term n x :
  0 <= n ->
  thread_sum add term (n + 1) x = add (thread_sum add term n x) (term n).
Proof.
  intros. unfold thread_sum. rewrite seqZ_app, foldl_app by lia.
  rewrite (seqZ_cons _ 1), (seqZ_nil _ (Z.pred 1)) by lia. simpl.
  by rewrite Z.add_0_l.
Qed.

(** The inner loop [for (i = 0; i < ntotal; ++i) dst[i] += src[n][i]]:
    it succeeds when the cells exist, adds the source to the rows below
    [ntotal], and leaves the other rows as they were. *)
Lemma fold_rows_spec {A : Type} (dflt : A) (add : A -> A -> A)
    (ntotal n : Z) (src : list (list A)) (dst : list A) :
  (forall i, 0 <= i < ntotal -> is_Some (rd2 src n i)) ->
  ntotal <= Z.of_nat (length dst) ->
  exists dst',
    fold_rows add ntotal n src dst = Some dst' /\
    length dst' = length dst /\
    forall i, rd dst' i =
      (if decide (0 <= i < ntotal)
       then (fun y => add y (cell dflt src n i)) else id) <$> rd dst i.
Proof.
  intros Hsrc Hdst. unfold fold_rows.
  destruct (decide (ntotal <= 0)) as [Hle|Hpos].
  { exists dst. rewrite for_range_empty by lia. split; [done|split; [done|]].
    intros i. rewrite decide_False by lia. by rewrite option_fmap_id. }
  pose (P := fun (m : Z) (d : list A) =>
    length d = length dst /\
    forall i, rd d i =
      (if decide (0 <= i < m)
       then (fun y => add y (cell dflt src n i)) else id) <$> rd dst i).
  destruct (for_range_inv P 0 ntotal
    (fun i dst => match rd2 src n i with
                  | Some x => upd dst i (fun y => add y x)
                  | None => None
                  end) dst) as (dst' & Hrun & Hlen & Hrd).
  - lia.
  - split; [done|]. intros i. rewrite decide_False by lia.
    by rewrite option_fmap_id.
  - intros m d Hm [Hlen Hrd].
    destruct (Hsrc m Hm) as [x Hx]. rewrite Hx.
    assert (is_Some (rd d m)) as Hdm by (apply rd_in_bounds; lia).
    rewrite upd_bump by done. eexists. split; [done|]. split.
    + by rewrite bump_length.
    + intros i. rewrite rd_bump, Hrd.
      unfold cell. destruct (decide (i = m)) as [->|Hi].
      * rewrite Hx. rewrite decide_False, decide_True by lia.
        by destruct (rd dst m).
      * rewrite option_fmap_id.
        destruct (decide (0 <= i < m)), (decide (0 <= i < m + 1));
          try lia; done.
  - exists dst'. done.
Qed.

Lemma has_slots_rd {A : Type} (a : list A) n i :
  has_slots a n -> 0 <= i < n -> is_Some (rd a i).
Proof. unfold has_slots. intros Hn Hi. apply rd_in_bounds. lia. Qed.

Lemma has_cells_rd2 {A : Type} (a : list (list A)) nthreads natoms n i :
  has_cells a nthreads natoms -> 0 <= n < nthreads -> 0 <= i < natoms ->
  is_Some (rd2 a n i).
Proof.
  intros [Hrows Hall] Hn Hi.
  destruct (has_slots_rd a nthreads n Hrows Hn) as [row Hrow].
  unfold rd2. rewrite Hrow. apply rd_Some in Hrow as [_ Hrow].
  rewrite Forall_lookup in Hall.
  eapply has_slots_rd; [by eapply Hall|done].
Qed.

Lemma cells_upto_le {A : Type} (a : list (list A)) n m m' :
  m' <= m -> cells_upto a n m -> cells_upto a n m'.
Proof. intros Hle Hc t i Ht Hi. apply Hc; lia. Qed.

Lemma has_cells_upto {A : Type} (a : list (list A)) n m :
  has_cells a n m -> cells_upto a n m.
Proof. intros Hc t i Ht Hi. by eapply has_cells_rd2. Qed.

Lemma atoms_after_0 {A : Type} (dflt : A) add requested ntotal n src i
    (o : option A) :
  n <= 0 -> atoms_after dflt add requested ntotal n src i <$> o = o.
Proof.
  intros Hn. unfold atoms_after.
  destruct (requested && _); destruct o; simpl; try done.
  by rewrite thread_sum_0.
Qed.

Lemma atoms_after_succ {A : Type} (dflt : A) add ntotal n src i
    (o : option A) :
  0 <= n ->
  (if decide (0 <= i < ntotal)
   then (fun y => add y (cell dflt src n i)) else id) <$>
    (atoms_after dflt add true ntotal n src i <$> o) =
  atoms_after dflt add true ntotal (n + 1) src i <$> o.
Proof.
  intros Hn. unfold atoms_after. simpl.
  destruct (decide (0 <= i < ntotal)) as [Hi|Hi].
  - rewrite !bool_decide_eq_true_2 by done. destruct o; simpl; [|done].
    by rewrite thread_sum_succ.
  - rewrite !bool_decide_eq_false_2 by done. by destruct o.
Qed.

Section Reduce.
Context {D : Type} `{Arith D}.

(** [ev_reduce_thr] for a [Pair]: it succeeds when the slots of the
    threads, the cells it reads ([atoms_in_reach]) and the target rows it
    updates exist, and every field of the target is then the old value
    plus the terms of the threads, added in the order of the threads. *)
Lemma ev_reduce_thr_pair_cells (lmp : LAMMPS) (s : ThrOMP D) (pair : Pair D) :
  let nthreads := comm_nthreads lmp in
  let ntotal := if force_newton lmp then atom_nlocal lmp + atom_nghost lmp
                else atom_nlocal lmp in
  let vfe := pair_vflag_either pair in
  let vfa := pair_vflag_atom pair in
  let efa := pair_eflag_atom pair in
  slots_ready s nthreads ->
  (vfe && vfa = true ->
     atoms_in_reach (vatom_thr s) (pair_vatom pair) nthreads ntotal) ->
  (efa = true ->
     atoms_in_reach (eatom_thr s) (pair_eatom pair) nthreads ntotal) ->
  exists pair',
    ev_reduce_thr_pair lmp s pair = Some pair' /\
    eng_vdwl pair' =
      thread_sum dadd (slot d0 (eng_vdwl_thr s)) nthreads (eng_vdwl pair) /\
    eng_coul pair' =
      thread_sum dadd (slot d0 (eng_coul_thr s)) nthreads (eng_coul pair) /\
    pair_virial pair' =
      (if vfe
       then thread_sum add6 (slot zero6 (virial_thr s)) nthreads
              (pair_virial pair)
       else pair_virial pair) /\
    (forall i, rd (pair_vatom pair') i =
       atoms_after zero6 add6 (vfe && vfa) ntotal nthreads (vatom_thr s) i
         <$> rd (pair_vatom pair) i) /\
    (forall i, rd (pair_eatom pair') i =
       atoms_after d0 dadd efa ntotal nthreads (eatom_thr s) i
         <$> rd (pair_eatom pair) i) /\
    pair_vflag_either pair' = vfe /\ pair_vflag_atom pair' = vfa /\
    pair_eflag_atom pair' = efa.
Proof.
  intros nthreads ntotal vfe vfa efa Hslots Hva Hea.
  unfold ev_reduce_thr_pair. fold nthreads ntotal.
  destruct (decide (nthreads <= 0)) as [Hle|Hpos].
  { exists pair. rewrite for_range_empty by lia.
    rewrite !thread_sum_0 by done. repeat split; try done.
    - by destruct vfe.
    - intros i. by rewrite atoms_after_0.
    - intros i. by rewrite atoms_after_0. }
  pose (P := fun (n : Z) (p : Pair D) =>
    eng_vdwl p = thread_sum dadd (slot d0 (eng_vdwl_thr s)) n (eng_vdwl pair) /\
    eng_coul p = thread_sum dadd (slot d0 (eng_coul_thr s)) n (eng_coul pair) /\
    pair_virial p =
      (if vfe then thread_sum add6 (slot zero6 (virial_thr s)) n
                     (pair_virial pair)
       else pair_virial pair) /\
    (forall i, rd (pair_vatom p) i =
       atoms_after zero6 add6 (vfe && vfa) ntotal n (vatom_thr s) i
         <$> rd (pair_vatom pair) i) /\
    (forall i, rd (pair_eatom p) i =
       atoms_after d0 dadd efa ntotal n (eatom_thr s) i
         <$> rd (pair_eatom pair) i) /\
    length (pair_vatom p) = length (pair_vatom pair) /\
    length (pair_eatom p) = length (pair_eatom pair) /\
    pair_vflag_either p = vfe /\ pair_vflag_atom p = vfa /\
    pair_eflag_atom p = efa).
  destruct (for_range_inv P 0 nthreads (ev_reduce_pair_thread ntotal s) pair)
    as (pair' & Hrun & HP).
  - lia.
  - unfold P. rewrite !thread_sum_0 by done. repeat split; try done.
    + by destruct vfe.
    + intros i. by rewrite atoms_after_0.
    + intros i. by rewrite atoms_after_0.
  - intros n p Hn (Hvd & Hco & Hvi & Hvat & Heat & Hlv & Hle & Hf1 & Hf2 & Hf3).
    destruct Hslots as (Hs1 & Hs2 & _ & Hs4).
    destruct (has_slots_rd _ _ n Hs1 Hn) as [xv Hxv].
    destruct (has_slots_rd _ _ n Hs2 Hn) as [xc Hxc].
    destruct (has_slots_rd _ _ n Hs4 Hn) as [xw Hxw].
    assert (0 <= n) as Hn0 by lia.
    assert (slot d0 (eng_vdwl_thr s) n = xv) as Hsv
      by (unfold slot; by rewrite Hxv).
    assert (slot d0 (eng_coul_thr s) n = xc) as Hsc
      by (unfold slot; by rewrite Hxc).
    assert (slot zero6 (virial_thr s) n = xw) as Hsw
      by (unfold slot; by rewrite Hxw).
    unfold ev_reduce_pair_thread. rewrite Hxv, Hxc. simpl.
    rewrite Hf1, Hxw, Hf2.
    clearbody vfe vfa efa.
    assert (exists va,
      (if vfe && vfa
       then fold_rows add6 ntotal n (vatom_thr s) (pair_vatom p)
       else Some (pair_vatom p)) = Some va /\
      length va = length (pair_vatom pair) /\
      forall i, rd va i =
        atoms_after zero6 add6 (vfe && vfa) ntotal (n + 1) (vatom_thr s) i
          <$> rd (pair_vatom pair) i) as (va & Hva' & Hlva & Hrva).
    { destruct (vfe && vfa) eqn:Evv.
      - destruct (Hva eq_refl) as [Hcells Hroom].
        destruct (fold_rows_spec zero6 add6 ntotal n (vatom_thr s)
                    (pair_vatom p)) as (va & -> & Hl & Hr).
        { intros i Hi. by apply Hcells. }
        { unfold has_slots in Hroom. lia. }
        exists va. split; [done|]. split; [lia|].
        intros i. rewrite Hr, Hvat. by apply atoms_after_succ.
      - exists (pair_vatom p). split; [done|]. split; [done|].
        intros i. rewrite Hvat. unfold atoms_after. done. }
    assert (exists ea,
      (if efa
       then fold_rows dadd ntotal n (eatom_thr s) (pair_eatom p)
       else Some (pair_eatom p)) = Some ea /\
      length ea = length (pair_eatom pair) /\
      forall i, rd ea i =
        atoms_after d0 dadd efa ntotal (n + 1) (eatom_thr s) i
          <$> rd (pair_eatom pair) i) as (ea & Hea' & Hlea & Hrea).
    { destruct efa eqn:Eea.
      - destruct (Hea eq_refl) as [Hcells Hroom].
        destruct (fold_rows_spec d0 dadd ntotal n (eatom_thr s)
                    (pair_eatom p)) as (ea & -> & Hl & Hr).
        { intros i Hi. by apply Hcells. }
        { unfold has_slots in Hroom. lia. }
        exists ea. split; [done|]. split; [lia|].
        intros i. rewrite Hr, Heat. by apply atoms_after_succ.
      - exists (pair_eatom p). split; [done|]. split; [done|].
        intros i. rewrite Heat. unfold atoms_after. done. }
    destruct vfe, vfa, efa; simpl in Hva', Hea'; simpl;
      rewrite ?Hva'; simpl; rewrite ?Hf3; rewrite ?Hea';
      try (injection Hva' as <-); try (injection Hea' as <-);
      (eexists; split; [reflexivity|]);
      unfold P; simpl;
      rewrite ?thread_sum_succ, ?Hsv, ?Hsc, ?Hsw, ?Hvd, ?Hco, ?Hvi by done;
      repeat split; done.
  - exists pair'. destruct HP as (? & ? & ? & ? & ? & _ & _ & ? & ? & ?).
    repeat split; done.
Qed.

(** the same, for per-atom sources given by their rows *)
Lemma ev_reduce_thr_pair_spec (lmp : LAMMPS) (s : ThrOMP D) (pair : Pair D) :
  let nthreads := comm_nthreads lmp in
  let ntotal := if force_newton lmp then atom_nlocal lmp + atom_nghost lmp
                else atom_nlocal lmp in
  let vfe := pair_vflag_either pair in
  let vfa := pair_vflag_atom pair in
  let efa := pair_eflag_atom pair in
  slots_ready s nthreads ->
  (vfe && vfa = true ->
     atoms_ready (vatom_thr s) (pair_vatom pair) nthreads ntotal) ->
  (efa = true ->
     atoms_ready (eatom_thr s) (pair_eatom pair) nthreads ntotal) ->
  exists pair',
    ev_reduce_thr_pair lmp s pair = Some pair' /\
    eng_vdwl pair' =
      thread_sum dadd (slot d0 (eng_vdwl_thr s)) nthreads (eng_vdwl pair) /\
    eng_coul pair' =
      thread_sum dadd (slot d0 (eng_coul_thr s)) nthreads (eng_coul pair) /\
    pair_virial pair' =
      (if vfe
       then thread_sum add6 (slot zero6 (virial_thr s)) nthreads
              (pair_virial pair)
       else pair_virial pair) /\
    (forall i, rd (pair_vatom pair') i =
       atoms_after zero6 add6 (vfe && vfa) ntotal nthreads (vatom_thr s) i
         <$> rd (pair_vatom pair) i) /\
    (forall i, rd (pair_eatom pair') i =
       atoms_after d0 dadd efa ntotal nthreads (eatom_thr s) i
         <$> rd (pair_eatom pair) i) /\
    pair_vflag_either pair' = vfe /\ pair_vflag_atom pair' = vfa /\
    pair_eflag_atom pair' = efa.
Proof.
  intros nthreads ntotal vfe vfa efa Hslots Hva Hea.
  apply ev_reduce_thr_pair_cells; [done| |].
  - intros Hf. destruct (Hva Hf) as [Hcells Hroom].
    split; [by apply has_cells_upto|done].
  - intros Hf. destruct (Hea Hf) as [Hcells Hroom].
    split; [by apply has_cells_upto|done].
Qed.

(** [ev_reduce_thr] for a [Dihedral] *)
Lemma ev_reduce_thr_dihedral_cells (lmp : LAMMPS) (s : ThrOMP D)
    (dihed : Dihedral D) :
  let nthreads := comm_nthreads lmp in
  let ntotal := if force_newton_bond lmp
                then atom_nlocal lmp + atom_nghost lmp
                else atom_nlocal lmp in
  let vfe := dihed_vflag_either dihed in
  let vfa := dihed_vflag_atom dihed in
  let efa := dihed_eflag_atom dihed in
  slots_ready s nthreads ->
  (vfe && vfa = true ->
     atoms_in_reach (vatom_thr s) (dihed_vatom dihed) nthreads ntotal) ->
  (efa = true ->
     atoms_in_reach (eatom_thr s) (dihed_eatom dihed) nthreads ntotal) ->
  exists dihed',
    ev_reduce_thr_dihedral lmp s dihed = Some dihed' /\
    energy dihed' =
      thread_sum dadd (slot d0 (eng_bond_thr s)) nthreads (energy dihed) /\
    dihed_virial dihed' =
      (if vfe
       then thread_sum add6 (slot zero6 (virial_thr s)) nthreads
              (dihed_virial dihed)
       else dihed_virial dihed) /\
    (forall i, rd (dihed_vatom dihed') i =
       atoms_after zero6 add6 (vfe && vfa) ntotal nthreads (vatom_thr s) i
         <$> rd (dihed_vatom dihed) i) /\
    (forall i, rd (dihed_eatom dihed') i =
       atoms_after d0 dadd efa ntotal nthreads (eatom_thr s) i
         <$> rd (dihed_eatom dihed) i) /\
    dihed_vflag_either dihed' = vfe /\ dihed_vflag_atom dihed' = vfa /\
    dihed_eflag_atom dihed' = efa.
Proof.
  intros nthreads ntotal vfe vfa efa Hslots Hva Hea.
  unfold ev_reduce_thr_dihedral. fold nthreads ntotal.
  destruct (decide (nthreads <= 0)) as [Hle|Hpos].
  { exists dihed. rewrite for_range_empty by lia.
    rewrite !thread_sum_0 by done. repeat split; try done.
    - by destruct vfe.
    - intros i. by rewrite atoms_after_0.
    - intros i. by rewrite atoms_after_0. }
  pose (P := fun (n : Z) (p : Dihedral D) =>
    energy p = thread_sum dadd (slot d0 (eng_bond_thr s)) n (energy dihed) /\
    dihed_virial p =
      (if vfe then thread_sum add6 (slot zero6 (virial_thr s)) n
                     (dihed_virial dihed)
       else dihed_virial dihed) /\
    (forall i, rd (dihed_vatom p) i =
       atoms_after zero6 add6 (vfe && vfa) ntotal n (vatom_thr s) i
         <$> rd (dihed_vatom dihed) i) /\
    (forall i, rd (dihed_eatom p) i =
       atoms_after d0 dadd efa ntotal n (eatom_thr s) i
         <$> rd (dihed_eatom dihed) i) /\
    length (dihed_vatom p) = length (dihed_vatom dihed) /\
    length (dihed_eatom p) = length (dihed_eatom dihed) /\
    dihed_vflag_either p = vfe /\ dihed_vflag_atom p = vfa /\
    dihed_eflag_atom p = efa).
  destruct (for_range_inv P 0 nthreads (ev_reduce_dihed_thread ntotal s)
              dihed) as (dihed' & Hrun & HP).
  - lia.
  - unfold P. rewrite !thread_sum_0 by done. repeat split; try done.
    + by destruct vfe.
    + intros i. by rewrite atoms_after_0.
    + intros i. by rewrite atoms_after_0.
  - intros n p Hn (Hen & Hvi & Hvat & Heat & Hlv & Hle & Hf1 & Hf2 & Hf3).
    destruct Hslots as (_ & _ & Hs3 & Hs4).
    destruct (has_slots_rd _ _ n Hs3 Hn) as [xb Hxb].
    destruct (has_slots_rd _ _ n Hs4 Hn) as [xw Hxw].
    assert (0 <= n) as Hn0 by lia.
    assert (slot d0 (eng_bond_thr s) n = xb) as Hsb
      by (unfold slot; by rewrite Hxb).
    assert (slot zero6 (virial_thr s) n = xw) as Hsw
      by (unfold slot; by rewrite Hxw).
    unfold ev_reduce_dihed_thread. rewrite Hxb. simpl.
    rewrite Hf1, Hxw, Hf2.
    clearbody vfe vfa efa.
    assert (exists va,
      (if vfe && vfa
       then fold_rows add6 ntotal n (vatom_thr s) (dihed_vatom p)
       else Some (dihed_vatom p)) = Some va /\
      length va = length (dihed_vatom dihed) /\
      forall i, rd va i =
        atoms_after zero6 add6 (vfe && vfa) ntotal (n + 1) (vatom_thr s) i
          <$> rd (dihed_vatom dihed) i) as (va & Hva' & Hlva & Hrva).
    { destruct (vfe && vfa) eqn:Evv.
      - destruct (Hva eq_refl) as [Hcells Hroom].
        destruct (fold_rows_spec zero6 add6 ntotal n (vatom_thr s)
                    (dihed_vatom p)) as (va & -> & Hl & Hr).
        { intros i Hi. by apply Hcells. }
        { unfold has_slots in Hroom. lia. }
        exists va. split; [done|]. split; [lia|].
        intros i. rewrite Hr, Hvat. by apply atoms_after_succ.
      - exists (dihed_vatom p). split; [done|]. split; [done|].
        intros i. rewrite Hvat. unfold atoms_after. done. }
    assert (exists ea,
      (if efa
       then fold_rows dadd ntotal n (eatom_thr s) (dihed_eatom p)
       else Some (dihed_eatom p)) = Some ea /\
      length ea = length (dihed_eatom dihed) /\
      forall i, rd ea i =
        atoms_after d0 dadd efa ntotal (n + 1) (eatom_thr s) i
          <$> rd (dihed_eatom dihed) i) as (ea & Hea' & Hlea & Hrea).
    { destruct efa eqn:Eea.
      - destruct (Hea eq_refl) as [Hcells Hroom].
        destruct (fold_rows_spec d0 dadd ntotal n (eatom_thr s)
                    (dihed_eatom p)) as (ea & -> & Hl & Hr).
        { intros i Hi. by apply Hcells. }
        { unfold has_slots in Hroom. lia. }
        exists ea. split; [done|]. split; [lia|].
        intros i. rewrite Hr, Heat. by apply atoms_after_succ.
      - exists (dihed_eatom p). split; [done|]. split; [done|].
        intros i. rewrite Heat. unfold atoms_after. done. }
    destruct vfe, vfa, efa; simpl in Hva', Hea'; simpl;
      rewrite ?Hva'; simpl; rewrite ?Hf3; rewrite ?Hea';
      try (injection Hva' as <-); try (injection Hea' as <-);
      (eexists; split; [reflexivity|]);
      unfold P; simpl;
      rewrite ?thread_sum_succ, ?Hsb, ?Hsw, ?Hen, ?Hvi by done;
      repeat split; done.
  - exists dihed'. destruct HP as (? & ? & ? & ? & _ & _ & ? & ? & ?).
    repeat split; done.
Qed.

(** the same, for per-atom sources given by their rows *)
Lemma ev_reduce_thr_dihedral_spec (lmp : LAMMPS) (s : ThrOMP D)
    (dihed : Dihedral D) :
  let nthreads := comm_nthreads lmp in
  let ntotal := if force_newton_bond lmp
                then atom_nlocal lmp + atom_nghost lmp
                else atom_nlocal lmp in
  let vfe := dihed_vflag_either dihed in
  let vfa := dihed_vflag_atom dihed in
  let efa := dihed_eflag_atom dihed in
  slots_ready s nthreads ->
  (vfe && vfa = true ->
     atoms_ready (vatom_thr s) (dihed_vatom dihed) nthreads ntotal) ->
  (efa = true ->
     atoms_ready (eatom_thr s) (dihed_eatom dihed) nthreads ntotal) ->
  exists dihed',
    ev_reduce_thr_dihedral lmp s dihed = Some dihed' /\
    energy dihed' =
      thread_sum dadd (slot d0 (eng_bond_thr s)) nthreads (energy dihed) /\
    dihed_virial dihed' =
      (if vfe
       then thread_sum add6 (slot zero6 (virial_thr s)) nthreads
              (dihed_virial dihed)
       else dihed_virial dihed) /\
    (forall i, rd (dihed_vatom dihed') i =
       atoms_after zero6 add6 (vfe && vfa) ntotal nthreads (vatom_thr s) i
         <$> rd (dihed_vatom dihed) i) /\
    (forall i, rd (dihed_eatom dihed') i =
       atoms_after d0 dadd efa ntotal nthreads (eatom_thr s) i
         <$> rd (dihed_eatom dihed) i) /\
    dihed_vflag_either dihed' = vfe /\ dihed_vflag_atom dihed' = vfa /\
    dihed_eflag_atom dihed' = efa.
Proof.
  intros nthreads ntotal vfe vfa efa Hslots Hva Hea.
  apply ev_reduce_thr_dihedral_cells; [done| |].
  - intros Hf. destruct (Hva Hf) as [Hcells Hroom].
    split; [by apply has_cells_upto|done].
  - intros Hf. destruct (Hea Hf) as [Hcells Hroom].
    split; [by apply has_cells_upto|done].
Qed.
End Reduce.

Section ReduceClaim.
Context {D : Type} `{Arith D}.

(** a sum of virials is the sum of each of the six components *)
Lemma foldl_add6 (term : Z -> vec6 D) (l : list Z) (x : vec6 D) :
  foldl (fun acc n => add6 acc (term n)) x l =
  V6 (foldl (fun acc n => dadd acc (c0 (term n))) (c0 x) l)
     (foldl (fun acc n => dadd acc (c1 (term n))) (c1 x) l)
     (foldl (fun acc n => dadd acc (c2 (term n))) (c2 x) l)
     (foldl (fun acc n => dadd acc (c3 (term n))) (c3 x) l)
     (foldl (fun acc n => dadd acc (c4 (term n))) (c4 x) l)
     (foldl (fun acc n => dadd acc (c5 (term n))) (c5 x) l).
Proof.
  revert x. induction l as [|n l IH]; intros x; simpl.
  - by destruct x.
  - by rewrite IH.
Qed.

Lemma thread_sum_add6 (term : Z -> vec6 D) n x :
  thread_sum add6 term n x = thread_sum6 term n x.
Proof. unfold thread_sum6, thread_sum. apply foldl_add6. Qed.

Lemma atoms_after_add6 requested ntotal n (src : list (list (vec6 D))) i x :
  atoms_after zero6 add6 requested ntotal n src i x =
  atoms_after6 requested ntotal n src i x.
Proof.
  unfold atoms_after, atoms_after6.
  destruct (requested && bool_decide (0 <= i < ntotal)); [|done].
  apply thread_sum_add6.
Qed.

(** C8.  [ev_reduce_thr] succeeds when the thread slots, the per-atom
    cells it reads and the target rows it updates exist, and every field of
    the target is then its prior value followed by the contributions of the
    threads [0 .. nthreads-1], added in this order.
    - [Pair]: [eng_vdwl] and [eng_coul] gain every [eng_vdwl_thr[n]] and
      [eng_coul_thr[n]]; each of the six components of [virial] gains that
      component of every [virial_thr[n]] if [vflag_either] is set
      ([thread_sum6]), and then each component of [vatom[i]] gains that
      component of every [vatom_thr[n][i]] for [i] below the extent if
      [vflag_atom] is set ([atoms_after6]); [eatom[i]] gains every
      [eatom_thr[n][i]] for [i] below the extent if [eflag_atom] is set.
      The extent is [nlocal + nghost] if [force->newton] is set, else
      [nlocal].
    - [Dihedral]: the same with [energy] gaining every [eng_bond_thr[n]] and
      the extent chosen by [force->newton_bond].
    Entries at and above the extent, and unrequested categories, keep their
    values. *)
Theorem ev_reduce_thr_additive (lmp : LAMMPS) (s : ThrOMP D)
    (pair : Pair D) (dihed : Dihedral D) :
  let nthreads := comm_nthreads lmp in
  let ntotal_pair :=
    if force_newton lmp then atom_nlocal lmp + atom_nghost lmp
    else atom_nlocal lmp in
  let ntotal_bond :=
    if force_newton_bond lmp then atom_nlocal lmp + atom_nghost lmp
    else atom_nlocal lmp in
  slots_ready s nthreads ->
  ((pair_vflag_either pair && pair_vflag_atom pair = true ->
      atoms_ready (vatom_thr s) (pair_vatom pair) nthreads ntotal_pair) ->
   (pair_eflag_atom pair = true ->
      atoms_ready (eatom_thr s) (pair_eatom pair) nthreads ntotal_pair) ->
   exists pair',
     ev_reduce_thr_pair lmp s pair = Some pair' /\
     eng_vdwl pair' =
       thread_sum dadd (slot d0 (eng_vdwl_thr s)) nthreads (eng_vdwl pair) /\
     eng_coul pair' =
       thread_sum dadd (slot d0 (eng_coul_thr s)) nthreads (eng_coul pair) /\
     pair_virial pair' =
       (if pair_vflag_either pair
        then thread_sum6 (slot (V6 d0 d0 d0 d0 d0 d0) (virial_thr s))
               nthreads (pair_virial pair)
        else pair_virial pair) /\
     (forall i, rd (pair_vatom pair') i =
        atoms_after6 (pair_vflag_either pair && pair_vflag_atom pair)
          ntotal_pair nthreads (vatom_thr s) i <$> rd (pair_vatom pair) i) /\
     (forall i, rd (pair_eatom pair') i =
        atoms_after d0 dadd (pair_eflag_atom pair)
          ntotal_pair nthreads (eatom_thr s) i <$> rd (pair_eatom pair) i))
  /\
  ((dihed_vflag_either dihed && dihed_vflag_atom dihed = true ->
      atoms_ready (vatom_thr s) (dihed_vatom dihed) nthreads ntotal_bond) ->
   (dihed_eflag_atom dihed = true ->
      atoms_ready (eatom_thr s) (dihed_eatom dihed) nthreads ntotal_bond) ->
   exists dihed',
     ev_reduce_thr_dihedral lmp s dihed = Some dihed' /\
     energy dihed' =
       thread_sum dadd (slot d0 (eng_bond_thr s)) nthreads (energy dihed) /\
     dihed_virial dihed' =
       (if dihed_vflag_either dihed
        then thread_sum6 (slot (V6 d0 d0 d0 d0 d0 d0) (virial_thr s))
               nthreads (dihed_virial dihed)
        else dihed_virial dihed) /\
     (forall i, rd (dihed_vatom dihed') i =
        atoms_after6 (dihed_vflag_either dihed && dihed_vflag_atom dihed)
          ntotal_bond nthreads (vatom_thr s) i <$> rd (dihed_vatom dihed) i) /\
     (forall i, rd (dihed_eatom dihed') i =
        atoms_after d0 dadd (dihed_eflag_atom dihed)
          ntotal_bond nthreads (eatom_thr s) i <$> rd (dihed_eatom dihed) i)).
Proof.
  intros nthreads ntotal_pair ntotal_bond Hslots. split.
  - intros Hva Hea.
    destruct (ev_reduce_thr_pair_spec lmp s pair Hslots Hva Hea)
      as (pair' & Hrun & Hvd & Hco & Hvi & Hvat & Heat & _).
    exists pair'. split; [done|]. split; [done|]. split; [done|].
    split; [|split; [|done]].
    + rewrite Hvi. destruct (pair_vflag_either pair); [|done].
      apply thread_sum_add6.
    + intros i. rewrite Hvat. destruct (rd (pair_vatom pair) i); [|done].
      simpl. f_equal. apply atoms_after_add6.
  - intros Hva Hea.
    destruct (ev_reduce_thr_dihedral_spec lmp s dihed Hslots Hva Hea)
      as (dihed' & Hrun & Hen & Hvi & Hvat & Heat & _).
    exists dihed'. split; [done|]. split; [done|].
    split; [|split; [|done]].
    + rewrite Hvi. destruct (dihed_vflag_either dihed); [|done].
      apply thread_sum_add6.
    + intros i. rewrite Hvat. destruct (rd (dihed_vatom dihed) i); [|done].
      simpl. f_equal. apply atoms_after_add6.
Qed.
End ReduceClaim.

Lemma ev_reduce_thr_additive_witness :
  (exists pair',
     ev_reduce_thr_pair lmp_2x4 thr_tallied pair_before = Some pair' /\
     eng_vdwl pair' = (100 + 1 + 2)%Q /\
     eng_coul pair' = (200 + 3 + 4)%Q /\
     pair_virial pair' =
       (V6 (10 + 1 + 6) (20 + 2 + 5) (30 + 3 + 4)
           (40 + 4 + 3) (50 + 5 + 2) (60 + 6 + 1))%Q /\
     rd (pair_vatom pair') 3 =
       Some (V6 (7 + 1 + 1) (7 + 1 + 1) (7 + 1 + 1)
                (7 + 1 + 1) (7 + 1 + 1) (7 + 1 + 1))%Q /\
     rd (pair_eatom pair') 3 = Some (40 + 4 + 8)%Q) /\
  (exists dihed',
     ev_reduce_thr_dihedral lmp_2x4 thr_tallied dihed_all_flags
       = Some dihed' /\
     energy dihed' = (100 + 5 + 6)%Q /\
     dihed_virial dihed' =
       (V6 (10 + 1 + 6) (20 + 2 + 5) (30 + 3 + 4)
           (40 + 4 + 3) (50 + 5 + 2) (60 + 6 + 1))%Q /\
     rd (dihed_vatom dihed') 0 =
       Some (V6 (7 + 1 + 1) (7 + 1 + 1) (7 + 1 + 1)
                (7 + 1 + 1) (7 + 1 + 1) (7 + 1 + 1))%Q /\
     rd (dihed_eatom dihed') 0 = Some (10 + 1 + 5)%Q).
Proof.
  assert (slots_ready thr_tallied (comm_nthreads lmp_2x4)) as Hslots.
  { repeat split; vm_compute; discriminate. }
  assert (forall dst : list Q, length dst = 4%nat ->
    atoms_ready (eatom_thr thr_tallied) dst 2 4) as He.
  { intros dst Hdst. split; [split|].
    - vm_compute. discriminate.
    - repeat constructor; vm_compute; discriminate.
    - unfold has_slots. rewrite Hdst. lia. }
  assert (forall dst : list (vec6 Q), length dst = 4%nat ->
    atoms_ready (vatom_thr thr_tallied) dst 2 4) as Hv.
  { intros dst Hdst. split; [split|].
    - vm_compute. discriminate.
    - repeat constructor; vm_compute; discriminate.
    - unfold has_slots. rewrite Hdst. lia. }
  destruct (ev_reduce_thr_additive lmp_2x4 thr_tallied pair_before
              dihed_all_flags Hslots) as [Hpair Hdihed].
  split.
  - destruct Hpair as (pair' & Hrun & Hvd & Hco & Hvi & Hvat & Heat).
    + intros _. by apply Hv.
    + intros _. by apply He.
    + exists pair'. split; [exact Hrun|]. split; [exact Hvd|].
      split; [exact Hco|]. split; [exact Hvi|].
      split; [exact (Hvat 3)|exact (Heat 3)].
  - destruct Hdihed as (dihed' & Hrun & Hen & Hvi & Hvat & Heat).
    + intros _. by apply Hv.
    + intros _. by apply He.
    + exists dihed'. split; [exact Hrun|]. split; [exact Hen|].
      split; [exact Hvi|]. split; [exact (Hvat 0)|exact (Heat 0)].
Defined.

(** ** ev_setup_thr: zeroing *)

Lemma zeroed_off {A : Type} (z : A) requested (o : option A) :
  zeroed z requested false <$> o = o.
Proof. unfold zeroed. rewrite andb_false_r. by destruct o. Qed.

(** the loop [for (i = 0; i < ntotal; ++i) a[t][i] = z] *)
Lemma zero_cells_spec {A : Type} (z : A) (a : list (list A)) (t ntotal : Z) :
  (forall i, 0 <= i < ntotal -> is_Some (rd2 a t i)) ->
  exists a',
    for_range 0 ntotal (fun i e => upd2 e t i (fun _ => z)) a = Some a' /\
    forall t' i, rd2 a' t' i =
      zeroed z true (bool_decide (t' = t /\ 0 <= i < ntotal)) <$> rd2 a t' i.
Proof.
  intros Hcells.
  destruct (decide (ntotal <= 0)) as [Hle|Hpos].
  { exists a. rewrite for_range_empty by lia. split; [done|].
    intros t' i. rewrite bool_decide_eq_false_2 by lia.
    by rewrite zeroed_off. }
  pose (P := fun (m : Z) (e : list (list A)) =>
    forall t' i, rd2 e t' i =
      zeroed z true (bool_decide (t' = t /\ 0 <= i < m)) <$> rd2 a t' i).
  destruct (for_range_inv P 0 ntotal (fun i e => upd2 e t i (fun _ => z)) a)
    as (a' & Hrun & HP).
  - lia.
  - intros t' i. rewrite bool_decide_eq_false_2 by lia.
    by rewrite zeroed_off.
  - intros m e Hm HPe.
    rewrite upd2_bump2.
    2:{ rewrite HPe. apply fmap_is_Some. by apply Hcells. }
    eexists. split; [done|]. intros t' i.
    rewrite rd2_bump2, HPe. unfold zeroed. simpl.
    destruct (decide (t' = t /\ i = m)) as [[-> ->]|Hne].
    + rewrite bool_decide_eq_false_2, bool_decide_eq_true_2 by lia.
      by destruct (rd2 a t m).
    + rewrite option_fmap_id.
      destruct (rd2 a t' i); simpl; [|done].
      f_equal.
      destruct (decide (t' = t /\ 0 <= i < m)),
               (decide (t' = t /\ 0 <= i < m + 1));
        rewrite ?bool_decide_eq_true_2, ?bool_decide_eq_false_2 by done;
        try done; exfalso; lia.
  - exists a'. done.
Qed.

Lemma zeroed_unrequested {A : Type} (z : A) inside (o : option A) :
  zeroed z false inside <$> o = o.
Proof. unfold zeroed. by destruct o. Qed.

Lemma zeroed_slot_step {A : Type} (z : A) t k (o : option A) :
  0 <= t ->
  (if decide (k = t) then (fun _ => z) else id) <$>
    (zeroed z true (bool_decide (0 <= k < t)) <$> o) =
  zeroed z true (bool_decide (0 <= k < t + 1)) <$> o.
Proof.
  intros Ht. unfold zeroed. simpl. destruct o as [x|]; [simpl|done].
  f_equal. destruct (decide (k = t)) as [->|Hk].
  - by rewrite (bool_decide_eq_true_2 (0 <= t < t + 1)) by lia.
  - destruct (decide (0 <= k < t)).
    + rewrite !bool_decide_eq_true_2 by lia. done.
    + rewrite !bool_decide_eq_false_2 by lia. done.
Qed.

Lemma zeroed_cell_step {A : Type} (z : A) t t' i ntotal (o : option A) :
  0 <= t ->
  zeroed z true (bool_decide (t' = t /\ 0 <= i < ntotal)) <$>
    (zeroed z true (bool_decide (0 <= t' < t /\ 0 <= i < ntotal)) <$> o) =
  zeroed z true (bool_decide (0 <= t' < t + 1 /\ 0 <= i < ntotal)) <$> o.
Proof.
  intros Ht. unfold zeroed. simpl. destruct o as [x|]; [simpl|done].
  f_equal.
  destruct (decide (t' = t /\ 0 <= i < ntotal)) as [[-> Hi]|Hne].
  - rewrite !bool_decide_eq_true_2 by lia. done.
  - rewrite (bool_decide_eq_false_2 (t' = t /\ _)) by done.
    destruct (decide (0 <= t' < t /\ 0 <= i < ntotal)).
    + rewrite !bool_decide_eq_true_2 by lia. done.
    + rewrite !bool_decide_eq_false_2 by lia. done.
Qed.

Section Zero.
Context {D : Type} `{Arith D}.
Implicit Types (s : ThrOMP D).

Lemma ev_setup_zero_spec (lmp : LAMMPS) (eg vg ea va : bool) s :
  let nthreads := comm_nthreads lmp in
  let ntotal := setup_ntotal lmp (thr_style s) in
  slots_ready s nthreads ->
  (ea = true -> forall t i, 0 <= t < nthreads -> 0 <= i < ntotal ->
     is_Some (rd2 (eatom_thr s) t i)) ->
  (va = true -> forall t i, 0 <= t < nthreads -> 0 <= i < ntotal ->
     is_Some (rd2 (vatom_thr s) t i)) ->
  exists s',
    ev_setup_zero lmp eg vg ea va s = Some s' /\
    (forall t, rd (eng_vdwl_thr s') t =
       zeroed d0 eg (bool_decide (0 <= t < nthreads))
         <$> rd (eng_vdwl_thr s) t) /\
    (forall t, rd (eng_coul_thr s') t =
       zeroed d0 eg (bool_decide (0 <= t < nthreads))
         <$> rd (eng_coul_thr s) t) /\
    (forall t, rd (eng_bond_thr s') t =
       zeroed d0 eg (bool_decide (0 <= t < nthreads))
         <$> rd (eng_bond_thr s) t) /\
    (forall t, rd (virial_thr s') t =
       zeroed zero6 vg (bool_decide (0 <= t < nthreads))
         <$> rd (virial_thr s) t) /\
    (forall t i, rd2 (eatom_thr s') t i =
       zeroed d0 ea (bool_decide (0 <= t < nthreads /\ 0 <= i < ntotal))
         <$> rd2 (eatom_thr s) t i) /\
    (forall t i, rd2 (vatom_thr s') t i =
       zeroed zero6 va (bool_decide (0 <= t < nthreads /\ 0 <= i < ntotal))
         <$> rd2 (vatom_thr s) t i) /\
    (ea = false -> eatom_thr s' = eatom_thr s) /\
    (va = false -> vatom_thr s' = vatom_thr s) /\
    thr_style s' = thr_style s /\
    maxeatom_thr s' = maxeatom_thr s /\ maxvatom_thr s' = maxvatom_thr s.
Proof.
  intros nthreads ntotal (Hs1 & Hs2 & Hs3 & Hs4) Hea Hva.
  unfold ev_setup_zero. fold nthreads ntotal. clearbody ntotal.
  destruct (decide (nthreads <= 0)) as [Hle|Hpos].
  { exists s. rewrite for_range_empty by lia.
    split; [done|]. repeat split; try done; intros;
      rewrite bool_decide_eq_false_2 by lia; by rewrite zeroed_off. }
  pose (P := fun (n : Z) (p : ThrOMP D) =>
    (forall t, rd (eng_vdwl_thr p) t =
       zeroed d0 eg (bool_decide (0 <= t < n)) <$> rd (eng_vdwl_thr s) t) /\
    (forall t, rd (eng_coul_thr p) t =
       zeroed d0 eg (bool_decide (0 <= t < n)) <$> rd (eng_coul_thr s) t) /\
    (forall t, rd (eng_bond_thr p) t =
       zeroed d0 eg (bool_decide (0 <= t < n)) <$> rd (eng_bond_thr s) t) /\
    (forall t, rd (virial_thr p) t =
       zeroed zero6 vg (bool_decide (0 <= t < n)) <$> rd (virial_thr s) t) /\
    (forall t i, rd2 (eatom_thr p) t i =
       zeroed d0 ea (bool_decide (0 <= t < n /\ 0 <= i < ntotal))
         <$> rd2 (eatom_thr s) t i) /\
    (forall t i, rd2 (vatom_thr p) t i =
       zeroed zero6 va (bool_decide (0 <= t < n /\ 0 <= i < ntotal))
         <$> rd2 (vatom_thr s) t i) /\
    (ea = false -> eatom_thr p = eatom_thr s) /\
    (va = false -> vatom_thr p = vatom_thr s) /\
    thr_style p = thr_style s /\
    maxeatom_thr p = maxeatom_thr s /\ maxvatom_thr p = maxvatom_thr s).
  destruct (for_range_inv P 0 nthreads
              (ev_setup_zero_thread ntotal eg vg ea va) s)
    as (s' & Hrun & HP).
  - lia.
  - unfold P. repeat split; try done; intros;
      rewrite bool_decide_eq_false_2 by lia; by rewrite zeroed_off.
  - intros n p Hn (Hvd & Hco & Hbo & Hvi & Heat & Hvat & Hfe & Hfv & Hst).
    assert (0 <= n) as Hn0 by lia.
    assert (is_Some (rd (eng_vdwl_thr p) n)) as Ivd
      by (rewrite Hvd; apply fmap_is_Some; by eapply has_slots_rd).
    assert (is_Some (rd (eng_coul_thr p) n)) as Ico
      by (rewrite Hco; apply fmap_is_Some; by eapply has_slots_rd).
    assert (is_Some (rd (eng_bond_thr p) n)) as Ibo
      by (rewrite Hbo; apply fmap_is_Some; by eapply has_slots_rd).
    assert (is_Some (rd (virial_thr p) n)) as Ivi
      by (rewrite Hvi; apply fmap_is_Some; by eapply has_slots_rd).
    assert (exists e,
      (if ea then for_range 0 ntotal (fun i e => upd2 e n i (fun _ => d0))
                    (eatom_thr p)
       else Some (eatom_thr p)) = Some e /\
      (ea = false -> e = eatom_thr s) /\
      forall t i, rd2 e t i =
        zeroed d0 ea (bool_decide (0 <= t < n + 1 /\ 0 <= i < ntotal))
          <$> rd2 (eatom_thr s) t i) as (e & He & Hfe' & Hre).
    { destruct ea.
      - destruct (zero_cells_spec d0 (eatom_thr p) n ntotal)
          as (e & -> & Hr).
        { intros i Hi. rewrite Heat. apply fmap_is_Some. by apply Hea. }
        exists e. split; [done|]. split; [done|].
        intros t i. rewrite Hr, Heat. by apply zeroed_cell_step.
      - exists (eatom_thr p). split; [done|]. split; [auto|].
        intros t i. rewrite Heat. by rewrite !zeroed_unrequested. }
    assert (exists v,
      (if va then for_range 0 ntotal (fun i v => upd2 v n i (fun _ => zero6))
                    (vatom_thr p)
       else Some (vatom_thr p)) = Some v /\
      (va = false -> v = vatom_thr s) /\
      forall t i, rd2 v t i =
        zeroed zero6 va (bool_decide (0 <= t < n + 1 /\ 0 <= i < ntotal))
          <$> rd2 (vatom_thr s) t i) as (v & Hv & Hfv' & Hrv).
    { destruct va.
      - destruct (zero_cells_spec zero6 (vatom_thr p) n ntotal)
          as (v & -> & Hr).
        { intros i Hi. rewrite Hvat. apply fmap_is_Some. by apply Hva. }
        exists v. split; [done|]. split; [done|].
        intros t i. rewrite Hr, Hvat. by apply zeroed_cell_step.
      - exists (vatom_thr p). split; [done|]. split; [auto|].
        intros t i. rewrite Hvat. by rewrite !zeroed_unrequested. }
    unfold ev_setup_zero_thread.
    destruct eg, vg; simpl;
      rewrite ?wr_upd, ?upd_bump by done; simpl;
      rewrite ?wr_upd, ?upd_bump by done; simpl;
      destruct ea, va; simpl in He, Hv |- *;
      rewrite ?He; simpl; rewrite ?Hv; simpl;
      try (injection He as <-); try (injection Hv as <-);
      (eexists; split; [reflexivity|]);
      unfold P; simpl;
      (split; [intros t; rewrite ?rd_bump, Hvd;
               first [by apply zeroed_slot_step
                     |by rewrite !zeroed_unrequested]|]);
      (split; [intros t; rewrite ?rd_bump, Hco;
               first [by apply zeroed_slot_step
                     |by rewrite !zeroed_unrequested]|]);
      (split; [intros t; rewrite ?rd_bump, Hbo;
               first [by apply zeroed_slot_step
                     |by rewrite !zeroed_unrequested]|]);
      (split; [intros t; rewrite ?rd_bump, Hvi;
               first [by apply zeroed_slot_step
                     |by rewrite !zeroed_unrequested]|]);
      (split; [exact Hre|]); (split; [exact Hrv|]);
      (split; [exact Hfe'|]); (split; [exact Hfv'|]); exact Hst.
  - exists s'. split; [exact Hrun|]. exact HP.
Qed.
End Zero.

Section Setup.
Context {D : Type} `{Arith D} `{Memory D}.
Implicit Types (s : ThrOMP D).

(** what the growth step leaves as it was *)
Lemma ev_setup_grow_frame (lmp : LAMMPS) (ea va : bool) s :
  let sg := ev_setup_grow lmp ea va s in
  thr_style sg = thr_style s /\
  eng_vdwl_thr sg = eng_vdwl_thr s /\ eng_coul_thr sg = eng_coul_thr s /\
  eng_bond_thr sg = eng_bond_thr s /\ virial_thr sg = virial_thr s /\
  (ea = false \/ atom_nmax lmp <= maxeatom_thr s ->
     eatom_thr sg = eatom_thr s /\ maxeatom_thr sg = maxeatom_thr s) /\
  (va = false \/ atom_nmax lmp <= maxvatom_thr s ->
     vatom_thr sg = vatom_thr s /\ maxvatom_thr sg = maxvatom_thr s).
Proof.
  intros sg. subst sg. unfold ev_setup_grow.
  destruct ea, va, (Z.ltb_spec (maxeatom_thr s) (atom_nmax lmp)); simpl;
    destruct (Z.ltb_spec (maxvatom_thr s) (atom_nmax lmp)); simpl;
    repeat split; try done;
    match goal with Hor : _ \/ _ |- _ => destruct Hor as [?|?] end;
    try done; lia.
Qed.

(** a grown array has the cells of [natoms <= n2] atoms *)
Lemma grown_has_cells {A : Type} (a : list (list A)) (n1 n2 natoms : Z) :
  length a = Z.to_nat n1 ->
  Forall (fun row => length row = Z.to_nat n2) a ->
  natoms <= n2 ->
  has_cells a n1 natoms.
Proof.
  intros Hlen Hrows Hle. split.
  - unfold has_slots. lia.
  - eapply Forall_impl; [|exact Hrows]. intros row Hrow. simpl in Hrow.
    unfold has_slots. lia.
Qed.

(** [ev_setup_thr] on storage that is large enough once grown: the call
    succeeds, zeroes the requested categories of every thread slot (per-atom
    ones below [ntotal]) and leaves every other entry as it was.  The
    per-atom arrays are compared with what the growth step produced
    ([sg]); an array that was not requested is the one of [s]. *)
Lemma ev_setup_thr_zeroes (lmp : LAMMPS) (eg vg ea va : bool) s :
  let nthreads := comm_nthreads lmp in
  let ntotal := setup_ntotal lmp (thr_style s) in
  let sg := ev_setup_grow lmp ea va s in
  slots_ready s nthreads ->
  (ea = true -> has_cells (eatom_thr sg) nthreads ntotal) ->
  (va = true -> has_cells (vatom_thr sg) nthreads ntotal) ->
  exists s',
    ev_setup_thr lmp eg vg ea va s = Some s' /\
    (forall t, rd (eng_vdwl_thr s') t =
       zeroed d0 eg (bool_decide (0 <= t < nthreads))
         <$> rd (eng_vdwl_thr s) t) /\
    (forall t, rd (eng_coul_thr s') t =
       zeroed d0 eg (bool_decide (0 <= t < nthreads))
         <$> rd (eng_coul_thr s) t) /\
    (forall t, rd (eng_bond_thr s') t =
       zeroed d0 eg (bool_decide (0 <= t < nthreads))
         <$> rd (eng_bond_thr s) t) /\
    (forall t, rd (virial_thr s') t =
       zeroed zero6 vg (bool_decide (0 <= t < nthreads))
         <$> rd (virial_thr s) t) /\
    (forall t i, rd2 (eatom_thr s') t i =
       zeroed d0 ea (bool_decide (0 <= t < nthreads /\ 0 <= i < ntotal))
         <$> rd2 (eatom_thr sg) t i) /\
    (forall t i, rd2 (vatom_thr s') t i =
       zeroed zero6 va (bool_decide (0 <= t < nthreads /\ 0 <= i < ntotal))
         <$> rd2 (vatom_thr sg) t i) /\
    (ea = false -> eatom_thr s' = eatom_thr s) /\
    (va = false -> vatom_thr s' = vatom_thr s) /\
    thr_style s' = thr_style s.
Proof.
  intros nthreads ntotal sg Hslots Hea Hva.
  destruct (ev_setup_grow_frame lmp ea va s)
    as (Hst & Hvd & Hco & Hbo & Hvi & Hfe & Hfv).
  fold sg in Hst, Hvd, Hco, Hbo, Hvi, Hfe, Hfv.
  destruct (ev_setup_zero_spec lmp eg vg ea va sg)
    as (s' & Hrun & Hvd' & Hco' & Hbo' & Hvi' & Heat & Hvat & Hfe' & Hfv'
        & Hst' & _).
  - unfold slots_ready. by rewrite Hvd, Hco, Hbo, Hvi.
  - intros Hflag t i Ht Hi. rewrite Hst in Hi.
    by eapply has_cells_rd2; [apply Hea| |].
  - intros Hflag t i Ht Hi. rewrite Hst in Hi.
    by eapply has_cells_rd2; [apply Hva| |].
  - exists s'. rewrite Hst, Hvd, Hco, Hbo, Hvi in *.
    split; [exact Hrun|]. repeat split; try done.
    + intros Hf. rewrite Hfe' by done. by apply Hfe; left.
    + intros Hf. rewrite Hfv' by done. by apply Hfv; left.
Qed.

(** When does [ev_setup_thr] stay inside the storage?  Whenever the
    extent [ntotal] is within [nmax], the buffers that are not grown are
    already large enough, and - for the per-atom virial - the per-atom
    energy is requested too or the energy mark already covers [ntotal]. *)
Lemma ev_setup_thr_in_bounds (lmp : LAMMPS) (eg vg ea va : bool) s :
  let nthreads := comm_nthreads lmp in
  let ntotal := setup_ntotal lmp (thr_style s) in
  slots_ready s nthreads ->
  ntotal <= atom_nmax lmp ->
  (atom_nmax lmp <= maxeatom_thr s ->
     has_cells (eatom_thr s) nthreads ntotal) ->
  (atom_nmax lmp <= maxvatom_thr s ->
     has_cells (vatom_thr s) nthreads ntotal) ->
  (va = true -> ea = true \/ ntotal <= maxeatom_thr s) ->
  is_Some (ev_setup_thr lmp eg vg ea va s).
Proof.
  intros nthreads ntotal Hslots Hmax Hecap Hvcap Hboth.
  destruct (ev_setup_thr_zeroes lmp eg vg ea va s Hslots)
    as (s' & -> & _); [| |done].
  - intros ->.
    destruct (Z.lt_ge_cases (maxeatom_thr s) (atom_nmax lmp)) as [Hlt|Hge].
    + destruct (ev_setup_grow_eatom lmp va s Hlt) as (_ & Hlen & Hrows).
      by eapply grown_has_cells.
    + destruct (ev_setup_grow_frame lmp true va s)
        as (_ & _ & _ & _ & _ & Hfe & _).
      destruct Hfe as [-> _]; [right; lia|]. by apply Hecap.
  - intros ->.
    destruct (Z.lt_ge_cases (maxvatom_thr s) (atom_nmax lmp)) as [Hlt|Hge].
    + destruct (ev_setup_grow_vatom lmp ea s Hlt) as (_ & (Hlen & Hrows) & Hm).
      eapply grown_has_cells; [done|done|]. rewrite Hm.
      destruct (Hboth eq_refl) as [->|Hle]; simpl.
      * destruct (Z.ltb_spec (maxeatom_thr s) (atom_nmax lmp)); lia.
      * destruct (ea && _); lia.
    + destruct (ev_setup_grow_frame lmp ea true s)
        as (_ & _ & _ & _ & _ & _ & Hfv).
      destruct Hfv as [-> _]; [right; lia|]. by apply Hvcap.
Qed.
End Setup.


(** ** ev_setup_thr: per-atom virial requested without per-atom energy *)

(** C9 at a fresh object when only the per-atom virial is requested: the
    extent to zero is [ntotal = 4], the growth step has left [vatom_thr]
    with no row at all (its extent came from [maxeatom_thr = 0]), so the
    first row to zero does not exist and the zeroing runs outside the
    storage.  When the storage is large enough the zeroing is as the claim
    says ([ev_setup_thr_zeroes]). *)
Theorem ev_setup_thr_virial_only_zeroes_outside :
  let sg := ev_setup_grow lmp_2x4 false true thr_fresh in
  setup_ntotal lmp_2x4 (thr_style sg) = 4 /\
  rd2 (vatom_thr sg) 0 0 = None /\
  ev_setup_zero lmp_2x4 false false false true sg = None /\
  ev_setup_thr lmp_2x4 false false false true thr_fresh = None.
Proof. vm_compute. repeat split. Qed.

(** C2 on a run of two steps.  Step 1 sets up everything for two atoms.
    Before step 2 the system has grown to four atoms, and step 2 requests
    the per-atom virial only: the virial mark becomes 4, [vatom_thr] keeps
    the two rows per thread that the energy mark stands for, and the
    accesses to rows 2 and 3 - the zeroing of [ev_setup_thr], the writes
    of [ev_tally_thr], the reads of [ev_reduce_thr] - are outside the
    storage. *)
Theorem per_atom_virial_rows_not_allocated :
  exists s1 : ThrOMP Q,
    ev_setup_thr lmp_2x2 true true true true (ThrOMP_new lmp_2x2 PAIR)
      = Some s1 /\
    let sg := ev_setup_grow lmp_2x4 false true s1 in
    maxvatom_thr sg = 4 /\
    length <$> vatom_thr sg = [2%nat; 2%nat] /\
    rd2 (vatom_thr sg) 0 2 = None /\
    ev_setup_thr lmp_2x4 false false false true s1 = None /\
    ev_tally_thr 2 3 4 true false false true false false true
      0%Q 0%Q 1%Q 1%Q 1%Q 1%Q 0 sg = None /\
    ev_reduce_thr_pair lmp_2x4 sg pair_virial_only = None.
Proof.
  eexists. split; [vm_compute; reflexivity|]. vm_compute. repeat split.
Qed.

(** ** force_reduce_thr *)

Lemma block_index_inj A b m b' m' :
  0 <= m < A -> 0 <= m' < A -> b * A + m = b' * A + m' -> b = b' /\ m = m'.
Proof.
  intros Hm Hm' Heq. assert (b = b') as -> by nia. lia.
Qed.

(** the chunks of a team of at least two threads end in the range of
    [int] when the rows of the [nthreads] blocks are counted by an [int] *)
Lemma team_chunks_fit (nall nthreads tid : Z) :
  2 <= nthreads <= INT_MAX -> 0 <= nall -> nthreads * nall <= INT_MAX ->
  0 <= tid < nthreads ->
  (tid + 1) * (1 + nall / nthreads) <= INT_MAX.
Proof.
  intros HN HA Hrows Ht.
  destruct (decide (nall < nthreads)) as [Hlt|Hge].
  - rewrite Z.div_small by lia. lia.
  - pose proof (chunks_fit nall nthreads tid HA ltac:(lia) Ht). nia.
Qed.

Section ForceReduce.
Context {D : Type} `{Arith D}.
Implicit Types (F : list (vec3 D)).

Lemma block_sum_1 F nall m n : n <= 1 -> block_sum F nall m n = force_row F m.
Proof.
  intros. unfold block_sum. rewrite seqZ_nil by lia. simpl.
  by destruct (force_row F m).
Qed.

Lemma block_sum_succ F nall m n :
  1 <= n ->
  block_sum F nall m (n + 1) =
  add3 (block_sum F nall m n) (force_row F (n * nall + m)).
Proof.
  intros. unfold block_sum.
  replace (n + 1 - 1) with ((n - 1) + 1) by lia.
  rewrite seqZ_app, !foldl_app by lia.
  rewrite (seqZ_cons _ 1), (seqZ_nil _ (Z.pred 1)) by lia. simpl.
  by replace (1 + (n - 1)) with n by lia.
Qed.

Lemma block_sum_ext F F' nall m n :
  1 <= n ->
  (forall b, 0 <= b < n -> rd F' (b * nall + m) = rd F (b * nall + m)) ->
  block_sum F' nall m n = block_sum F nall m n.
Proof.
  intros Hn. replace n with (1 + Z.of_nat (Z.to_nat (n - 1))) by lia.
  generalize (Z.to_nat (n - 1)) as j. clear Hn n.
  induction j as [|j IH]; intros Hext.
  - rewrite !block_sum_1 by lia. unfold force_row.
    specialize (Hext 0 ltac:(lia)). rewrite Z.mul_0_l, Z.add_0_l in Hext.
    by rewrite Hext.
  - replace (1 + Z.of_nat (S j)) with (1 + Z.of_nat j + 1) by lia.
    rewrite !block_sum_succ by lia. rewrite IH.
    + unfold force_row. by rewrite Hext by lia.
    + intros b Hb. apply Hext. lia.
Qed.

(** the loop over [m] of [force_reduce_thr] for one block *)
Lemma reduce_block_rows F (toffs lo hi : Z) :
  0 <= lo -> hi <= toffs -> toffs + hi <= Z.of_nat (length F) ->
  exists F',
    for_range lo hi (force_reduce_row toffs) F = Some F' /\
    length F' = length F /\
    forall k, rd F' k =
      if decide (lo <= k < hi)
      then Some (add3 (force_row F k) (force_row F (toffs + k)))
      else if decide (lo <= k - toffs < hi) then Some zero3
      else rd F k.
Proof.
  intros Hlo Hhi Hlen.
  destruct (decide (hi <= lo)) as [Hle|Hlt].
  { exists F. rewrite for_range_empty by done. split; [done|]. split; [done|].
    intros k. by rewrite !decide_False by lia. }
  pose (P := fun (m : Z) (F' : list (vec3 D)) =>
    length F' = length F /\
    forall k, rd F' k =
      if decide (lo <= k < m)
      then Some (add3 (force_row F k) (force_row F (toffs + k)))
      else if decide (lo <= k - toffs < m) then Some zero3
      else rd F k).
  destruct (for_range_inv P lo hi (force_reduce_row toffs) F)
    as (F' & Hrun & HP).
  - lia.
  - split; [done|]. intros k. by rewrite !decide_False by lia.
  - intros m F' Hm [HL Hrd].
    assert (is_Some (rd F m)) as [a Ha] by (apply rd_in_bounds; lia).
    assert (is_Some (rd F (toffs + m))) as [b Hb]
      by (apply rd_in_bounds; lia).
    unfold force_reduce_row.
    rewrite !Hrd, !decide_False, Ha, Hb by lia.
    rewrite wr_upd, upd_bump
      by (apply rd_in_bounds; rewrite HL; lia).
    rewrite wr_upd, upd_bump
      by (apply rd_in_bounds; rewrite bump_length, HL; lia).
    eexists. split; [done|]. split.
    + by rewrite !bump_length.
    + intros k. rewrite !rd_bump, Hrd.
      destruct (decide (k = toffs + m)) as [->|Hk1].
      { rewrite decide_False by lia.
        rewrite (decide_False (P:=lo <= toffs + m < m)) by lia.
        rewrite (decide_False (P:=lo <= toffs + m - toffs < m)) by lia.
        rewrite (decide_False (P:=lo <= toffs + m < m + 1)) by lia.
        rewrite (decide_True (P:=lo <= toffs + m - toffs < m + 1)) by lia.
        by rewrite Hb. }
      destruct (decide (k = m)) as [->|Hk2].
      { rewrite (decide_False (P:=lo <= m < m)) by lia.
        rewrite (decide_False (P:=lo <= m - toffs < m)) by lia.
        rewrite (decide_True (P:=lo <= m < m + 1)) by lia.
        rewrite Ha. simpl. unfold force_row. by rewrite Ha, Hb. }
      rewrite !option_fmap_id.
      destruct (decide (lo <= k < m)), (decide (lo <= k < m + 1));
        try lia; try done.
      destruct (decide (lo <= k - toffs < m)),
               (decide (lo <= k - toffs < m + 1)); try lia; done.
  - exists F'. destruct HP as [HL Hrd]. done.
Qed.

(** the two nested loops of [force_reduce_thr] *)
Lemma reduce_rows_spec F (nall nthreads lo hi : Z) :
  1 <= nthreads -> 0 <= nall -> 0 <= lo -> hi <= nall ->
  nthreads * nall <= INT_MAX ->
  nthreads * nall <= Z.of_nat (length F) ->
  exists F',
    for_range 1 nthreads
      (fun n F =>
         let? toffs := int_mul n nall in
         for_range lo hi (force_reduce_row toffs) F) F
      = Some F' /\
    rows_reduced F F' nall nthreads lo hi.
Proof.
  intros HN HA Hlo Hhi Hint Hlen.
  destruct (for_range_inv (fun n F' => rows_reduced F F' nall n lo hi)
              1 nthreads
              (fun n F =>
                 let? toffs := int_mul n nall in
                 for_range lo hi (force_reduce_row toffs) F) F)
    as (F' & Hrun & HP).
  - lia.
  - split; [done|]. split; [|split].
    + intros m Hm. rewrite block_sum_1 by lia. unfold force_row.
      assert (is_Some (rd F m)) as [a ->] by (apply rd_in_bounds; nia).
      done.
    + intros b m Hb. lia.
    + done.
  - intros n F1 Hn (HL & Hsum & Hzero & Hframe).
    unfold int_mul.
    rewrite to_int_in_range by (unfold INT_MIN, INT_MAX in *; nia).
    destruct (reduce_block_rows F1 (n * nall) lo hi) as (F2 & -> & HL2 & Hrd);
      [lia|nia|rewrite HL; nia|].
    exists F2. split; [done|]. split; [congruence|]. split; [|split].
    + intros m Hm. rewrite Hrd, decide_True by done.
      rewrite block_sum_succ by lia. f_equal. f_equal.
      * unfold force_row at 1. by rewrite Hsum.
      * unfold force_row. rewrite Hframe; [by rewrite Z.add_comm|nia|].
        intros b m' Hb Hm' Heq.
        destruct (block_index_inj nall n m b m') as [-> _]; [lia|lia|lia|lia].
    + intros b m Hb Hm. rewrite Hrd.
      rewrite decide_False by nia.
      destruct (decide (b = n)) as [->|Hbn].
      * by rewrite decide_True by lia.
      * rewrite decide_False by nia. apply Hzero; lia.
    + intros k Hk Hother. rewrite Hrd.
      rewrite decide_False by done.
      rewrite decide_False.
      * apply Hframe; [done|]. intros b m Hb Hm. apply Hother; lia.
      * intros Hin. apply (Hother n (k - n * nall)); lia.
  - exists F'. done.
Qed.

(** one thread of the team: its rows are [[tid*idelta, ito)] *)
Lemma force_reduce_thr_rows F (nall nthreads tid : Z) :
  2 <= nthreads -> 0 <= nall -> 0 <= tid ->
  (tid + 1) * (1 + nall / nthreads) <= INT_MAX ->
  nthreads * nall <= INT_MAX ->
  nthreads * nall <= Z.of_nat (length F) ->
  let idelta := 1 + nall / nthreads in
  exists F',
    force_reduce_thr true F nall nthreads tid = Some F' /\
    rows_reduced F F' nall nthreads (tid * idelta)
      (Z.min nall (tid * idelta + idelta)).
Proof.
  intros HN HA Ht Hfit Hint Hlen idelta.
  destruct (quot_chunk nall nthreads HA ltac:(lia)) as (Hq & Hq0 & _ & _).
  unfold force_reduce_thr. simpl.
  destruct (Z.eqb_spec nthreads 1) as [?|_]; [lia|].
  destruct (chunk_range_int nall nthreads tid HA ltac:(lia) Ht Hfit)
    as (-> & -> & -> & ->).
  fold idelta.
  replace (if nall <? tid * idelta + idelta then nall
           else tid * idelta + idelta)
    with (Z.min nall (tid * idelta + idelta))
    by (destruct (Z.ltb_spec nall (tid * idelta + idelta)); lia).
  apply reduce_rows_spec; [lia|lia|nia|lia|lia|lia].
Qed.

(** an overflow in the range of the thread or in the offset of a block *)
Lemma force_reduce_thr_overflow F (nall nthreads tid : Z) :
  2 <= nthreads -> 0 <= nall -> 0 <= tid ->
  INT_MAX < (tid + 1) * (1 + nall / nthreads) \/
  INT_MAX < (nthreads - 1) * nall ->
  force_reduce_thr true F nall nthreads tid = None.
Proof.
  intros HN HA Ht Hover. unfold force_reduce_thr. simpl.
  destruct (Z.eqb_spec nthreads 1) as [?|_]; [lia|].
  destruct Hover as [Hover|Hover].
  - pose proof (chunk_range_overflow nall nthreads tid HA ltac:(lia) Ht Hover)
      as Hnone.
    destruct (int_div nall nthreads) as [q|]; [|done].
    destruct (int_add 1 q) as [d|]; [|done].
    destruct (int_mul tid d) as [a|]; [|done].
    by rewrite Hnone.
  - destruct (int_div nall nthreads) as [q|]; [|done].
    destruct (int_add 1 q) as [d|]; [|done].
    destruct (int_mul tid d) as [a|]; [|done].
    destruct (int_add a d) as [b|]; [|done].
    apply (for_range_None 1 nthreads (nthreads - 1)); [lia|].
    intros F'. unfold int_mul. by rewrite to_int_None by lia.
Qed.

(** the whole team *)
Lemma force_reduce_team_spec F (nall nthreads : Z) :
  2 <= nthreads <= INT_MAX -> 0 <= nall ->
  nthreads * nall <= INT_MAX ->
  nthreads * nall <= Z.of_nat (length F) ->
  exists F',
    force_reduce_team true F nall nthreads = Some F' /\
    rows_reduced F F' nall nthreads 0 nall.
Proof.
  intros HN HA Hint Hlen.
  destruct (quot_chunk nall nthreads HA ltac:(lia)) as (_ & Hq0 & _ & Hcover).
  pose proof (team_chunks_fit nall nthreads) as Hfit.
  set (idelta := 1 + nall / nthreads) in *.
  assert (1 <= idelta) as Hd by lia.
  unfold force_reduce_team.
  destruct (for_range_inv
    (fun t F' => rows_reduced F F' nall nthreads 0 (Z.min nall (t * idelta)))
    0 nthreads
    (fun tid fall => force_reduce_thr true fall nall nthreads tid) F)
    as (F' & Hrun & HP).
  - lia.
  - split; [done|]. split; [|split]; try done; intros; lia.
  - intros t F1 Ht (HL & Hsum & Hzero & Hframe).
    destruct (force_reduce_thr_rows F1 nall nthreads t)
      as (F2 & -> & HL2 & Hsum2 & Hzero2 & Hframe2);
      [lia|lia|lia|by apply Hfit|lia|rewrite HL; lia|].
    fold idelta in Hsum2, Hzero2, Hframe2.
    replace ((t + 1) * idelta) with (t * idelta + idelta) by lia.
    assert (0 <= t * idelta) as Hlo by nia.
    set (lo := t * idelta) in *.
    set (hi := Z.min nall (lo + idelta)) in *.
    assert (forall b m b' m', 0 <= m < nall -> 0 <= m' < nall ->
              b * nall + m = b' * nall + m' -> m = m') as Hinj.
    { intros b m b' m' Hm Hm' Heq.
      by destruct (block_index_inj nall b m b' m' Hm Hm' Heq). }
    exists F2. split; [done|]. split; [congruence|]. split; [|split].
    + intros m Hm. destruct (decide (lo <= m)) as [Hge|Hlt].
      * rewrite Hsum2 by lia. f_equal. apply block_sum_ext; [lia|].
        intros b Hb. apply Hframe; [nia|].
        intros b' m' Hb' Hm' Heq.
        assert (m = m') by (eapply Hinj; [| |exact Heq]; lia). lia.
      * rewrite Hframe2; [apply Hsum; lia|lia|]. intros b m' Hb Hm'. nia.
    + intros b m Hb Hm. destruct (decide (lo <= m)) as [Hge|Hlt].
      * apply Hzero2; lia.
      * rewrite Hframe2; [apply Hzero; lia|nia|].
        intros b' m' Hb' Hm' Heq.
        assert (m = m') by (eapply Hinj; [| |exact Heq]; lia). lia.
    + intros k Hk Hother.
      rewrite Hframe2; [apply Hframe|lia|].
      * lia.
      * intros b m Hb Hm. apply Hother; lia.
      * intros b m Hb Hm. apply Hother; lia.
  - exists F'. split; [done|].
    replace (Z.min nall (nthreads * idelta)) with nall in HP by lia. done.
Qed.

Lemma add3_zero3 (a : vec3 D) :
  (forall x : D, dadd x d0 = x) -> add3 a zero3 = a.
Proof. intros Hlaw. destruct a. unfold add3. simpl. by rewrite !Hlaw. Qed.

Lemma block_sum_zero_blocks F nall m n :
  (forall x : D, dadd x d0 = x) ->
  (forall b, 1 <= b < n -> rd F (b * nall + m) = Some zero3) ->
  block_sum F nall m n = force_row F m.
Proof.
  intros Hlaw Hz.
  destruct (decide (n <= 1)) as [Hn|Hn]; [by apply block_sum_1|].
  revert Hz. replace n with (1 + Z.of_nat (Z.to_nat (n - 1))) by lia.
  generalize (Z.to_nat (n - 1)) as j. clear Hn n.
  induction j as [|j IH]; intros Hz.
  - by apply block_sum_1.
  - replace (1 + Z.of_nat (S j)) with (1 + Z.of_nat j + 1) by lia.
    rewrite block_sum_succ by lia. rewrite IH.
    + unfold force_row at 2. rewrite Hz by lia. simpl. by apply add3_zero3.
    + intros b Hb. apply Hz. lia.
Qed.

(** a reduced array is a fixed point of the reduction *)
Lemma rows_reduced_again F0 F1 F2 (nall nthreads : Z) :
  (forall x : D, dadd x d0 = x) ->
  2 <= nthreads -> 0 <= nall ->
  rows_reduced F0 F1 nall nthreads 0 nall ->
  rows_reduced F1 F2 nall nthreads 0 nall ->
  F2 = F1.
Proof.
  intros Hlaw HN HA (HL1 & Hsum1 & Hzero1 & _) (HL2 & Hsum2 & Hzero2 & Hframe2).
  apply rd_ext. intros k.
  destruct (decide (0 <= k < nthreads * nall)) as [Hin|Hout].
  - assert (0 < nall) as Hpos by nia.
    pose proof (Z.div_mod k nall ltac:(lia)) as Hdm.
    pose proof (Z.mod_pos_bound k nall Hpos) as Hmod.
    pose proof (Z.div_pos k nall ltac:(lia) Hpos) as Hb0.
    set (b := k / nall) in *. set (m := k mod nall) in *.
    assert (b < nthreads) by nia.
    replace k with (b * nall + m) by lia.
    destruct (decide (b = 0)) as [->|Hb].
    + rewrite Z.mul_0_l, Z.add_0_l. rewrite Hsum2 by lia.
      rewrite block_sum_zero_blocks; [|done|].
      * unfold force_row. by rewrite Hsum1 by lia.
      * intros b' Hb'. apply Hzero1; lia.
    + rewrite Hzero2, Hzero1 by lia. done.
  - apply Hframe2; [nia|]. intros b m Hb Hm. nia.
Qed.

(** a second reduction adds the zeroed blocks to block 0 *)
Lemma block_sum_zero_iter F nall m n :
  1 <= n ->
  (forall b, 1 <= b < n -> rd F (b * nall + m) = Some zero3) ->
  block_sum F nall m n = zeros_added (Z.to_nat (n - 1)) (force_row F m).
Proof.
  intros Hn Hz.
  assert (forall j : nat, 1 + Z.of_nat j <= n ->
    block_sum F nall m (1 + Z.of_nat j) = zeros_added j (force_row F m))
    as Hj.
  { induction j as [|j IH]; intros Hle.
    - rewrite block_sum_1 by lia. unfold zeros_added. simpl.
      by destruct (force_row F m).
    - replace (1 + Z.of_nat (S j)) with (1 + Z.of_nat j + 1) by lia.
      rewrite block_sum_succ, IH by lia.
      unfold force_row at 2. by rewrite Hz by lia. }
  specialize (Hj (Z.to_nat (n - 1)) ltac:(lia)).
  by replace (1 + Z.of_nat (Z.to_nat (n - 1))) with n in Hj by lia.
Qed.

(** C5.  With one thread [force_reduce_thr] returns the array as it is.
    Take [nthreads >= 2] blocks of [nall] rows each, the number
    [nthreads * nall] of rows being in the range of [int], as the code
    indexes them.  After every thread [0 .. nthreads-1] has run it: every
    row [m] of block 0 is the sum of the rows [m] of all blocks as they were
    before (block 0 first, then blocks 1, 2, ... in turn; x, y and z are
    summed each on its own, [block_sum]), and every row of the blocks
    [1 .. nthreads-1] is [(0.0, 0.0, 0.0)].  Running the team once more adds
    only these zeros to block 0, [nthreads - 1] times [0.0] to each
    component, and leaves the other blocks zero; if [x + 0.0 = x] the result
    is the same array: block 0 is not changed and nothing is added twice. *)
Theorem force_reduce_thr_sums_once (openmp : bool) F (nall nthreads : Z) :
  (forall tid, force_reduce_thr openmp F nall 1 tid = Some F) /\
  (2 <= nthreads <= INT_MAX -> 0 <= nall ->
   nthreads * nall <= INT_MAX ->
   nthreads * nall <= Z.of_nat (length F) ->
   exists F1,
     force_reduce_team true F nall nthreads = Some F1 /\
     (forall m, 0 <= m < nall ->
        rd F1 m = Some (block_sum F nall m nthreads)) /\
     (forall n m, 1 <= n < nthreads -> 0 <= m < nall ->
        rd F1 (n * nall + m) = Some (V3 d0 d0 d0)) /\
     exists F2,
       force_reduce_team true F1 nall nthreads = Some F2 /\
       (forall m, 0 <= m < nall ->
          rd F2 m =
          Some (zeros_added (Z.to_nat (nthreads - 1)) (force_row F1 m))) /\
       (forall n m, 1 <= n < nthreads -> 0 <= m < nall ->
          rd F2 (n * nall + m) = Some (V3 d0 d0 d0)) /\
       ((forall x : D, dadd x d0 = x) -> F2 = F1)).
Proof.
  split.
  - intros tid. unfold force_reduce_thr. by destruct openmp.
  - intros HN HA Hint Hlen.
    destruct (force_reduce_team_spec F nall nthreads HN HA Hint Hlen)
      as (F1 & Hrun1 & Hred1).
    exists F1. split; [done|].
    pose proof Hred1 as (HL1 & Hsum1 & Hzero1 & Hframe1).
    split; [done|]. split; [done|].
    destruct (force_reduce_team_spec F1 nall nthreads HN HA Hint)
      as (F2 & Hrun2 & Hred2); [by rewrite HL1|].
    exists F2. split; [done|].
    pose proof Hred2 as (HL2 & Hsum2 & Hzero2 & Hframe2).
    split; [|split; [done|]].
    + intros m Hm. rewrite Hsum2 by done. f_equal.
      apply block_sum_zero_iter; [lia|].
      intros b Hb. by apply Hzero1.
    + intros Hlaw. apply (rows_reduced_again F F1 F2 nall nthreads); try done.
      lia.
Qed.
End ForceReduce.

Lemma Qplus_0_r_eq (x : Q) : Qplus x 0 = x.
Proof.
  destruct x as [n d]. unfold Qplus. simpl.
  by rewrite Z.mul_1_r, Z.add_0_r, Pos.mul_1_r.
Qed.

Lemma force_reduce_thr_sums_once_witness :
  exists F1,
    force_reduce_team true fall_2x3 3 2 = Some F1 /\
    rd F1 0 = Some (V3 (1 + 10) (2 + 20) (3 + 30))%Q /\
    rd F1 1 = Some (V3 (4 + 40) (5 + 50) (6 + 60))%Q /\
    rd F1 2 = Some (V3 (7 + 70) (8 + 80) (9 + 90))%Q /\
    rd F1 (1 * 3 + 1) = Some (V3 0 0 0)%Q /\
    force_reduce_team true F1 3 2 = Some F1.
Proof.
  destruct (force_reduce_thr_sums_once true fall_2x3 3 2) as [_ Hteam].
  destruct Hteam as (F1 & Hrun & Hsum & Hzero & F2 & Hrun2 & _ & _ & Hsame).
  - by vm_compute.
  - lia.
  - by vm_compute.
  - by vm_compute.
  - exists F1. split; [exact Hrun|]. split; [|split; [|split; [|split]]].
    + exact (Hsum 0 ltac:(lia)).
    + exact (Hsum 1 ltac:(lia)).
    + exact (Hsum 2 ltac:(lia)).
    + exact (Hzero 1 1 ltac:(lia) ltac:(lia)).
    + rewrite Hrun2. f_equal. apply Hsame. exact Qplus_0_r_eq.
Defined.

(** ** A step from setup to reduction *)

(** Two threads, four local atoms; the pair (0, 1) with [evdwl = 2],
    [ecoul = 0] is tallied on thread 0 with the symmetry on and the global
    energy requested: the reduced [eng_vdwl] is 2. *)
Example one_pair_two_threads :
  let pair0 : Pair Q :=
    {| eng_vdwl := 0%Q; eng_coul := 0%Q; pair_virial := zero6;
       pair_vflag_either := false; pair_vflag_atom := false;
       pair_eflag_atom := false; pair_eatom := []; pair_vatom := [] |} in
  eng_vdwl <$>
    (match ev_setup_thr lmp_2x4 true false false false thr_fresh with
     | Some s =>
         match ev_tally_thr 0 1 4 true true true false false false false
                 2%Q 0%Q 0%Q 0%Q 0%Q 0%Q 0 s with
         | Some s' => ev_reduce_thr_pair lmp_2x4 s' pair0
         | None => None
         end
     | None => None
     end) = Some 2%Q.
Proof. vm_compute. reflexivity. Qed.

(** Without the symmetry, [i = 0] local and [j = 1] a ghost: the global
    energy and [eatom[0]] gain half of [evdwl + ecoul], [eatom[1]] nothing
    (the rationals are read in lowest terms). *)
Example local_ghost_pair :
  match ev_tally_thr 0 1 1 false true true false false true false
          2%Q 4%Q 0%Q 0%Q 0%Q 0%Q 0 thr_ready with
  | Some s' =>
      Qred <$> rd (eng_vdwl_thr s') 0 = Some 1%Q /\
      Qred <$> rd (eng_coul_thr s') 0 = Some 2%Q /\
      Qred <$> rd2 (eatom_thr s') 0 0 = Some 3%Q /\
      Qred <$> rd2 (eatom_thr s') 0 1 = Some 0%Q
  | None => False
  end.
Proof. vm_compute. repeat split. Qed.

(** ** ev_setup_thr on storage that covers its marks *)

Lemma has_slots_reads {A : Type} (a : list A) n :
  has_slots a n <-> forall i, 0 <= i < n -> is_Some (rd a i).
Proof.
  split.
  - intros Hn i Hi. by eapply has_slots_rd.
  - intros Hrd. unfold has_slots.
    destruct (decide (n <= 0)) as [|Hpos]; [lia|].
    specialize (Hrd (n - 1) ltac:(lia)). apply rd_is_Some in Hrd. lia.
Qed.

Lemma has_slots_fmap {A : Type} (a a' : list A) (g : Z -> A -> A) n :
  (forall i, rd a' i = g i <$> rd a i) -> has_slots a n -> has_slots a' n.
Proof.
  intros Hrd Hn. apply has_slots_reads. intros i Hi.
  rewrite Hrd. apply fmap_is_Some. by eapply has_slots_rd.
Qed.

Lemma cells_upto_fmap {A : Type} (a a' : list (list A))
    (g : Z -> Z -> A -> A) n m :
  (forall t i, rd2 a' t i = g t i <$> rd2 a t i) ->
  cells_upto a n m -> cells_upto a' n m.
Proof.
  intros Hrd Hc t i Ht Hi. rewrite Hrd. apply fmap_is_Some. by apply Hc.
Qed.

Lemma foldM_preserves {S : Type} (Q : S -> Prop) body (l : list Z) (s s' : S) :
  (forall i s s', body i s = Some s' -> Q s -> Q s') ->
  foldM body l s = Some s' -> Q s -> Q s'.
Proof.
  intros Hbody. revert s. induction l as [|i l IH]; intros s Hrun HQ; simpl in *.
  - by injection Hrun as <-.
  - destruct (body i s) as [s1|] eqn:Hs1; [|done]. eauto.
Qed.

Lemma foldM_skip {S : Type} body (l : list Z) (s : S) :
  (forall i s, body i s = Some s) -> foldM body l s = Some s.
Proof.
  intros Hbody. induction l as [|i l IH]; simpl; [done|]. by rewrite Hbody.
Qed.

Lemma ThrOMP_eq {D : Type} (s s' : ThrOMP D) :
  thr_style s' = thr_style s ->
  eng_vdwl_thr s' = eng_vdwl_thr s -> eng_coul_thr s' = eng_coul_thr s ->
  eng_bond_thr s' = eng_bond_thr s -> virial_thr s' = virial_thr s ->
  maxeatom_thr s' = maxeatom_thr s -> maxvatom_thr s' = maxvatom_thr s ->
  eatom_thr s' = eatom_thr s -> vatom_thr s' = vatom_thr s ->
  s' = s.
Proof. destruct s, s'. simpl. by intros -> -> -> -> -> -> -> -> ->. Qed.

Section SetupSteps.
Context {D : Type} `{Arith D} `{Memory D}.
Implicit Types (s : ThrOMP D).

(** the growth step moves a requested mark up to [nmax], and never down *)
Lemma ev_setup_grow_marks (lmp : LAMMPS) (ea va : bool) s :
  let sg := ev_setup_grow lmp ea va s in
  maxeatom_thr sg =
    (if ea then Z.max (maxeatom_thr s) (atom_nmax lmp) else maxeatom_thr s) /\
  maxvatom_thr sg =
    (if va then Z.max (maxvatom_thr s) (atom_nmax lmp) else maxvatom_thr s).
Proof.
  intros sg. subst sg. unfold ev_setup_grow.
  destruct ea, va, (Z.ltb_spec (maxeatom_thr s) (atom_nmax lmp)); simpl;
    destruct (Z.ltb_spec (maxvatom_thr s) (atom_nmax lmp)); simpl;
    split; lia.
Qed.

(** The growth step keeps the storage in step with the marks provided the
    per-atom virial buffer is not grown against an energy mark that lags
    behind: the per-atom energy is requested too, or its mark has reached
    [nmax] already. *)
Lemma ev_setup_grow_covers (lmp : LAMMPS) (ea va : bool) s :
  let sg := ev_setup_grow lmp ea va s in
  storage_covers_marks s (comm_nthreads lmp) ->
  (va = true -> ea = true \/ atom_nmax lmp <= maxeatom_thr s) ->
  storage_covers_marks sg (comm_nthreads lmp).
Proof.
  intros sg (Hslots & Hec & Hvc) Hboth.
  destruct (ev_setup_grow_frame lmp ea va s)
    as (Hst & Hvd & Hco & Hbo & Hvi & Hfe & Hfv).
  fold sg in Hst, Hvd, Hco, Hbo, Hvi, Hfe, Hfv.
  split; [|split].
  - unfold slots_ready. by rewrite Hvd, Hco, Hbo, Hvi.
  - destruct ea.
    + destruct (Z.lt_ge_cases (maxeatom_thr s) (atom_nmax lmp)) as [Hlt|Hge].
      * destruct (ev_setup_grow_eatom lmp va s Hlt) as (Hm & Hlen & Hrows).
        fold sg in Hm, Hlen, Hrows. rewrite Hm.
        apply has_cells_upto. by eapply grown_has_cells.
      * destruct Hfe as [-> ->]; [right; lia|done].
    + destruct Hfe as [-> ->]; [by left|done].
  - destruct va.
    + destruct (Z.lt_ge_cases (maxvatom_thr s) (atom_nmax lmp)) as [Hlt|Hge].
      * destruct (ev_setup_grow_vatom lmp ea s Hlt)
          as (Hm & (Hlen & Hrows) & Hme).
        fold sg in Hm, Hlen, Hrows, Hme. rewrite Hm.
        apply has_cells_upto. eapply grown_has_cells; [done|done|].
        rewrite Hme. destruct (Hboth eq_refl) as [->|Hle]; simpl.
        -- destruct (Z.ltb_spec (maxeatom_thr s) (atom_nmax lmp)); lia.
        -- destruct (ea && _); lia.
      * destruct Hfv as [-> ->]; [right; lia|done].
    + destruct Hfv as [-> ->]; [by left|done].
Qed.

(** one call of [ev_setup_thr] on storage that covers its marks: what it
    returns *)
Lemma ev_setup_thr_step (lmp : LAMMPS) (eg vg ea va : bool) s :
  let nthreads := comm_nthreads lmp in
  let ntotal := setup_ntotal lmp (thr_style s) in
  storage_covers_marks s nthreads ->
  ntotal <= atom_nmax lmp ->
  (va = true -> ea = true \/ atom_nmax lmp <= maxeatom_thr s) ->
  exists s',
    ev_setup_thr lmp eg vg ea va s = Some s' /\
    storage_covers_marks s' nthreads /\
    thr_style s' = thr_style s /\
    maxeatom_thr s' =
      (if ea then Z.max (maxeatom_thr s) (atom_nmax lmp)
       else maxeatom_thr s) /\
    maxvatom_thr s' =
      (if va then Z.max (maxvatom_thr s) (atom_nmax lmp)
       else maxvatom_thr s) /\
    (forall t, rd (eng_vdwl_thr s') t =
       zeroed d0 eg (bool_decide (0 <= t < nthreads))
         <$> rd (eng_vdwl_thr s) t) /\
    (forall t, rd (eng_coul_thr s') t =
       zeroed d0 eg (bool_decide (0 <= t < nthreads))
         <$> rd (eng_coul_thr s) t) /\
    (forall t, rd (eng_bond_thr s') t =
       zeroed d0 eg (bool_decide (0 <= t < nthreads))
         <$> rd (eng_bond_thr s) t) /\
    (forall t, rd (virial_thr s') t =
       zeroed zero6 vg (bool_decide (0 <= t < nthreads))
         <$> rd (virial_thr s) t) /\
    (ea = true -> forall t i, 0 <= t < nthreads -> 0 <= i < ntotal ->
       rd2 (eatom_thr s') t i = Some d0) /\
    (va = true -> forall t i, 0 <= t < nthreads -> 0 <= i < ntotal ->
       rd2 (vatom_thr s') t i = Some zero6) /\
    (ea = false -> eatom_thr s' = eatom_thr s) /\
    (va = false -> vatom_thr s' = vatom_thr s).
Proof.
  intros nthreads ntotal Hcov Hmax Hboth.
  pose proof (ev_setup_grow_covers lmp ea va s Hcov Hboth) as Hcovg.
  destruct (ev_setup_grow_marks lmp ea va s) as [Hme Hmv].
  destruct (ev_setup_grow_frame lmp ea va s)
    as (Hst & Hvd & Hco & Hbo & Hvi & Hfe & Hfv).
  set (sg := ev_setup_grow lmp ea va s) in *.
  destruct Hcovg as (Hslots & Hec & Hvc).
  destruct (ev_setup_zero_spec lmp eg vg ea va sg)
    as (s' & Hrun & Hvd' & Hco' & Hbo' & Hvi' & Heat & Hvat & Hfe' & Hfv'
        & Hst' & Hme' & Hmv').
  - done.
  - intros -> t i Ht Hi. apply Hec; [done|].
    rewrite Hst in Hi. rewrite Hme. unfold ntotal in Hmax. lia.
  - intros -> t i Ht Hi. apply Hvc; [done|].
    rewrite Hst in Hi. rewrite Hmv. unfold ntotal in Hmax. lia.
  - rewrite Hst in *. fold nthreads ntotal in Hvd', Hco', Hbo', Hvi', Heat, Hvat.
    exists s'. split; [exact Hrun|].
    destruct Hslots as (Hs1 & Hs2 & Hs3 & Hs4).
    split; [split; [|split]|].
    + repeat split.
      * eapply has_slots_fmap; [|exact Hs1]. intros t. apply Hvd'.
      * eapply has_slots_fmap; [|exact Hs2]. intros t. apply Hco'.
      * eapply has_slots_fmap; [|exact Hs3]. intros t. apply Hbo'.
      * eapply has_slots_fmap; [|exact Hs4]. intros t. apply Hvi'.
    + rewrite Hme'. eapply cells_upto_fmap; [|exact Hec].
      intros t i. apply Heat.
    + rewrite Hmv'. eapply cells_upto_fmap; [|exact Hvc].
      intros t i. apply Hvat.
    + rewrite Hme', Hmv', Hvd, Hco, Hbo, Hvi in *.
      repeat split; try done.
      * intros -> t i Ht Hi. rewrite Heat.
        destruct (Hec t i Ht) as [x ->]; [rewrite Hme; lia|].
        unfold zeroed. simpl. by rewrite bool_decide_eq_true_2.
      * intros -> t i Ht Hi. rewrite Hvat.
        destruct (Hvc t i Ht) as [x ->]; [rewrite Hmv; lia|].
        unfold zeroed. simpl. by rewrite bool_decide_eq_true_2.
      * intros ->. rewrite Hfe' by done. by apply Hfe; left.
      * intros ->. rewrite Hfv' by done. by apply Hfv; left.
Qed.

(** one pass of the zeroing loop, and the whole loop, whatever the storage *)
Lemma ev_setup_zero_thread_frame ntotal eg vg ea va t s0 s s' :
  ev_setup_zero_thread ntotal eg vg ea va t s = Some s' ->
  unrequested_kept eg vg ea va s0 s -> unrequested_kept eg vg ea va s0 s'.
Proof.
  unfold ev_setup_zero_thread, unrequested_kept.
  intros Hrun (Hst & Hme & Hmv & Heg & Hvg & Hea & Hva).
  destruct eg, vg, ea, va; repeat case_match; simplify_eq/=;
    repeat split; try done;
    first [by apply Heg | by apply Hvg | by apply Hea | by apply Hva].
Qed.

Lemma ev_setup_zero_frame lmp eg vg ea va s s' :
  ev_setup_zero lmp eg vg ea va s = Some s' ->
  unrequested_kept eg vg ea va s s'.
Proof.
  unfold ev_setup_zero, for_range. intros Hrun.
  eapply (foldM_preserves (unrequested_kept eg vg ea va s)); [|exact Hrun|].
  - intros i s1 s2 Hb HQ. by eapply ev_setup_zero_thread_frame.
  - unfold unrequested_kept. repeat split; done.
Qed.

(** X1.  [ev_setup_thr] on an object whose storage covers its marks, for
    atoms that fit into [nmax], with the per-atom virial requested only
    together with the per-atom energy (or with an energy mark that has
    reached [nmax]): the call succeeds, and afterwards every requested
    accumulator of every thread reads zero - the three energies, the
    virial, and the per-atom energy and virial of each of the [ntotal]
    atoms. *)
Theorem ev_setup_thr_zeroes_requested (lmp : LAMMPS) (eg vg ea va : bool) s :
  let nthreads := comm_nthreads lmp in
  let ntotal := setup_ntotal lmp (thr_style s) in
  storage_covers_marks s nthreads ->
  ntotal <= atom_nmax lmp ->
  (va = true -> ea = true \/ atom_nmax lmp <= maxeatom_thr s) ->
  exists s',
    ev_setup_thr lmp eg vg ea va s = Some s' /\
    forall t, 0 <= t < nthreads ->
      (eg = true ->
         rd (eng_vdwl_thr s') t = Some d0 /\
         rd (eng_coul_thr s') t = Some d0 /\
         rd (eng_bond_thr s') t = Some d0) /\
      (vg = true -> rd (virial_thr s') t = Some zero6) /\
      forall i, 0 <= i < ntotal ->
        (ea = true -> rd2 (eatom_thr s') t i = Some d0) /\
        (va = true -> rd2 (vatom_thr s') t i = Some zero6).
Proof.
  intros nthreads ntotal Hcov Hmax Hboth.
  destruct (ev_setup_thr_step lmp eg vg ea va s Hcov Hmax Hboth)
    as (s' & Hrun & _ & _ & _ & _ & Hvd & Hco & Hbo & Hvi & Hea & Hva & _).
  fold nthreads ntotal in Hvd, Hco, Hbo, Hvi, Hea, Hva.
  exists s'. split; [exact Hrun|]. intros t Ht.
  destruct Hcov as ((Hs1 & Hs2 & Hs3 & Hs4) & _).
  destruct (has_slots_rd _ _ t Hs1 Ht) as [x1 Hx1].
  destruct (has_slots_rd _ _ t Hs2 Ht) as [x2 Hx2].
  destruct (has_slots_rd _ _ t Hs3 Ht) as [x3 Hx3].
  destruct (has_slots_rd _ _ t Hs4 Ht) as [x4 Hx4].
  split; [|split].
  - intros ->. rewrite Hvd, Hco, Hbo, Hx1, Hx2, Hx3. unfold zeroed. simpl.
    by rewrite bool_decide_eq_true_2.
  - intros ->. rewrite Hvi, Hx4. unfold zeroed. simpl.
    by rewrite bool_decide_eq_true_2.
  - intros i Hi. split; intros Hf; [by apply Hea|by apply Hva].
Qed.

(** X2.  A freshly constructed object survives any run of setup calls that
    keep the number of threads, pass atoms that fit into [nmax], and ask
    for the per-atom virial only together with the per-atom energy: every
    call returns, and the storage covers the marks afterwards.  The atom
    counts and [nmax] may change from call to call. *)
Theorem ev_setup_thr_calls_succeed (lmp : LAMMPS) (st : style)
    (cs : list setup_call) :
  Forall (setup_call_ok (comm_nthreads lmp) st) cs ->
  exists s' : ThrOMP D,
    run_calls ev_setup_call cs (ThrOMP_new lmp st) = Some s' /\
    storage_covers_marks s' (comm_nthreads lmp) /\
    thr_style s' = st.
Proof.
  intros Hcs.
  assert (storage_covers_marks (ThrOMP_new lmp st : ThrOMP D)
            (comm_nthreads lmp)) as Hnew.
  { unfold storage_covers_marks, slots_ready, has_slots, ThrOMP_new. simpl.
    rewrite !create_1d_extent, create_2d6_extent.
    repeat split; try lia; intros t i Ht Hi; lia. }
  assert (thr_style (ThrOMP_new lmp st : ThrOMP D) = st) as Hst by done.
  revert Hnew Hst. generalize (ThrOMP_new lmp st : ThrOMP D).
  induction Hcs as [|c cs (Hn & Hmax & Hboth) Hcs IH]; intros s Hcov Hst.
  - by exists s.
  - simpl. unfold ev_setup_call at 1.
    destruct (ev_setup_thr_step (sc_lmp c) (sc_eflag_global c)
                (sc_vflag_global c) (sc_eflag_atom c) (sc_vflag_atom c) s)
      as (s1 & -> & Hcov1 & Hst1 & _).
    + by rewrite Hn.
    + by rewrite Hst.
    + intros Hva. left. by apply Hboth.
    + apply IH; [by rewrite <- Hn|congruence].
Qed.

(** X3.  What [ev_setup_thr] never touches, whatever the storage is: with
    no flag set it returns the object as it is, also an object without any
    storage; and a call that returns leaves the style, the arrays of every
    category that was not requested, and the mark and buffer of a per-atom
    category that was not requested, exactly as they were. *)
Theorem ev_setup_thr_keeps_unrequested (lmp : LAMMPS) (eg vg ea va : bool) s :
  ev_setup_thr lmp false false false false s = Some s /\
  forall s', ev_setup_thr lmp eg vg ea va s = Some s' ->
    thr_style s' = thr_style s /\
    (eg = false -> eng_vdwl_thr s' = eng_vdwl_thr s /\
                   eng_coul_thr s' = eng_coul_thr s /\
                   eng_bond_thr s' = eng_bond_thr s) /\
    (vg = false -> virial_thr s' = virial_thr s) /\
    (ea = false -> eatom_thr s' = eatom_thr s /\
                   maxeatom_thr s' = maxeatom_thr s) /\
    (va = false -> vatom_thr s' = vatom_thr s /\
                   maxvatom_thr s' = maxvatom_thr s).
Proof.
  split.
  { unfold ev_setup_thr, ev_setup_zero, for_range. simpl.
    by apply foldM_skip. }
  unfold ev_setup_thr. intros s' Hrun.
  apply ev_setup_zero_frame in Hrun
    as (Hst & Hme & Hmv & Heg & Hvg & Hea & Hva).
  destruct (ev_setup_grow_frame lmp ea va s)
    as (Hst' & Hvd' & Hco' & Hbo' & Hvi' & Hfe & Hfv).
  rewrite Hst', Hvd', Hco', Hbo', Hvi' in *.
  split; [done|]. split; [done|]. split; [done|]. split.
  - intros ->. destruct Hfe as [He1 He2]; [by left|].
    rewrite Hme, Hea by done. done.
  - intros ->. destruct Hfv as [Hv1 Hv2]; [by left|].
    rewrite Hmv, Hva by done. done.
Qed.

(** X4.  The footprint [memory_usage_thr] reports never shrinks across a
    call of [ev_setup_thr]: a requested per-atom mark becomes the larger
    of its old value and [nmax], the other one stays, and nothing is ever
    given back.  For a natural number of threads and natural marks: if the
    products [nthreads * 10], [nthreads * maxeatom_thr] and
    [nthreads * maxvatom_thr * 6] after the call are in the range of
    [int], both reports are defined and the earlier one is not larger; if
    one of them is not, the report after the call is undefined. *)
Theorem memory_usage_thr_never_shrinks (lmp : LAMMPS) (eg vg ea va : bool)
    s s' :
  0 <= comm_nthreads lmp -> 0 <= maxeatom_thr s -> 0 <= maxvatom_thr s ->
  ev_setup_thr lmp eg vg ea va s = Some s' ->
  maxeatom_thr s' =
    (if ea then Z.max (maxeatom_thr s) (atom_nmax lmp) else maxeatom_thr s) /\
  maxvatom_thr s' =
    (if va then Z.max (maxvatom_thr s) (atom_nmax lmp) else maxvatom_thr s) /\
  (comm_nthreads lmp * 10 <= INT_MAX ->
   comm_nthreads lmp * maxeatom_thr s' <= INT_MAX ->
   comm_nthreads lmp * maxvatom_thr s' * 6 <= INT_MAX ->
   exists bytes bytes',
     memory_usage_thr lmp s = Some bytes /\
     memory_usage_thr lmp s' = Some bytes' /\
     bytes <= bytes') /\
  (INT_MAX < comm_nthreads lmp * 10 \/
   INT_MAX < comm_nthreads lmp * maxeatom_thr s' \/
   INT_MAX < comm_nthreads lmp * maxvatom_thr s' * 6 ->
   memory_usage_thr lmp s' = None).
Proof.
  unfold ev_setup_thr. intros Hn He Hv Hrun.
  apply ev_setup_zero_frame in Hrun as (_ & Hme & Hmv & _).
  destruct (ev_setup_grow_marks lmp ea va s) as [Hge Hgv].
  rewrite Hge in Hme. rewrite Hgv in Hmv.
  split; [done|split; [done|]].
  assert (maxeatom_thr s <= maxeatom_thr s') as Hle
    by (rewrite Hme; destruct ea; lia).
  assert (maxvatom_thr s <= maxvatom_thr s') as Hlv
    by (rewrite Hmv; destruct va; lia).
  split.
  - intros H10 Hne Hnv. eexists _, _.
    split; [apply memory_usage_thr_in_range; try done; nia|].
    split; [apply memory_usage_thr_in_range; try done; lia|].
    unfold sizeof_double. nia.
  - intros Hover. apply memory_usage_thr_overflow. lia.
Qed.
End SetupSteps.

Lemma thr_fresh_covers : storage_covers_marks thr_fresh 2.
Proof.
  split; [repeat split; unfold has_slots; simpl; lia|].
  split; intros t i Ht Hi; simpl in Hi; lia.
Qed.

Lemma thr_ready_covers : storage_covers_marks thr_ready 2.
Proof.
  split; [repeat split; unfold has_slots; simpl; lia|].
  split; apply has_cells_upto; (split; [unfold has_slots; simpl; lia|]);
    repeat constructor; unfold has_slots; simpl; lia.
Qed.

Lemma thr_tallied_covers : storage_covers_marks thr_tallied 2.
Proof.
  split; [repeat split; unfold has_slots; simpl; lia|].
  split; apply has_cells_upto; (split; [unfold has_slots; simpl; lia|]);
    repeat constructor; unfold has_slots; simpl; lia.
Qed.

Lemma ev_setup_thr_zeroes_requested_witness :
  exists s' : ThrOMP Q,
    ev_setup_thr lmp_2x4 true true true true thr_fresh = Some s' /\
    forall t, 0 <= t < 2 ->
      (true = true ->
         rd (eng_vdwl_thr s') t = Some d0 /\
         rd (eng_coul_thr s') t = Some d0 /\
         rd (eng_bond_thr s') t = Some d0) /\
      (true = true -> rd (virial_thr s') t = Some zero6) /\
      forall i, 0 <= i < 4 ->
        (true = true -> rd2 (eatom_thr s') t i = Some d0) /\
        (true = true -> rd2 (vatom_thr s') t i = Some zero6).
Proof.
  apply (ev_setup_thr_zeroes_requested lmp_2x4 true true true true thr_fresh).
  - apply thr_fresh_covers.
  - unfold setup_ntotal; simpl; lia.
  - intros _. by left.
Defined.

Lemma ev_setup_thr_calls_succeed_witness :
  exists s' : ThrOMP Q,
    run_calls ev_setup_call
      [SetupCall lmp_2x2 true true true true;
       SetupCall lmp_2x4 true false true true;
       SetupCall lmp_2x2_room4 false false false false]
      (ThrOMP_new lmp_2x2 PAIR) = Some s' /\
    storage_covers_marks s' 2 /\ thr_style s' = PAIR.
Proof.
  apply (ev_setup_thr_calls_succeed lmp_2x2 PAIR).
  repeat constructor; simpl; try done; unfold setup_ntotal; simpl; lia.
Defined.

Lemma ev_setup_thr_keeps_unrequested_witness :
  ev_setup_thr lmp_2x4 false true false false thr_tallied
    = Some (set_virial_thr thr_tallied [zero6; zero6]) /\
  eng_vdwl_thr (set_virial_thr thr_tallied [zero6; zero6])
    = eng_vdwl_thr thr_tallied /\
  eatom_thr (set_virial_thr thr_tallied [zero6; zero6])
    = eatom_thr thr_tallied.
Proof.
  assert (ev_setup_thr lmp_2x4 false true false false thr_tallied
          = Some (set_virial_thr thr_tallied [zero6; zero6])) as Hrun
    by (vm_compute; reflexivity).
  split; [exact Hrun|].
  destruct (ev_setup_thr_keeps_unrequested lmp_2x4 false true false false
              thr_tallied) as [_ Hkept].
  destruct (Hkept _ Hrun) as (_ & Heg & _ & Hea & _).
  split; [by apply Heg|]. by apply Hea.
Defined.

Lemma memory_usage_thr_never_shrinks_witness :
  maxeatom_thr thr_ready = Z.max (maxeatom_thr thr_fresh) 4 /\
  maxvatom_thr thr_ready = Z.max (maxvatom_thr thr_fresh) 4 /\
  memory_usage_thr lmp_2x4 thr_fresh = Some 160 /\
  memory_usage_thr lmp_2x4 thr_ready = Some 608 /\
  160 <= 608.
Proof.
  destruct (memory_usage_thr_never_shrinks lmp_2x4 true true true true
              thr_fresh thr_ready)
    as (Hme & Hmv & Hdef & _);
    [by vm_compute|by vm_compute|by vm_compute|
     apply ev_setup_thr_fresh_all_flags|].
  destruct Hdef as (bytes & bytes' & Hb & Hb' & Hle);
    [by vm_compute|by vm_compute|by vm_compute|].
  assert (bytes = 160) as -> by (vm_compute in Hb; congruence).
  assert (bytes' = 608) as -> by (vm_compute in Hb'; congruence).
  split; [exact Hme|]. split; [exact Hmv|].
  split; [exact Hb|]. split; [exact Hb'|exact Hle].
Defined.

(** ** ev_tally_thr: the slots of one thread *)

Section BumpAlgebra.
Context {A : Type}.
Implicit Types (a : list A) (i k : Z) (g : A -> A).

Lemma bump_bump a i g1 g2 :
  bump (bump a i g1) i g2 = bump a i (fun x => g2 (g1 x)).
Proof.
  apply rd_ext. intros k. rewrite !rd_bump.
  destruct (decide (k = i)); by destruct (rd a k).
Qed.

Lemma bump_id a i : bump a i (fun x => x) = a.
Proof.
  apply rd_ext. intros k. rewrite rd_bump.
  destruct (decide (k = i)); by destruct (rd a k).
Qed.

Lemma bump_comm a i1 i2 g1 g2 :
  i1 <> i2 -> bump (bump a i1 g1) i2 g2 = bump (bump a i2 g2) i1 g1.
Proof.
  intros Hne. apply rd_ext. intros k. rewrite !rd_bump.
  destruct (decide (k = i1)), (decide (k = i2)); try congruence;
    by destruct (rd a k).
Qed.

Lemma rd_bump_other a i g k : k <> i -> rd (bump a i g) k = rd a k.
Proof.
  intros Hne. rewrite rd_bump, decide_False by done. apply option_fmap_id.
Qed.
End BumpAlgebra.

Lemma row_gain_length {V : Type} (h : V -> V) req newton nlocal i j row :
  length (row_gain h req newton nlocal i j row) = length row.
Proof.
  unfold row_gain.
  destruct req, (newton || (i <? nlocal)), (newton || (j <? nlocal));
    by rewrite ?bump_length.
Qed.

Lemma rd_row_gain {V : Type} (h : V -> V) req newton nlocal i j row k :
  rd (row_gain h req newton nlocal i j row) k =
  atom_gain h req newton nlocal i j k <$> rd row k.
Proof.
  unfold row_gain, atom_gain, credits.
  destruct req; [|by rewrite option_fmap_id].
  destruct (newton || (i <? nlocal)), (newton || (j <? nlocal)); simpl;
    rewrite ?rd_bump;
    destruct (Z.eqb_spec k i), (Z.eqb_spec k j);
    repeat (match goal with
            | |- context [decide ?P] => destruct (decide P)
            end; try lia);
    destruct (rd row k); simpl; done.
Qed.

Lemma rd2_bump_rows {V : Type} (a : list (list V)) tid (R : list V -> list V)
    t k :
  rd2 (bump a tid R) t k =
  if decide (t = tid) then let? row := rd a t in rd (R row) k
  else rd2 a t k.
Proof.
  unfold rd2. rewrite rd_bump.
  destruct (decide (t = tid)) as [->|]; by destruct (rd a _).
Qed.

Section TallyRows.
Context {D : Type} `{Arith D}.
Implicit Types (s : ThrOMP D) (c : tally D).

Ltac run_upd :=
  repeat first
    [ rewrite upd_bump by (rewrite ?rd_bump_is_Some; assumption)
    | rewrite upd2_bump2 by (rewrite ?rd2_bump2_is_Some; auto) ].

Ltac same_rows :=
  unfold bump2; rewrite ?bump_bump; try done;
  try (symmetry; apply bump_id).

(** The two blocks of [ev_tally_thr] once more, now with the arrays they
    leave behind: each is the old array with the slot, or the per-atom row,
    of thread [tid] changed. *)
Lemma tally_energy_rows i j nlocal newton_pair ee eg ea evdwl ecoul tid s :
  is_Some (rd (eng_vdwl_thr s) tid) ->
  is_Some (rd (eng_coul_thr s) tid) ->
  (ee && ea && (newton_pair || (i <? nlocal)) = true ->
     is_Some (rd2 (eatom_thr s) tid i)) ->
  (ee && ea && (newton_pair || (j <? nlocal)) = true ->
     is_Some (rd2 (eatom_thr s) tid j)) ->
  exists s',
    tally_energy i j nlocal newton_pair ee eg ea evdwl ecoul tid s = Some s' /\
    eng_vdwl_thr s' =
      bump (eng_vdwl_thr s) tid
        (global_gain (fun x => dadd x evdwl)
           (fun x => dadd x (dmul dhalf evdwl))
           (ee && eg) newton_pair nlocal i j) /\
    eng_coul_thr s' =
      bump (eng_coul_thr s) tid
        (global_gain (fun x => dadd x ecoul)
           (fun x => dadd x (dmul dhalf ecoul))
           (ee && eg) newton_pair nlocal i j) /\
    eatom_thr s' =
      bump (eatom_thr s) tid
        (row_gain (fun x => dadd x (dmul dhalf (dadd evdwl ecoul)))
           (ee && ea) newton_pair nlocal i j) /\
    same_virial s s' /\ same_rest s s'.
Proof.
  intros Hv Hc Hi Hj.
  unfold tally_energy, global_gain, row_gain, local_ends,
    same_virial, same_rest.
  destruct ee; simpl in *.
  2:{ exists s. repeat split; try done; symmetry; apply bump_id. }
  destruct eg, newton_pair, (Z.ltb_spec i nlocal), (Z.ltb_spec j nlocal), ea;
    simpl in *; run_upd; simpl; run_upd; simpl; run_upd.
  all: eexists; split; [reflexivity|]; simpl.
  all: repeat split; same_rows.
Qed.

Lemma tally_virial_rows i j nlocal newton_pair ve vg va
    fpair delx dely delz tid s :
  is_Some (rd (virial_thr s) tid) ->
  (ve && va && (newton_pair || (i <? nlocal)) = true ->
     is_Some (rd2 (vatom_thr s) tid i)) ->
  (ve && va && (newton_pair || (j <? nlocal)) = true ->
     is_Some (rd2 (vatom_thr s) tid j)) ->
  let v := pair_v fpair delx dely delz in
  exists s',
    tally_virial i j nlocal newton_pair ve vg va fpair delx dely delz tid s
      = Some s' /\
    virial_thr s' =
      bump (virial_thr s) tid
        (global_gain (fun x => add6 x v) (fun x => add6_half x v)
           (ve && vg) newton_pair nlocal i j) /\
    vatom_thr s' =
      bump (vatom_thr s) tid
        (row_gain (fun x => add6_half x v) (ve && va) newton_pair nlocal i j)
    /\
    same_energy s s' /\ same_rest s s'.
Proof.
  intros Hv Hi Hj v.
  unfold tally_virial, global_gain, row_gain, local_ends,
    same_energy, same_rest.
  fold v. clearbody v.
  destruct ve; simpl in *.
  2:{ exists s. repeat split; try done; symmetry; apply bump_id. }
  destruct vg, newton_pair, (Z.ltb_spec i nlocal), (Z.ltb_spec j nlocal), va;
    simpl in *; run_upd; simpl; run_upd; simpl; run_upd.
  all: eexists; split; [reflexivity|]; simpl.
  all: repeat split; same_rows.
Qed.

(** a tally in bounds returns [tallied] *)
Lemma ev_tally_call_tallied nthreads c s :
  storage_covers_marks s nthreads ->
  tally_in_bounds nthreads s c ->
  ev_tally_call c s = Some (tallied c s).
Proof.
  intros ((Hs1 & Hs2 & _ & Hs4) & Hec & Hvc) (Ht & Hbe & Hbv).
  destruct (tally_energy_rows (t_i c) (t_j c) (t_nlocal c) (t_newton_pair c)
              (t_eflag_either c) (t_eflag_global c) (t_eflag_atom c)
              (t_evdwl c) (t_ecoul c) (t_tid c) s)
    as (s1 & Hrun1 & Hvd & Hco & Hea & (Hvi1 & Hva1)
        & (Hbo1 & Hst1 & Hme1 & Hmv1)).
  { by eapply has_slots_rd. }
  { by eapply has_slots_rd. }
  { intros Hf. apply andb_true_iff in Hf as [Hf _].
    apply Hec; [done|]. by apply Hbe. }
  { intros Hf. apply andb_true_iff in Hf as [Hf _].
    apply Hec; [done|]. by apply Hbe. }
  destruct (tally_virial_rows (t_i c) (t_j c) (t_nlocal c) (t_newton_pair c)
              (t_vflag_either c) (t_vflag_global c) (t_vflag_atom c)
              (t_fpair c) (t_delx c) (t_dely c) (t_delz c) (t_tid c) s1)
    as (s2 & Hrun2 & Hvi & Hva & (Hvd2 & Hco2 & Hea2)
        & (Hbo2 & Hst2 & Hme2 & Hmv2)).
  { rewrite Hvi1. by eapply has_slots_rd. }
  { intros Hf. apply andb_true_iff in Hf as [Hf _]. rewrite Hva1.
    apply Hvc; [done|]. by apply Hbv. }
  { intros Hf. apply andb_true_iff in Hf as [Hf _]. rewrite Hva1.
    apply Hvc; [done|]. by apply Hbv. }
  unfold ev_tally_call, ev_tally_thr. rewrite Hrun1, Hrun2. f_equal.
  rewrite Hvi1, Hva1 in *.
  apply ThrOMP_eq; simpl;
    unfold tally_vdwl_gain, tally_coul_gain, tally_virial_gain,
      tally_eatom_gain, tally_vatom_gain, tally_v; congruence.
Qed.

Lemma tallied_covers nthreads c s :
  storage_covers_marks s nthreads ->
  storage_covers_marks (tallied c s) nthreads.
Proof.
  intros ((Hs1 & Hs2 & Hs3 & Hs4) & Hec & Hvc).
  unfold storage_covers_marks, slots_ready, has_slots, tallied. simpl.
  rewrite !bump_length. repeat split; try done.
  - intros t i Ht Hi. rewrite rd2_bump_rows.
    destruct (Hec t i Ht Hi) as [x Hx]. apply rd2_Some in Hx as (row & Hr & Hx).
    destruct (decide (t = t_tid c)) as [->|]; [|by apply Hec].
    rewrite Hr. apply rd_is_Some. unfold tally_eatom_gain.
    rewrite row_gain_length. apply rd_is_Some. eauto.
  - intros t i Ht Hi. rewrite rd2_bump_rows.
    destruct (Hvc t i Ht Hi) as [x Hx]. apply rd2_Some in Hx as (row & Hr & Hx).
    destruct (decide (t = t_tid c)) as [->|]; [|by apply Hvc].
    rewrite Hr. apply rd_is_Some. unfold tally_vatom_gain.
    rewrite row_gain_length. apply rd_is_Some. eauto.
Qed.

(** tallies of two threads can be swapped *)
Lemma tallied_comm c1 c2 s :
  t_tid c1 <> t_tid c2 ->
  tallied c2 (tallied c1 s) = tallied c1 (tallied c2 s).
Proof.
  intros Hne. apply ThrOMP_eq; simpl; try done; by apply bump_comm.
Qed.

Lemma run_tallies_tallied nthreads (cs : list (tally D)) s :
  storage_covers_marks s nthreads ->
  Forall (tally_in_bounds nthreads s) cs ->
  run_calls ev_tally_call cs s = Some (foldl (fun s c => tallied c s) s cs) /\
  storage_covers_marks (foldl (fun s c => tallied c s) s cs) nthreads.
Proof.
  intros Hcov Hcs. revert s Hcov Hcs.
  induction cs as [|c cs IH]; intros s Hcov Hcs; simpl; [done|].
  apply Forall_cons_1 in Hcs as [Hc Hcs].
  rewrite (ev_tally_call_tallied nthreads) by done.
  apply IH; [by apply tallied_covers|]. exact Hcs.
Qed.

Lemma foldl_tallied_marks (cs : list (tally D)) s :
  let s' := foldl (fun s c => tallied c s) s cs in
  thr_style s' = thr_style s /\ eng_bond_thr s' = eng_bond_thr s /\
  maxeatom_thr s' = maxeatom_thr s /\ maxvatom_thr s' = maxvatom_thr s.
Proof.
  revert s. induction cs as [|c cs IH]; intros s; simpl; [done|].
  destruct (IH (tallied c s)) as (? & ? & ? & ?). done.
Qed.

Lemma foldl_tallied_front (pre : list (tally D)) c s :
  Forall (fun c' => t_tid c' <> t_tid c) pre ->
  foldl (fun s c => tallied c s) s (pre ++ [c]) =
  foldl (fun s c => tallied c s) (tallied c s) pre.
Proof.
  revert s. induction pre as [|c' pre IH]; intros s Hpre; simpl; [done|].
  apply Forall_cons_1 in Hpre as [Hc' Hpre].
  rewrite IH by done. by rewrite tallied_comm.
Qed.

Lemma filter_first {A : Type} (P : A -> Prop) `{!forall x, Decision (P x)}
    (l : list A) x r :
  filter P l = x :: r ->
  exists pre post, l = pre ++ x :: post /\ Forall (fun y => ~ P y) pre /\
                   P x /\ filter P post = r.
Proof.
  induction l as [|y l IH]; [done|]. rewrite filter_cons.
  destruct (decide (P y)) as [Hy|Hy].
  - intros [= -> <-]. exists [], l. by repeat split.
  - intros Hf. destruct (IH Hf) as (pre & post & -> & Hpre & Hx & Hr).
    exists (y :: pre), post. repeat split; try done. by constructor.
Qed.

Lemma filter_none {A : Type} (P : A -> Prop) `{!forall x, Decision (P x)}
    (l : list A) :
  Forall (fun y => ~ P y) l -> filter P l = [].
Proof.
  induction 1 as [|y l Hy Hl IH]; [done|].
  by rewrite filter_cons, decide_False.
Qed.

(** two interleavings of the same threads leave the same accumulators *)
Lemma foldl_tallied_interleaving (cs cs' : list (tally D)) s :
  same_thread_order cs cs' ->
  foldl (fun s c => tallied c s) s cs = foldl (fun s c => tallied c s) s cs'.
Proof.
  revert cs' s. induction cs as [|c cs IH]; intros cs' s Hsame.
  - destruct cs' as [|c' cs']; [done|].
    specialize (Hsame (t_tid c')). rewrite filter_nil, filter_cons in Hsame.
    by rewrite decide_True in Hsame.
  - pose proof (Hsame (t_tid c)) as Hc.
    rewrite filter_cons, decide_True in Hc by done. symmetry in Hc.
    apply filter_first in Hc as (pre & post & -> & Hpre & _ & Hpost).
    replace (pre ++ c :: post) with ((pre ++ [c]) ++ post)
      by (by rewrite <- app_assoc).
    rewrite foldl_app, foldl_tallied_front.
    2:{ eapply Forall_impl; [|exact Hpre]. intros c' Hc'. simpl in Hc'. done. }
    rewrite <- foldl_app. simpl. apply IH. intros tid.
    specialize (Hsame tid). rewrite list.filter_app, !filter_cons in Hsame.
    rewrite list.filter_app.
    destruct (decide (t_tid c = tid)) as [<-|Hne]; [|done].
    rewrite (filter_none _ pre) in * by done. simpl in *. congruence.
Qed.

(** X5.  A tally stays on its thread.  On storage that covers its marks, a
    call of [ev_tally_thr] by one of the [nthreads] threads for two atoms
    below the marks succeeds, whatever the flags and values are; the
    storage still covers the marks; every slot and every per-atom row of
    every other thread is as it was; and the bonded energies, the style and
    the marks are never touched. *)
Theorem ev_tally_thr_stays_on_its_thread (nthreads : Z) c s :
  storage_covers_marks s nthreads ->
  tally_in_bounds nthreads s c ->
  exists s',
    ev_tally_call c s = Some s' /\
    storage_covers_marks s' nthreads /\
    (forall t, t <> t_tid c ->
       rd (eng_vdwl_thr s') t = rd (eng_vdwl_thr s) t /\
       rd (eng_coul_thr s') t = rd (eng_coul_thr s) t /\
       rd (virial_thr s') t = rd (virial_thr s) t /\
       rd (eatom_thr s') t = rd (eatom_thr s) t /\
       rd (vatom_thr s') t = rd (vatom_thr s) t) /\
    eng_bond_thr s' = eng_bond_thr s /\
    thr_style s' = thr_style s /\
    maxeatom_thr s' = maxeatom_thr s /\ maxvatom_thr s' = maxvatom_thr s.
Proof.
  intros Hcov Hin. exists (tallied c s).
  split; [by eapply ev_tally_call_tallied|].
  split; [by apply tallied_covers|].
  split; [|done].
  intros t Ht. simpl. by rewrite !rd_bump_other.
Qed.

(** X6.  The accumulators do not depend on how the tallies of the threads
    interleave.  Two sequences of calls in bounds in which every thread
    makes the same calls in the same order both succeed and leave the same
    object, in any arithmetic: nothing is assumed of [+]. *)
Theorem ev_tally_thr_any_interleaving (nthreads : Z)
    (cs cs' : list (tally D)) s :
  storage_covers_marks s nthreads ->
  Forall (tally_in_bounds nthreads s) cs ->
  same_thread_order cs cs' ->
  exists s',
    run_calls ev_tally_call cs s = Some s' /\
    run_calls ev_tally_call cs' s = Some s'.
Proof.
  intros Hcov Hcs Hsame.
  assert (Forall (tally_in_bounds nthreads s) cs') as Hcs'.
  { apply list.Forall_forall. intros c Hc.
    assert (elem_of c (filter (fun c' => t_tid c' = t_tid c) cs')) as Hf
      by (by apply list_elem_of_filter).
    rewrite <- Hsame in Hf. apply list_elem_of_filter in Hf as [_ Hf].
    rewrite list.Forall_forall in Hcs. by apply Hcs. }
  destruct (run_tallies_tallied nthreads cs s Hcov Hcs) as [-> _].
  destruct (run_tallies_tallied nthreads cs' s Hcov Hcs') as [-> _].
  eexists. split; [done|]. f_equal. symmetry.
  by apply foldl_tallied_interleaving.
Qed.
End TallyRows.

Lemma ev_tally_thr_stays_on_its_thread_witness :
  exists s',
    ev_tally_call tally_thread0 thr_ready = Some s' /\
    rd (eng_vdwl_thr s') 1 = rd (eng_vdwl_thr thr_ready) 1 /\
    rd (eatom_thr s') 1 = rd (eatom_thr thr_ready) 1.
Proof.
  destruct (ev_tally_thr_stays_on_its_thread 2 tally_thread0 thr_ready)
    as (s' & Hrun & _ & Hoff & _).
  - apply thr_ready_covers.
  - repeat split; simpl; lia.
  - exists s'. split; [exact Hrun|].
    destruct (Hoff 1) as (Hv & _ & _ & He & _); [simpl; lia|]. done.
Defined.

Lemma ev_tally_thr_any_interleaving_witness :
  exists s',
    run_calls ev_tally_call
      [tally_thread0; tally_thread1; tally_thread0_again] thr_ready
      = Some s' /\
    run_calls ev_tally_call
      [tally_thread1; tally_thread0; tally_thread0_again] thr_ready
      = Some s'.
Proof.
  apply (ev_tally_thr_any_interleaving 2).
  - apply thr_ready_covers.
  - repeat constructor; simpl; try lia; intros [=].
  - intros tid. rewrite !filter_cons, !filter_nil. simpl.
    destruct (decide (0 = tid)), (decide (1 = tid)); try lia; done.
Defined.

(** ** From the tallies of the threads to the reduced sums *)

Section ThreadSums.
Context {A : Type} (add : A -> A -> A).

Lemma thread_sum_nat (P : Z -> Prop) :
  (forall n, n <= 0 -> P n) ->
  (forall n, 0 <= n -> P n -> P (n + 1)) ->
  forall n, P n.
Proof.
  intros H0 HS n. destruct (decide (n <= 0)) as [|Hpos]; [by apply H0|].
  replace n with (Z.of_nat (Z.to_nat n)) by lia.
  induction (Z.to_nat n) as [|k IH]; [apply H0; lia|].
  replace (Z.of_nat (S k)) with (Z.of_nat k + 1) by lia.
  apply HS; [lia|done].
Qed.

Lemma thread_sum_ext term term' n x :
  (forall m, 0 <= m < n -> term' m = term m) ->
  thread_sum add term' n x = thread_sum add term n x.
Proof.
  revert n. apply (thread_sum_nat (fun n => _ -> _ = _)).
  - intros n Hn _. by rewrite !thread_sum_0.
  - intros n Hn IH Hext. rewrite !thread_sum_succ by done.
    rewrite IH, Hext by (try (intros; apply Hext); lia). done.
Qed.

(** a gain in the term of one thread is a gain in the sum *)
Lemma thread_sum_gain (g : A -> A) term term' tid n x :
  slides add g ->
  0 <= tid < n ->
  term' tid = g (term tid) ->
  (forall m, m <> tid -> term' m = term m) ->
  thread_sum add term' n x = g (thread_sum add term n x).
Proof.
  intros [Hl Hr] Htid Hat Hoff. revert n Htid.
  apply (thread_sum_nat (fun n => 0 <= tid < n -> _ = _)); [lia|].
  intros n Hn IH Htid. rewrite !thread_sum_succ by done.
  destruct (decide (tid = n)) as [->|Hne].
  - rewrite Hat, Hr. f_equal. apply thread_sum_ext.
    intros m Hm. apply Hoff. lia.
  - rewrite IH, Hoff, Hl by lia. done.
Qed.

Lemma thread_sum_zeros (z : A) term n x :
  (forall y, add y z = y) ->
  (forall m, 0 <= m < n -> term m = z) ->
  thread_sum add term n x = x.
Proof.
  intros Hz. revert n. apply (thread_sum_nat (fun n => _ -> _ = _)).
  - intros n Hn _. by rewrite thread_sum_0.
  - intros n Hn IH Hall. rewrite thread_sum_succ by done.
    rewrite IH, Hall, Hz by (try (intros; apply Hall); lia). done.
Qed.

Lemma slides_id : slides add (fun x => x).
Proof. by split. Qed.

Lemma slides_iter g k : slides add g -> slides add (Nat.iter k g).
Proof.
  intros [Hl Hr]. induction k as [|k [IHl IHr]]; [by split|].
  split; intros x y; simpl.
  - by rewrite IHl, Hl.
  - by rewrite IHr, Hr.
Qed.

Lemma slides_add e :
  (forall x y z, add (add x y) z = add x (add y z)) ->
  (forall x y, add x y = add y x) ->
  slides add (fun x => add x e).
Proof.
  intros Hassoc Hcomm. split; intros x y.
  - by rewrite !Hassoc, (Hcomm y e).
  - by rewrite Hassoc.
Qed.

Lemma slides_global_gain plus plus_half req newton nlocal i j :
  slides add plus -> slides add plus_half ->
  slides add (global_gain plus plus_half req newton nlocal i j).
Proof.
  intros Hp Hh. unfold global_gain. destruct req; [|apply slides_id].
  destruct newton; [done|]. by apply slides_iter.
Qed.

Lemma slides_atom_gain plus_half req newton nlocal i j k :
  slides add plus_half ->
  slides add (atom_gain plus_half req newton nlocal i j k).
Proof.
  intros Hh. unfold atom_gain. destruct req; [|apply slides_id].
  by apply slides_iter.
Qed.
End ThreadSums.

Lemma atoms_after_zeros {A : Type} (z : A) (add : A -> A -> A) requested
    ntotal nthreads (src : list (list A)) i (o : option A) :
  (forall y, add y z = y) ->
  (requested = true -> forall t k, 0 <= t < nthreads -> 0 <= k < ntotal ->
     cell z src t k = z) ->
  atoms_after z add requested ntotal nthreads src i <$> o = o.
Proof.
  intros Hz Hzero. unfold atoms_after. destruct requested; simpl.
  - case_bool_decide as Hi; [|by destruct o].
    destruct o as [x|]; [|done]. simpl. f_equal.
    apply (thread_sum_zeros add z); [done|]. intros t Ht. by apply Hzero.
  - by destruct o.
Qed.

Lemma slot_bump {A : Type} (dflt : A) (a : list A) tid (g : A -> A) :
  is_Some (rd a tid) ->
  slot dflt (bump a tid g) tid = g (slot dflt a tid) /\
  forall t, t <> tid -> slot dflt (bump a tid g) t = slot dflt a t.
Proof.
  intros [x Hx]. unfold slot. split.
  - by rewrite rd_bump, decide_True, Hx.
  - intros t Ht. by rewrite rd_bump_other.
Qed.

Lemma cell_bump_rows {A : Type} (dflt : A) (a : list (list A)) tid
    (R : list A -> list A) (g : A -> A) k :
  (forall row, rd (R row) k = g <$> rd row k) ->
  is_Some (rd2 a tid k) ->
  cell dflt (bump a tid R) tid k = g (cell dflt a tid k) /\
  forall t, t <> tid -> cell dflt (bump a tid R) t k = cell dflt a t k.
Proof.
  intros HR [x Hx]. unfold cell. split.
  - rewrite rd2_bump_rows, decide_True by done.
    apply rd2_Some in Hx as (row & Hrow & Hx).
    unfold rd2. by rewrite Hrow, HR, Hx.
  - intros t Ht. by rewrite rd2_bump_rows, decide_False.
Qed.

Lemma Dihedral_eq {D : Type} (d d' : Dihedral D) :
  energy d' = energy d -> dihed_virial d' = dihed_virial d ->
  dihed_vflag_either d' = dihed_vflag_either d ->
  dihed_vflag_atom d' = dihed_vflag_atom d ->
  dihed_eflag_atom d' = dihed_eflag_atom d ->
  dihed_eatom d' = dihed_eatom d -> dihed_vatom d' = dihed_vatom d ->
  d' = d.
Proof. destruct d, d'. simpl. by intros -> -> -> -> -> -> ->. Qed.

Section TalliedSums.
Context {D : Type} `{Arith D}.
Implicit Types (s : ThrOMP D) (c : tally D).

Lemma add6_assoc (x y z : vec6 D) :
  (forall x y z : D, dadd (dadd x y) z = dadd x (dadd y z)) ->
  add6 (add6 x y) z = add6 x (add6 y z).
Proof. intros Ha. unfold add6. simpl. by rewrite !Ha. Qed.

Lemma add6_comm (x y : vec6 D) :
  (forall x y : D, dadd x y = dadd y x) -> add6 x y = add6 y x.
Proof.
  intros Hc. unfold add6.
  by rewrite (Hc (c0 x)), (Hc (c1 x)), (Hc (c2 x)), (Hc (c3 x)),
    (Hc (c4 x)), (Hc (c5 x)).
Qed.

Lemma add6_zero6 (x : vec6 D) :
  (forall x : D, dadd x d0 = x) -> add6 x zero6 = x.
Proof. intros H0. destruct x. unfold add6. simpl. by rewrite !H0. Qed.

(** with exact sums, what a tally adds can be moved across a sum *)
Lemma slides_tally_gains c :
  exact_sums D ->
  slides dadd (tally_vdwl_gain c) /\ slides dadd (tally_coul_gain c) /\
  slides add6 (tally_virial_gain c) /\
  (forall k, slides dadd (tally_eatom_cell_gain c k)) /\
  (forall k, slides add6 (tally_vatom_cell_gain c k)).
Proof.
  intros (Ha & Hc & _).
  assert (forall e, slides dadd (fun x => dadd x e)) as Hd
    by (intros e; by apply slides_add).
  assert (forall v, slides add6 (fun x => add6 x v)) as H6.
  { intros v. apply slides_add; intros; [by apply add6_assoc|by apply add6_comm]. }
  assert (forall v, slides add6 (fun x => add6_half x v)) as H6h.
  { intros v.
    apply (H6 (V6 (dmul dhalf (c0 v)) (dmul dhalf (c1 v)) (dmul dhalf (c2 v))
                  (dmul dhalf (c3 v)) (dmul dhalf (c4 v))
                  (dmul dhalf (c5 v)))). }
  split; [by apply slides_global_gain|].
  split; [by apply slides_global_gain|].
  split; [by apply slides_global_gain|].
  split; intros k; by apply slides_atom_gain.
Qed.

(** the sums over the threads after one tally *)
Lemma tallied_sums nthreads c s :
  exact_sums D ->
  storage_covers_marks s nthreads ->
  0 <= t_tid c < nthreads ->
  let s' := tallied c s in
  (forall x, thread_sum dadd (slot d0 (eng_vdwl_thr s')) nthreads x =
     tally_vdwl_gain c
       (thread_sum dadd (slot d0 (eng_vdwl_thr s)) nthreads x)) /\
  (forall x, thread_sum dadd (slot d0 (eng_coul_thr s')) nthreads x =
     tally_coul_gain c
       (thread_sum dadd (slot d0 (eng_coul_thr s)) nthreads x)) /\
  (forall x, thread_sum add6 (slot zero6 (virial_thr s')) nthreads x =
     tally_virial_gain c
       (thread_sum add6 (slot zero6 (virial_thr s)) nthreads x)) /\
  (forall k x, 0 <= k < maxeatom_thr s ->
     thread_sum dadd (fun n => cell d0 (eatom_thr s') n k) nthreads x =
     tally_eatom_cell_gain c k
       (thread_sum dadd (fun n => cell d0 (eatom_thr s) n k) nthreads x)) /\
  (forall k x, 0 <= k < maxvatom_thr s ->
     thread_sum add6 (fun n => cell zero6 (vatom_thr s') n k) nthreads x =
     tally_vatom_cell_gain c k
       (thread_sum add6 (fun n => cell zero6 (vatom_thr s) n k) nthreads x)).
Proof.
  intros Hex ((Hs1 & Hs2 & _ & Hs4) & Hec & Hvc) Ht s'.
  destruct (slides_tally_gains c Hex) as (Gv & Gc & Gw & Ge & Gx).
  subst s'. simpl. repeat split.
  - intros x. destruct (slot_bump d0 (eng_vdwl_thr s) (t_tid c)
                          (tally_vdwl_gain c)) as [Hat Hoff];
      [by eapply has_slots_rd|]. by eapply thread_sum_gain.
  - intros x. destruct (slot_bump d0 (eng_coul_thr s) (t_tid c)
                          (tally_coul_gain c)) as [Hat Hoff];
      [by eapply has_slots_rd|]. by eapply thread_sum_gain.
  - intros x. destruct (slot_bump zero6 (virial_thr s) (t_tid c)
                          (tally_virial_gain c)) as [Hat Hoff];
      [by eapply has_slots_rd|]. by eapply thread_sum_gain.
  - intros k x Hk.
    destruct (cell_bump_rows d0 (eatom_thr s) (t_tid c) (tally_eatom_gain c)
                (tally_eatom_cell_gain c k) k) as [Hat Hoff].
    { intros row. apply rd_row_gain. }
    { by apply Hec. }
    eapply (thread_sum_gain dadd (tally_eatom_cell_gain c k)
              (fun n => cell d0 (eatom_thr s) n k)); [apply Ge|done|done|done].
  - intros k x Hk.
    destruct (cell_bump_rows zero6 (vatom_thr s) (t_tid c)
                (tally_vatom_gain c) (tally_vatom_cell_gain c k) k)
      as [Hat Hoff].
    { intros row. apply rd_row_gain. }
    { by apply Hvc. }
    eapply (thread_sum_gain add6 (tally_vatom_cell_gain c k)
              (fun n => cell zero6 (vatom_thr s) n k)); [apply Gx|done|done|done].
Qed.

(** the sums over the threads after a sequence of tallies *)
Lemma foldl_tallied_sums nthreads (cs : list (tally D)) s :
  exact_sums D ->
  storage_covers_marks s nthreads ->
  Forall (fun c => 0 <= t_tid c < nthreads) cs ->
  let s' := foldl (fun s c => tallied c s) s cs in
  (forall x, thread_sum dadd (slot d0 (eng_vdwl_thr s')) nthreads x =
     serial_tallies tally_vdwl_gain cs
       (thread_sum dadd (slot d0 (eng_vdwl_thr s)) nthreads x)) /\
  (forall x, thread_sum dadd (slot d0 (eng_coul_thr s')) nthreads x =
     serial_tallies tally_coul_gain cs
       (thread_sum dadd (slot d0 (eng_coul_thr s)) nthreads x)) /\
  (forall x, thread_sum add6 (slot zero6 (virial_thr s')) nthreads x =
     serial_tallies tally_virial_gain cs
       (thread_sum add6 (slot zero6 (virial_thr s)) nthreads x)) /\
  (forall k x, 0 <= k < maxeatom_thr s ->
     thread_sum dadd (fun n => cell d0 (eatom_thr s') n k) nthreads x =
     serial_tallies (fun c => tally_eatom_cell_gain c k) cs
       (thread_sum dadd (fun n => cell d0 (eatom_thr s) n k) nthreads x)) /\
  (forall k x, 0 <= k < maxvatom_thr s ->
     thread_sum add6 (fun n => cell zero6 (vatom_thr s') n k) nthreads x =
     serial_tallies (fun c => tally_vatom_cell_gain c k) cs
       (thread_sum add6 (fun n => cell zero6 (vatom_thr s) n k) nthreads x)).
Proof.
  intros Hex Hcov Hcs. revert s Hcov.
  induction Hcs as [|c cs Hc Hcs IH]; intros s Hcov; simpl; [done|].
  destruct (IH (tallied c s) (tallied_covers nthreads c s Hcov))
    as (I1 & I2 & I3 & I4 & I5).
  destruct (tallied_sums nthreads c s Hex Hcov Hc) as (T1 & T2 & T3 & T4 & T5).
  unfold serial_tallies in *. simpl in *.
  repeat split; intros.
  - by rewrite I1, T1.
  - by rewrite I2, T2.
  - by rewrite I3, T3.
  - by rewrite I4, T4.
  - by rewrite I5, T5.
Qed.

(** the reduction into a target within reach of the marks *)
Lemma ev_reduce_thr_pair_in_reach (lmp : LAMMPS) s (pair : Pair D) :
  let nthreads := comm_nthreads lmp in
  let ntotal := setup_ntotal lmp PAIR in
  storage_covers_marks s nthreads ->
  pair_in_reach ntotal s pair ->
  exists pair',
    ev_reduce_thr_pair lmp s pair = Some pair' /\
    eng_vdwl pair' =
      thread_sum dadd (slot d0 (eng_vdwl_thr s)) nthreads (eng_vdwl pair) /\
    eng_coul pair' =
      thread_sum dadd (slot d0 (eng_coul_thr s)) nthreads (eng_coul pair) /\
    pair_virial pair' =
      (if pair_vflag_either pair
       then thread_sum add6 (slot zero6 (virial_thr s)) nthreads
              (pair_virial pair)
       else pair_virial pair) /\
    (forall i, rd (pair_vatom pair') i =
       atoms_after zero6 add6 (pair_vflag_either pair && pair_vflag_atom pair)
         ntotal nthreads (vatom_thr s) i <$> rd (pair_vatom pair) i) /\
    (forall i, rd (pair_eatom pair') i =
       atoms_after d0 dadd (pair_eflag_atom pair) ntotal nthreads
         (eatom_thr s) i <$> rd (pair_eatom pair) i).
Proof.
  intros nthreads ntotal (Hslots & Hec & Hvc) (Hpe & Hpv).
  destruct (ev_reduce_thr_pair_cells lmp s pair)
    as (p & Hrun & H1 & H2 & H3 & H4 & H5 & _); [done| | |].
  - intros Hf. destruct (Hpv Hf) as [Hle Hroom]. split; [|exact Hroom].
    apply (cells_upto_le _ _ (maxvatom_thr s)); [exact Hle|exact Hvc].
  - intros Hf. destruct (Hpe Hf) as [Hle Hroom]. split; [|exact Hroom].
    apply (cells_upto_le _ _ (maxeatom_thr s)); [exact Hle|exact Hec].
  - exists p. done.
Qed.

(** X7.  Reduction after a tally is the tally applied to the reduction.
    With exact sums, whichever thread makes a tally in bounds, the reduced
    [eng_vdwl], [eng_coul] and virial are those the reduction of the old
    accumulators gives, with the tally applied to them: the full value once
    with [newton_pair], half of it for each local endpoint without, and
    nothing where the global flag is off. *)
Theorem ev_tally_then_reduce (lmp : LAMMPS) c s (pair : Pair D) :
  let nthreads := comm_nthreads lmp in
  exact_sums D ->
  storage_covers_marks s nthreads ->
  tally_in_bounds nthreads s c ->
  pair_in_reach (setup_ntotal lmp PAIR) s pair ->
  exists s' p p',
    ev_tally_call c s = Some s' /\
    ev_reduce_thr_pair lmp s pair = Some p /\
    ev_reduce_thr_pair lmp s' pair = Some p' /\
    eng_vdwl p' = tally_vdwl_gain c (eng_vdwl p) /\
    eng_coul p' = tally_coul_gain c (eng_coul p) /\
    pair_virial p' =
      (if pair_vflag_either pair then tally_virial_gain c (pair_virial p)
       else pair_virial p).
Proof.
  intros nthreads Hex Hcov Hin Hreach.
  destruct (ev_reduce_thr_pair_in_reach lmp s pair Hcov Hreach)
    as (p & Hp & P1 & P2 & P3 & _).
  destruct (ev_reduce_thr_pair_in_reach lmp (tallied c s) pair)
    as (p' & Hp' & Q1 & Q2 & Q3 & _); [by apply tallied_covers|done|].
  destruct (tallied_sums nthreads c s Hex Hcov) as (T1 & T2 & T3 & _);
    [by destruct Hin|].
  exists (tallied c s), p, p'.
  split; [by eapply ev_tally_call_tallied|]. split; [done|]. split; [done|].
  fold nthreads in P1, P2, P3, Q1, Q2, Q3.
  rewrite Q1, Q2, Q3, P1, P2, P3, T1, T2.
  repeat split. destruct (pair_vflag_either pair); [by rewrite T3|done].
Qed.
End TalliedSums.

Section PairStep.
Context {D : Type} `{Arith D} `{Memory D}.
Implicit Types (s : ThrOMP D) (c : tally D).

(** a tally of the step adds nothing to an atom that is not of the step *)
Lemma tally_gain_outside nthreads ntotal ea va c k :
  tally_in_step nthreads ntotal ea va c ->
  ~ 0 <= k < ntotal ->
  (forall x, tally_eatom_cell_gain c k x = x) /\
  (forall x, tally_vatom_cell_gain c k x = x).
Proof.
  intros (_ & He & Hv) Hk.
  unfold tally_eatom_cell_gain, tally_vatom_cell_gain, atom_gain, credits.
  split; intros x.
  - destruct (t_eflag_either c && t_eflag_atom c); [|done].
    destruct (He eq_refl) as (_ & Hi & Hj).
    destruct (Z.eqb_spec k (t_i c)), (Z.eqb_spec k (t_j c)); try lia.
    by rewrite !andb_false_r.
  - destruct (t_vflag_either c && t_vflag_atom c); [|done].
    destruct (Hv eq_refl) as (_ & Hi & Hj).
    destruct (Z.eqb_spec k (t_i c)), (Z.eqb_spec k (t_j c)); try lia.
    by rewrite !andb_false_r.
Qed.

Lemma serial_tallies_outside {V : Type} (gain : tally D -> V -> V)
    (cs : list (tally D)) x :
  Forall (fun c => forall y, gain c y = y) cs ->
  serial_tallies gain cs x = x.
Proof.
  unfold serial_tallies. revert x.
  induction cs as [|c cs IH]; intros x Hcs; simpl; [done|].
  apply Forall_cons_1 in Hcs as [Hc Hcs]. rewrite Hc. by apply IH.
Qed.

(** one step, call by call *)
Lemma pair_step_runs (lmp : LAMMPS) (eg vg ea va : bool)
    (cs : list (tally D)) s (pair : Pair D) :
  let nthreads := comm_nthreads lmp in
  let ntotal := setup_ntotal lmp PAIR in
  storage_covers_marks s nthreads ->
  thr_style s = PAIR ->
  ntotal <= atom_nmax lmp ->
  (va = true -> ea = true) ->
  Forall (tally_in_step nthreads ntotal ea va) cs ->
  pair_in_step ntotal ea va pair ->
  exists s1 pair',
    ev_setup_thr lmp eg vg ea va s = Some s1 /\
    let s2 := foldl (fun s c => tallied c s) s1 cs in
    pair_step lmp eg vg ea va cs s pair = Some (s2, pair') /\
    storage_covers_marks s1 nthreads /\
    storage_covers_marks s2 nthreads /\
    (ea = true -> ntotal <= maxeatom_thr s1) /\
    (va = true -> ntotal <= maxvatom_thr s1) /\
    (forall t, 0 <= t < nthreads ->
       (eg = true -> slot d0 (eng_vdwl_thr s1) t = d0 /\
                     slot d0 (eng_coul_thr s1) t = d0) /\
       (vg = true -> slot zero6 (virial_thr s1) t = zero6) /\
       forall i, 0 <= i < ntotal ->
         (ea = true -> cell d0 (eatom_thr s1) t i = d0) /\
         (va = true -> cell zero6 (vatom_thr s1) t i = zero6)) /\
    eng_vdwl pair' =
      thread_sum dadd (slot d0 (eng_vdwl_thr s2)) nthreads (eng_vdwl pair) /\
    eng_coul pair' =
      thread_sum dadd (slot d0 (eng_coul_thr s2)) nthreads (eng_coul pair) /\
    pair_virial pair' =
      (if pair_vflag_either pair
       then thread_sum add6 (slot zero6 (virial_thr s2)) nthreads
              (pair_virial pair)
       else pair_virial pair) /\
    (forall i, rd (pair_vatom pair') i =
       atoms_after zero6 add6 (pair_vflag_either pair && pair_vflag_atom pair)
         ntotal nthreads (vatom_thr s2) i <$> rd (pair_vatom pair) i) /\
    (forall i, rd (pair_eatom pair') i =
       atoms_after d0 dadd (pair_eflag_atom pair) ntotal nthreads
         (eatom_thr s2) i <$> rd (pair_eatom pair) i).
Proof.
  intros nthreads ntotal Hcov Hst Hmax Hboth Hcs (Hpe & Hpv).
  destruct (ev_setup_thr_step lmp eg vg ea va s)
    as (s1 & Hrun1 & Hcov1 & Hst1 & Hme & Hmv & Hvd & Hco & _ & Hvi
        & Hea & Hva & _).
  { done. }
  { by rewrite Hst. }
  { intros Hf. left. by apply Hboth. }
  rewrite Hst in Hea, Hva. fold nthreads ntotal in Hvd, Hco, Hvi, Hea, Hva.
  assert (ea = true -> ntotal <= maxeatom_thr s1) as Hme1
    by (intros ->; rewrite Hme; lia).
  assert (va = true -> ntotal <= maxvatom_thr s1) as Hmv1
    by (intros ->; rewrite Hmv; lia).
  assert (Forall (tally_in_bounds nthreads s1) cs) as Hcs1.
  { eapply Forall_impl; [|exact Hcs]. intros c (Ht & He & Hv). simpl.
    split; [done|]. split; intros Hf.
    - destruct (He Hf) as (Hf' & ? & ?). specialize (Hme1 Hf'). lia.
    - destruct (Hv Hf) as (Hf' & ? & ?). specialize (Hmv1 Hf'). lia. }
  destruct (run_tallies_tallied nthreads cs s1 Hcov1 Hcs1) as [Hrun2 Hcov2].
  set (s2 := foldl (fun s c => tallied c s) s1 cs) in *.
  destruct (foldl_tallied_marks cs s1) as (_ & _ & Hme2 & Hmv2).
  fold s2 in Hme2, Hmv2.
  destruct (ev_reduce_thr_pair_in_reach lmp s2 pair Hcov2)
    as (p & Hrun3 & P1 & P2 & P3 & P4 & P5).
  { split; intros Hf.
    - destruct (Hpe Hf) as [Hf' Hroom]. rewrite Hme2. auto.
    - destruct (Hpv Hf) as [Hf' Hroom]. rewrite Hmv2. auto. }
  exists s1, p. split; [exact Hrun1|]. simpl.
  split; [unfold pair_step; by rewrite Hrun1, Hrun2, Hrun3|].
  do 4 (split; [done|]). split; [|done].
  intros t Ht. destruct Hcov as ((Hs1 & Hs2 & _ & Hs4) & _).
  destruct (has_slots_rd _ _ t Hs1 Ht) as [x1 Hx1].
  destruct (has_slots_rd _ _ t Hs2 Ht) as [x2 Hx2].
  destruct (has_slots_rd _ _ t Hs4 Ht) as [x4 Hx4].
  unfold slot, cell. rewrite Hvd, Hco, Hvi, Hx1, Hx2, Hx4.
  unfold zeroed. rewrite bool_decide_eq_true_2 by done.
  split; [by intros ->|]. split; [by intros ->|].
  intros i Hi. split; intros Hf.
  - by rewrite Hea.
  - by rewrite Hva.
Qed.

(** X8.  A whole force computation stays inside the storage.  From an
    object whose storage covers its marks: set up for atoms that fit into
    [nmax], with the per-atom virial only together with the per-atom
    energy; let the threads tally pairs of atoms of the step, per-atom data
    only where the setup asked for it; reduce into a target with room for
    the atoms of the step.  Every call returns, and the storage covers
    the marks again for the next step. *)
Theorem pair_step_stays_in_storage (lmp : LAMMPS) (eg vg ea va : bool)
    (cs : list (tally D)) s (pair : Pair D) :
  let nthreads := comm_nthreads lmp in
  let ntotal := setup_ntotal lmp PAIR in
  storage_covers_marks s nthreads ->
  thr_style s = PAIR ->
  ntotal <= atom_nmax lmp ->
  (va = true -> ea = true) ->
  Forall (tally_in_step nthreads ntotal ea va) cs ->
  pair_in_step ntotal ea va pair ->
  exists s' pair',
    pair_step lmp eg vg ea va cs s pair = Some (s', pair') /\
    storage_covers_marks s' nthreads /\
    thr_style s' = PAIR.
Proof.
  intros nthreads ntotal Hcov Hst Hmax Hboth Hcs Hp.
  destruct (pair_step_runs lmp eg vg ea va cs s pair Hcov Hst Hmax Hboth
              Hcs Hp) as (s1 & p & Hrun1 & Hrun & _ & Hcov2 & _).
  eexists _, p. split; [exact Hrun|]. split; [exact Hcov2|].
  destruct (foldl_tallied_marks cs s1) as (-> & _).
  apply ev_setup_zero_frame in Hrun1 as (-> & _).
  destruct (ev_setup_grow_frame lmp ea va s) as (-> & _). done.
Qed.

(** X9.  With exact sums, the threaded step computes what a single
    accumulator would.  After a step as in X8 with the global energy
    zeroed at setup (and the global virial, if the target wants it), the
    target holds its old values with the tallies applied to them one after
    the other - [eng_vdwl], [eng_coul], the virial, and each per-atom
    energy and virial the target asks for - however the tallies were
    distributed over the threads. *)
Theorem pair_step_equals_serial (lmp : LAMMPS) (vg ea va : bool)
    (cs : list (tally D)) s (pair : Pair D) :
  let nthreads := comm_nthreads lmp in
  let ntotal := setup_ntotal lmp PAIR in
  exact_sums D ->
  storage_covers_marks s nthreads ->
  thr_style s = PAIR ->
  ntotal <= atom_nmax lmp ->
  (va = true -> ea = true) ->
  (pair_vflag_either pair = true -> vg = true) ->
  Forall (tally_in_step nthreads ntotal ea va) cs ->
  pair_in_step ntotal ea va pair ->
  exists s' pair',
    pair_step lmp true vg ea va cs s pair = Some (s', pair') /\
    eng_vdwl pair' = serial_tallies tally_vdwl_gain cs (eng_vdwl pair) /\
    eng_coul pair' = serial_tallies tally_coul_gain cs (eng_coul pair) /\
    pair_virial pair' =
      (if pair_vflag_either pair
       then serial_tallies tally_virial_gain cs (pair_virial pair)
       else pair_virial pair) /\
    (forall k, rd (pair_eatom pair') k =
       (if pair_eflag_atom pair
        then serial_tallies (fun c => tally_eatom_cell_gain c k) cs
        else id) <$> rd (pair_eatom pair) k) /\
    (forall k, rd (pair_vatom pair') k =
       (if pair_vflag_either pair && pair_vflag_atom pair
        then serial_tallies (fun c => tally_vatom_cell_gain c k) cs
        else id) <$> rd (pair_vatom pair) k).
Proof.
  intros nthreads ntotal Hex Hcov Hst Hmax Hboth Hvg Hcs Hp.
  destruct (pair_step_runs lmp true vg ea va cs s pair Hcov Hst Hmax Hboth
              Hcs Hp)
    as (s1 & p & Hrun1 & Hrun & Hcov1 & Hcov2 & Hme & Hmv & Hzero
        & P1 & P2 & P3 & P4 & P5).
  fold nthreads ntotal in Hrun, Hcov1, Hcov2, Hzero, P1, P2, P3, P4, P5.
  destruct (foldl_tallied_sums nthreads cs s1 Hex Hcov1)
    as (S1 & S2 & S3 & S4 & S5).
  { eapply Forall_impl; [|exact Hcs]. by intros c (Ht & _). }
  destruct Hex as (Hassoc & Hcomm & Hzero0).
  destruct Hp as (Hpe & Hpv).
  eexists _, p. split; [exact Hrun|].
  split; [|split; [|split; [|split]]].
  - rewrite P1, S1. f_equal. apply (thread_sum_zeros dadd d0); [done|].
    intros t Ht. by apply Hzero.
  - rewrite P2, S2. f_equal. apply (thread_sum_zeros dadd d0); [done|].
    intros t Ht. by apply Hzero.
  - rewrite P3. destruct (pair_vflag_either pair) eqn:Evfe; [|done].
    rewrite S3. f_equal. apply (thread_sum_zeros add6 zero6).
    + intros y. by apply add6_zero6.
    + intros t Ht. apply Hzero; [done|]. by apply Hvg.
  - intros k. rewrite P5. unfold atoms_after.
    destruct (pair_eflag_atom pair) eqn:Eea; [|done].
    destruct (Hpe eq_refl) as [Hea _]. simpl.
    destruct (rd (pair_eatom pair) k) as [x|]; [|done]. simpl. f_equal.
    case_bool_decide as Hk.
    + rewrite S4 by (specialize (Hme Hea); lia). f_equal.
      apply (thread_sum_zeros dadd d0); [done|].
      intros t Ht. by apply Hzero.
    + symmetry. apply serial_tallies_outside.
      eapply Forall_impl; [|exact Hcs]. intros c Hc. simpl.
      by apply (tally_gain_outside nthreads ntotal ea va c k Hc Hk).
  - intros k. rewrite P4. unfold atoms_after.
    destruct (pair_vflag_either pair && pair_vflag_atom pair) eqn:Eva; [|done].
    destruct (Hpv eq_refl) as [Hva _]. simpl.
    destruct (rd (pair_vatom pair) k) as [x|]; [|done]. simpl. f_equal.
    case_bool_decide as Hk.
    + rewrite S5 by (specialize (Hmv Hva); lia). f_equal.
      apply (thread_sum_zeros add6 zero6).
      * intros y. by apply add6_zero6.
      * intros t Ht. by apply Hzero.
    + symmetry. apply serial_tallies_outside.
      eapply Forall_impl; [|exact Hcs]. intros c Hc. simpl.
      by apply (tally_gain_outside nthreads ntotal ea va c k Hc Hk).
Qed.

(** X10.  For a dihedral style, a reduction right after the setup adds
    nothing.  With [x + 0.0 = x], after a setup that zeroes the global
    energy (and the global virial, if the target wants it) for atoms that
    fit into [nmax], [ev_reduce_thr] returns the target as it was: energy,
    virial and every per-atom entry. *)
Theorem dihedral_setup_then_reduce (lmp : LAMMPS) (vg ea va : bool) s
    (dihed : Dihedral D) :
  let nthreads := comm_nthreads lmp in
  let ntotal := setup_ntotal lmp DIHEDRAL in
  (forall x : D, dadd x d0 = x) ->
  storage_covers_marks s nthreads ->
  thr_style s = DIHEDRAL ->
  ntotal <= atom_nmax lmp ->
  (va = true -> ea = true) ->
  (dihed_vflag_either dihed = true -> vg = true) ->
  dihedral_in_step ntotal ea va dihed ->
  exists s',
    ev_setup_thr lmp true vg ea va s = Some s' /\
    ev_reduce_thr_dihedral lmp s' dihed = Some dihed.
Proof.
  intros nthreads ntotal Hz Hcov Hst Hmax Hboth Hvg (Hpe & Hpv).
  destruct (ev_setup_thr_step lmp true vg ea va s)
    as (s1 & Hrun1 & (Hslots1 & Hec1 & Hvc1) & Hst1 & Hme & Hmv & _ & _
        & Hbo & Hvi & Hea & Hva & _).
  { done. }
  { by rewrite Hst. }
  { intros Hf. left. by apply Hboth. }
  rewrite Hst in Hea, Hva. fold nthreads ntotal in Hbo, Hvi, Hea, Hva.
  exists s1. split; [exact Hrun1|].
  destruct (ev_reduce_thr_dihedral_cells lmp s1 dihed)
    as (d & -> & P1 & P2 & P3 & P4 & F1 & F2 & F3); [done| | |].
  { intros Hf. destruct (Hpv Hf) as [Hf' Hroom]. split; [|exact Hroom].
    apply (cells_upto_le _ _ (maxvatom_thr s1)); [|exact Hvc1].
    rewrite Hmv, Hf'. unfold ntotal, setup_ntotal in Hmax. simpl in Hmax.
    lia. }
  { intros Hf. destruct (Hpe Hf) as [Hf' Hroom]. split; [|exact Hroom].
    apply (cells_upto_le _ _ (maxeatom_thr s1)); [|exact Hec1].
    rewrite Hme, Hf'. unfold ntotal, setup_ntotal in Hmax. simpl in Hmax.
    lia. }
  fold nthreads in P1, P2, P3, P4.
  destruct Hcov as ((_ & _ & Hs3 & Hs4) & _).
  f_equal. apply Dihedral_eq; try done.
  - rewrite P1. apply (thread_sum_zeros dadd d0); [done|]. intros t Ht.
    unfold slot. rewrite Hbo.
    destruct (has_slots_rd _ _ t Hs3 Ht) as [x ->].
    unfold zeroed. simpl. by rewrite bool_decide_eq_true_2.
  - rewrite P2. destruct (dihed_vflag_either dihed) eqn:Evfe; [|done].
    apply (thread_sum_zeros add6 zero6); [intros; by apply add6_zero6|].
    intros t Ht. unfold slot. rewrite Hvi.
    destruct (has_slots_rd _ _ t Hs4 Ht) as [x ->].
    unfold zeroed. rewrite Hvg by done. simpl.
    by rewrite bool_decide_eq_true_2.
  - apply rd_ext. intros i. rewrite P4.
    apply (atoms_after_zeros d0 dadd); [done|].
    intros Hf t k Ht Hk. destruct (Hpe Hf) as [Hf' _].
    unfold cell. by rewrite Hea.
  - apply rd_ext. intros i. rewrite P3.
    apply (atoms_after_zeros zero6 add6); [intros; by apply add6_zero6|].
    intros Hf t k Ht Hk. destruct (Hpv Hf) as [Hf' _].
    unfold cell. by rewrite Hva.
Qed.
End PairStep.

(** the rationals have exact sums *)
Lemma Q_exact_sums : exact_sums Q.
Proof.
  repeat split.
  - intros [a b] [c d] [e f]. unfold dadd. simpl. unfold Qplus. simpl.
    f_equal; [|by rewrite Pos.mul_assoc].
    rewrite !Pos2Z.inj_mul. ring.
  - intros [a b] [c d]. unfold dadd. simpl. unfold Qplus. simpl.
    f_equal; [ring|apply Pos.mul_comm].
  - intros x. apply Qplus_0_r_eq.
Qed.

Lemma ev_tally_then_reduce_witness :
  exists s' p p',
    ev_tally_call tally_thread1 thr_tallied = Some s' /\
    ev_reduce_thr_pair lmp_2x4 thr_tallied pair_before = Some p /\
    ev_reduce_thr_pair lmp_2x4 s' pair_before = Some p' /\
    eng_vdwl p' = dadd (eng_vdwl p) 6%Q.
Proof.
  destruct (ev_tally_then_reduce lmp_2x4 tally_thread1 thr_tallied
              pair_before) as (s' & p & p' & H1 & H2 & H3 & H4 & _).
  - apply Q_exact_sums.
  - apply thr_tallied_covers.
  - repeat split; simpl; lia.
  - split; intros _; split; unfold has_slots, setup_ntotal; simpl; lia.
  - exists s', p, p'. repeat split; done.
Defined.

Lemma pair_step_stays_in_storage_witness :
  exists s' pair',
    pair_step lmp_2x4 true true true true
      [tally_thread0; tally_thread1; tally_thread0_again]
      thr_fresh pair_before = Some (s', pair') /\
    storage_covers_marks s' 2 /\ thr_style s' = PAIR.
Proof.
  apply (pair_step_stays_in_storage lmp_2x4 true true true true).
  - apply thr_fresh_covers.
  - done.
  - unfold setup_ntotal; simpl; lia.
  - done.
  - repeat constructor; simpl; try lia; intros [=].
  - split; intros _; split; try done; unfold has_slots; simpl; lia.
Defined.

Lemma pair_step_equals_serial_witness :
  exists s' pair',
    pair_step lmp_2x4 true true true true
      [tally_thread0; tally_thread1; tally_thread0_again]
      thr_fresh pair_before = Some (s', pair') /\
    eng_vdwl pair' = dadd (dadd (dadd 100%Q 2%Q) 6%Q) 10%Q /\
    eng_coul pair' = dadd (dadd (dadd 200%Q 4%Q) 0%Q) 0%Q.
Proof.
  destruct (pair_step_equals_serial lmp_2x4 true true true
              [tally_thread0; tally_thread1; tally_thread0_again]
              thr_fresh pair_before)
    as (s' & p' & Hrun & Hv & Hc & _).
  - apply Q_exact_sums.
  - apply thr_fresh_covers.
  - done.
  - unfold setup_ntotal; simpl; lia.
  - done.
  - done.
  - repeat constructor; simpl; try lia; intros [=].
  - split; intros _; split; try done; unfold has_slots; simpl; lia.
  - exists s', p'. split; [exact Hrun|]. split; [exact Hv|exact Hc].
Defined.

Lemma dihedral_setup_then_reduce_witness :
  exists s',
    ev_setup_thr lmp_2x4 true true true true (ThrOMP_new lmp_2x4 DIHEDRAL)
      = Some s' /\
    ev_reduce_thr_dihedral lmp_2x4 s' dihed_all_flags = Some dihed_all_flags.
Proof.
  apply (dihedral_setup_then_reduce lmp_2x4 true true true
           (ThrOMP_new lmp_2x4 DIHEDRAL) dihed_all_flags).
  - apply Qplus_0_r_eq.
  - split; [repeat split; unfold has_slots; simpl; lia|].
    split; intros t i Ht Hi; simpl in Hi; lia.
  - done.
  - unfold setup_ntotal; simpl; lia.
  - done.
  - done.
  - split; intros _; split; try done; unfold has_slots; simpl; lia.
Defined.

(** ** loop_setup_thr and force_reduce_thr: the rows of a thread *)

(** the call of a thread of the team *)
Lemma loop_setup_thr_team (tid f inum nall nthreads : Z) :
  0 <= inum -> 1 < nthreads -> inum + nthreads <= INT_MAX ->
  0 <= nall -> nall * nthreads <= INT_MAX ->
  0 <= tid < nthreads ->
  loop_setup_thr true tid f inum nall nthreads =
  Some (LoopSetup (f + tid * nall) (tid * (1 + inum / nthreads))
          (Z.min inum ((tid + 1) * (1 + inum / nthreads))) tid).
Proof.
  intros Hi Hn Hsum Ha Hoff Ht.
  apply loop_setup_thr_multi; [done|done|lia| |].
  - pose proof (chunks_fit inum nthreads tid Hi ltac:(lia) Ht). lia.
  - unfold INT_MIN, INT_MAX in *. nia.
Qed.



(** X12.  The ranges come in the order of the threads.  With more than one
    thread, [inum + nthreads] and [nall * nthreads] in the range of [int],
    the calls of two threads [tid1 < tid2] of the team return; every item
    of thread [tid1] comes before every item of thread [tid2]; the range is
    not longer than the chunk [1 + floor(inum / nthreads)]; and if thread
    [tid2] has an item, thread [tid1] has a full chunk. *)
Theorem loop_setup_thr_ranges_in_order (f inum nall nthreads : Z)
    (tid1 tid2 k1 k2 : Z) :
  0 <= inum -> 1 < nthreads -> inum + nthreads <= INT_MAX ->
  0 <= nall -> nall * nthreads <= INT_MAX ->
  0 <= tid1 -> tid1 < tid2 -> tid2 < nthreads ->
  exists r1 r2,
    loop_setup_thr true tid1 f inum nall nthreads = Some r1 /\
    loop_setup_thr true tid2 f inum nall nthreads = Some r2 /\
    (in_range r1 k1 -> in_range r2 k2 -> k1 < k2) /\
    ls_ito r1 - ls_ifrom r1 <= 1 + inum / nthreads /\
    (in_range r2 k2 -> ls_ito r1 - ls_ifrom r1 = 1 + inum / nthreads).
Proof.
  intros Hi Hn Hsum Ha Hoff Ht1 Ht12 Ht2.
  eexists _, _.
  split; [apply loop_setup_thr_team; try done; lia|].
  split; [apply loop_setup_thr_team; try done; lia|].
  destruct (quot_chunk inum nthreads Hi ltac:(lia)) as (_ & Hq0 & _ & _).
  unfold in_range. simpl.
  set (chunk := 1 + inum / nthreads) in *.
  assert (1 <= chunk) by lia.
  split; [|split].
  - intros Hk1 Hk2. nia.
  - nia.
  - intros Hk2. nia.
Qed.

Lemma loop_setup_thr_ranges_in_order_witness :
  exists r1 r2,
    loop_setup_thr true 1 0 10 12 4 = Some r1 /\
    loop_setup_thr true 3 0 10 12 4 = Some r2 /\
    (in_range r1 5 -> in_range r2 9 -> 5 < 9) /\
    ls_ito r1 - ls_ifrom r1 <= 1 + 10 / 4 /\
    (in_range r2 9 -> ls_ito r1 - ls_ifrom r1 = 1 + 10 / 4).
Proof.
  apply (loop_setup_thr_ranges_in_order 0 10 12 4 1 3 5 9);
    [lia|lia|by vm_compute|lia|by vm_compute|lia|lia|lia].
Defined.

Lemma chunk_owner (d m t : Z) :
  0 < d -> (m / d = t <-> t * d <= m < t * d + d).
Proof.
  intros Hd. split.
  - intros <-. pose proof (Z.div_mod m d ltac:(lia)).
    pose proof (Z.mod_pos_bound m d Hd). nia.
  - intros Hm. symmetry. apply (Z.div_unique m d t (m - t * d)); lia.
Qed.

Section ForceReduceOrder.
Context {D : Type} `{Arith D}.
Implicit Types (F : list (vec3 D)).

(** one more thread has reduced its rows *)
Lemma rows_reduced_for_step F Fc (nall nthreads tid : Z) (done : list Z) :
  2 <= nthreads <= INT_MAX -> 0 <= nall -> 0 <= tid < nthreads ->
  ~ elem_of tid done ->
  nthreads * nall <= INT_MAX ->
  nthreads * nall <= Z.of_nat (length F) ->
  rows_reduced_for F Fc nall nthreads done ->
  exists F',
    force_reduce_thr true Fc nall nthreads tid = Some F' /\
    rows_reduced_for F F' nall nthreads (tid :: done).
Proof.
  intros HN HA Ht Hnew Hint Hlen (HL & Hin & Hout).
  destruct (quot_chunk nall nthreads HA ltac:(lia)) as (_ & Hq0 & _ & _).
  destruct (force_reduce_thr_rows Fc nall nthreads tid)
    as (F' & Hrun & HL' & Hsum & Hzero & Hframe);
    [lia|lia|lia|by apply team_chunks_fit|lia|lia|].
  set (idelta := 1 + nall / nthreads) in *.
  assert (0 < idelta) as Hd by lia.
  assert (forall m, 0 <= m < nall ->
            (m / idelta = tid <->
             tid * idelta <= m < Z.min nall (tid * idelta + idelta))) as Hown.
  { intros m Hm. rewrite (chunk_owner idelta m tid Hd). lia. }
  assert (0 <= tid * idelta) as Hlo by nia.
  exists F'. split; [exact Hrun|]. split; [congruence|]. split.
  - intros b m Hb Hm. fold idelta.
    destruct (decide (m / idelta = tid)) as [Heq|Hne].
    + rewrite (decide_True (P := elem_of (m / idelta) (tid :: done)))
        by (rewrite Heq; apply list_elem_of_here).
      apply Hown in Heq; [|done].
      destruct (decide (b = 0)) as [->|Hb0].
      * rewrite Z.mul_0_l, Z.add_0_l, Hsum by done. f_equal.
        apply block_sum_ext; [lia|]. intros b' Hb'.
        rewrite Hin by done. rewrite decide_False; [done|].
        apply Hown in Heq; [|done]. by rewrite Heq.
      * apply Hzero; [lia|done].
    + assert (rd F' (b * nall + m) = rd Fc (b * nall + m)) as ->.
      { apply Hframe.
        - intros Hk. destruct (decide (b = 0)) as [->|Hb0].
          + apply Hne, Hown; [done|]. lia.
          + nia.
        - intros b' m' Hb' Hm' Hk.
          destruct (block_index_inj nall b m b' m') as [_ ->];
            [lia|lia|done|].
          apply Hne, Hown; [lia|done]. }
      rewrite Hin by done.
      destruct (decide (elem_of (m / idelta) done)) as [Hd1|Hd1].
      * rewrite (decide_True (P := elem_of (m / idelta) (tid :: done)));
          [done|].
        by apply list_elem_of_further.
      * rewrite (decide_False (P := elem_of (m / idelta) (tid :: done)));
          [done|].
        intros [?|?]%elem_of_cons; done.
  - intros k Hk. rewrite Hframe; [by apply Hout|nia|].
    intros b m Hb Hm ->. apply Hk. nia.
Qed.

Lemma force_reduce_sched_inv F Fc (nall nthreads : Z) (tids done : list Z) :
  2 <= nthreads <= INT_MAX -> 0 <= nall ->
  nthreads * nall <= INT_MAX ->
  nthreads * nall <= Z.of_nat (length F) ->
  Forall (fun t => 0 <= t < nthreads) tids -> NoDup (tids ++ done) ->
  rows_reduced_for F Fc nall nthreads done ->
  exists F',
    force_reduce_sched true Fc nall nthreads tids = Some F' /\
    rows_reduced_for F F' nall nthreads (reverse tids ++ done).
Proof.
  intros HN HA Hint Hlen Hpos. revert Fc done.
  induction Hpos as [|t tids Ht Hpos IH]; intros Fc done Hnd Hinv.
  - by exists Fc.
  - simpl in Hnd. apply list.NoDup_cons in Hnd as [Hnew Hnd].
    destruct (rows_reduced_for_step F Fc nall nthreads t done)
      as (F1 & Hrun & Hinv1); try done.
    { intros Hin. apply Hnew. apply elem_of_app. by right. }
    destruct (IH F1 (t :: done)) as (F' & Hrun' & Hinv'); [|done|].
    { apply list.NoDup_app. apply list.NoDup_app in Hnd as (Hn1 & Hn2 & Hn3).
      split; [done|]. split.
      - intros x Hx [->|Hx']%elem_of_cons.
        + apply Hnew. apply elem_of_app. by left.
        + by eapply Hn2.
      - apply list.NoDup_cons. split; [|done].
        intros Hin. apply Hnew. apply elem_of_app. by right. }
    exists F'. unfold force_reduce_sched in *. simpl. rewrite Hrun.
    split; [exact Hrun'|]. by rewrite reverse_cons, <- app_assoc.
Qed.

(** X13.  A thread reduces its own rows and nothing else.  Take at least
    two threads and blocks of [nall] rows.  If [nthreads * nall] is in the
    range of [int] and the force array has that many rows, the call of a
    thread [tid] of the team succeeds; the rows it sums into block 0 and
    zeroes in the other blocks are those of the range [loop_setup_thr]
    gives this thread for [nall] items; every other row of the array is as
    before.  If the end [(tid+1)*idelta] of the chunk of the thread or the
    offset [(nthreads-1)*nall] of the last block is not in the range of
    [int], the call is undefined. *)
Theorem force_reduce_thr_reduces_own_range F (nall nthreads tid : Z) :
  2 <= nthreads <= INT_MAX -> 0 <= nall ->
  (0 <= tid < nthreads ->
   nthreads * nall <= INT_MAX ->
   nthreads * nall <= Z.of_nat (length F) ->
   exists r F',
     loop_setup_thr true tid 0 nall nall nthreads = Some r /\
     force_reduce_thr true F nall nthreads tid = Some F' /\
     rows_reduced F F' nall nthreads (ls_ifrom r) (ls_ito r)) /\
  (0 <= tid ->
   INT_MAX < (tid + 1) * (1 + nall / nthreads) \/
   INT_MAX < (nthreads - 1) * nall ->
   force_reduce_thr true F nall nthreads tid = None).
Proof.
  intros HN HA. split.
  - intros Ht Hint Hlen.
    pose proof (team_chunks_fit nall nthreads tid HN HA Hint Ht) as Hfit.
    destruct (force_reduce_thr_rows F nall nthreads tid)
      as (F' & Hrun & Hred); [lia|lia|lia|done|done|done|].
    eexists _, F'.
    split; [apply loop_setup_thr_multi; [done|lia|lia|done|]|].
    { unfold INT_MIN, INT_MAX in *. nia. }
    split; [exact Hrun|]. simpl.
    by replace ((tid + 1) * (1 + nall / nthreads))
      with (tid * (1 + nall / nthreads) + (1 + nall / nthreads)) by lia.
  - intros Ht Hover. apply force_reduce_thr_overflow; [lia|done|done|done].
Qed.

(** X14.  The reduced forces do not depend on the order of the threads.
    Let the threads [0 .. nthreads-1] run [force_reduce_thr] one after the
    other in any order, on [nthreads] blocks of [nall] rows with
    [nthreads * nall] in the range of [int]: every call succeeds and the
    array is the one the order [0, 1, ...] leaves - block 0 holds the sums
    over the blocks, the other blocks hold zero - in any arithmetic. *)
Theorem force_reduce_any_thread_order F (nall nthreads : Z) (tids : list Z) :
  2 <= nthreads <= INT_MAX -> 0 <= nall ->
  nthreads * nall <= INT_MAX ->
  nthreads * nall <= Z.of_nat (length F) ->
  Permutation tids (seqZ 0 nthreads) ->
  exists F',
    force_reduce_sched true F nall nthreads tids = Some F' /\
    force_reduce_team true F nall nthreads = Some F' /\
    rows_reduced F F' nall nthreads 0 nall.
Proof.
  intros HN HA Hint Hlen Hperm.
  destruct (quot_chunk nall nthreads HA ltac:(lia)) as (_ & Hq0 & _ & Hcover).
  destruct (force_reduce_team_spec F nall nthreads HN HA Hint Hlen)
    as (Ft & Hteam & HLt & Hsum & Hzero & Hframe).
  destruct (force_reduce_sched_inv F F nall nthreads tids [] HN HA Hint Hlen)
    as (F' & Hrun & HL & Hin & Hout).
  { apply list.Forall_forall. intros t Ht. rewrite Hperm in Ht.
    apply elem_of_seqZ in Ht. lia. }
  { rewrite app_nil_r, Hperm. apply NoDup_seqZ. }
  { split; [done|]. split; [|done]. intros b m Hb Hm.
    rewrite decide_False; [done|]. apply not_elem_of_nil. }
  set (idelta := 1 + nall / nthreads) in *.
  assert (F' = Ft) as ->.
  { apply rd_ext. intros k.
    destruct (decide (0 <= k < nthreads * nall)) as [Hk|Hk].
    - assert (0 < nall) as Hpos by nia.
      pose proof (Z.div_mod k nall ltac:(lia)) as Hdm.
      pose proof (Z.mod_pos_bound k nall Hpos) as Hmod.
      set (b := k / nall) in *. set (m := k mod nall) in *.
      assert (0 <= b < nthreads) as Hb by nia.
      replace k with (b * nall + m) by lia.
      rewrite Hin by done.
      rewrite (decide_True (P := elem_of (m / idelta) (reverse tids ++ []))).
      2:{ rewrite app_nil_r, elem_of_reverse, Hperm, elem_of_seqZ.
          assert (0 < idelta) as Hd by lia.
          pose proof (Z.div_mod m idelta ltac:(lia)).
          pose proof (Z.mod_pos_bound m idelta Hd). nia. }
      destruct (decide (b = 0)) as [->|Hb0].
      + rewrite Z.mul_0_l, Z.add_0_l. symmetry. by apply Hsum.
      + symmetry. apply Hzero; lia.
    - rewrite Hout by done. symmetry. apply Hframe; [nia|].
      intros b m Hb Hm ->. apply Hk. nia. }
  exists Ft. repeat split; done.
Qed.
End ForceReduceOrder.

Lemma force_reduce_thr_reduces_own_range_witness :
  loop_setup_thr true 1 0 3 3 2 = Some (LoopSetup 3 2 3 1) /\
  exists F',
    force_reduce_thr true fall_2x3 3 2 1 = Some F' /\
    rows_reduced fall_2x3 F' 3 2 2 3 /\
    rd F' 2 = Some (V3 (7 + 70) (8 + 80) (9 + 90))%Q /\
    rd F' (1 * 3 + 2) = Some (V3 0 0 0)%Q /\
    rd F' 1 = Some (V3 4 5 6)%Q.
Proof.
  destruct (force_reduce_thr_reduces_own_range fall_2x3 3 2 1)
    as [Hown _]; [by vm_compute|lia|].
  destruct Hown as (r & F' & Hr & Hrun & Hred);
    [lia|by vm_compute|by vm_compute|].
  assert (r = LoopSetup 3 2 3 1) as -> by (vm_compute in Hr; congruence).
  split; [exact Hr|]. exists F'. split; [exact Hrun|]. split; [exact Hred|].
  destruct Hred as (_ & Hsum & Hzero & Hframe).
  split; [exact (Hsum 2 ltac:(simpl; lia))|].
  split; [exact (Hzero 1 2 ltac:(lia) ltac:(simpl; lia))|].
  apply (Hframe 1); [simpl; lia|]. simpl. intros b m Hb Hm. lia.
Defined.

Lemma force_reduce_any_thread_order_witness :
  exists F',
    force_reduce_sched true fall_2x3 3 2 [1; 0] = Some F' /\
    force_reduce_team true fall_2x3 3 2 = Some F' /\
    rows_reduced fall_2x3 F' 3 2 0 3.
Proof.
  apply (force_reduce_any_thread_order fall_2x3 3 2 [1; 0]);
    [by vm_compute|lia|by vm_compute|by vm_compute|apply perm_swap].
Defined.

(** ** Per-atom sums and global sums *)

Lemma atom_sum_row {A : Type} (add : A -> A -> A) (z : A)
    (a : list (list A)) tid ntotal row :
  rd a tid = Some row ->
  atom_sum add z a tid ntotal = thread_sum add (slot z row) ntotal z.
Proof.
  intros Hrow. unfold atom_sum. apply thread_sum_ext. intros k Hk.
  unfold cell, slot, rd2. by rewrite Hrow.
Qed.

Lemma atom_sum_other {A : Type} (add : A -> A -> A) (z : A)
    (a : list (list A)) tid t ntotal (R : list A -> list A) :
  t <> tid ->
  atom_sum add z (bump a tid R) t ntotal = atom_sum add z a t ntotal.
Proof.
  intros Hne. unfold atom_sum. apply thread_sum_ext. intros k Hk.
  unfold cell, rd2. by rewrite rd_bump_other.
Qed.

(** the sum of a row after the tally: one gain for each endpoint that
    counts *)
Lemma row_gain_sum {A : Type} (add : A -> A -> A) (h : A -> A) (z : A)
    req newton nlocal i j ntotal (row : list A) :
  slides add h ->
  0 <= i < ntotal -> 0 <= j < ntotal ->
  (req && (newton || (i <? nlocal)) = true -> is_Some (rd row i)) ->
  (req && (newton || (j <? nlocal)) = true -> is_Some (rd row j)) ->
  thread_sum add (slot z (row_gain h req newton nlocal i j row)) ntotal z =
  (if req && (newton || (j <? nlocal)) then h else id)
    ((if req && (newton || (i <? nlocal)) then h else id)
       (thread_sum add (slot z row) ntotal z)).
Proof.
  intros Hh Hi Hj Hri Hrj. unfold row_gain.
  destruct req; [|done]. simpl in *.
  destruct (newton || (i <? nlocal)), (newton || (j <? nlocal)); simpl;
    try done.
  - destruct (slot_bump z (bump row i h) j h) as [Hat Hoff];
      [by apply rd_bump_is_Some, Hrj|].
    rewrite (thread_sum_gain add h (slot z (bump row i h)) _ j) by done.
    f_equal.
    destruct (slot_bump z row i h) as [Hat' Hoff']; [by apply Hri|].
    by apply (thread_sum_gain add h (slot z row) _ i).
  - destruct (slot_bump z row i h) as [Hat' Hoff']; [by apply Hri|].
    by apply (thread_sum_gain add h (slot z row) _ i).
  - destruct (slot_bump z row j h) as [Hat' Hoff']; [by apply Hrj|].
    by apply (thread_sum_gain add h (slot z row) _ j).
Qed.

Section AddUpProofs.
Context {D : Type} `{Arith D} `{Memory D}.
Implicit Types (s : ThrOMP D) (c : tally D).

Lemma dadd_shuffle (v a c b : D) :
  exact_sums D ->
  dadd (dadd v c) (dadd a b) = dadd (dadd v a) (dadd c b).
Proof.
  intros (Ha & Hc & _).
  rewrite !Ha. f_equal. rewrite <- !Ha. f_equal. apply Hc.
Qed.

Lemma add6_half_twice (x v : vec6 D) :
  exact_halves D -> add6_half (add6_half x v) v = add6 x v.
Proof.
  intros ((Ha & _ & _) & Hh & _). unfold add6_half, add6. simpl.
  by rewrite !Ha, !Hh.
Qed.

(** one tally keeps the sums of every thread in step *)
Lemma tallied_adds_up nthreads ntotal c s t :
  exact_halves D ->
  storage_covers_marks s nthreads ->
  tally_in_bounds nthreads s c ->
  tally_both ntotal c ->
  (energies_add_up s ntotal t -> energies_add_up (tallied c s) ntotal t) /\
  (virials_add_up s ntotal t -> virials_add_up (tallied c s) ntotal t).
Proof.
  intros Hex ((Hs1 & Hs2 & _ & Hs4) & Hec & Hvc) (Ht & Hbe & Hbv)
    (Hi & Hj & Heq & Hvq).
  pose proof Hex as (Hsums & Hhalf & Hdist).
  pose proof Hsums as (Hassoc & Hcomm & Hzero).
  unfold energies_add_up, virials_add_up. simpl.
  destruct (decide (t = t_tid c)) as [->|Hne].
  2:{ unfold slot. rewrite !atom_sum_other, !rd_bump_other by done. done. }
  destruct (slot_bump d0 (eng_vdwl_thr s) (t_tid c) (tally_vdwl_gain c))
    as [-> _]; [by eapply has_slots_rd|].
  destruct (slot_bump d0 (eng_coul_thr s) (t_tid c) (tally_coul_gain c))
    as [-> _]; [by eapply has_slots_rd|].
  destruct (slot_bump zero6 (virial_thr s) (t_tid c) (tally_virial_gain c))
    as [-> _]; [by eapply has_slots_rd|].
  assert (forall e, slides dadd (fun x => dadd x e)) as Hd
    by (intros e; by apply slides_add).
  assert (forall v, slides add6 (fun x => add6_half x v)) as H6h.
  { intros v.
    apply (slides_add add6
             (V6 (dmul dhalf (c0 v)) (dmul dhalf (c1 v)) (dmul dhalf (c2 v))
                 (dmul dhalf (c3 v)) (dmul dhalf (c4 v))
                 (dmul dhalf (c5 v))));
      intros; [by apply add6_assoc|by apply add6_comm]. }
  split.
  - unfold tally_vdwl_gain, tally_coul_gain, tally_eatom_gain, global_gain,
      local_ends.
    rewrite Heq.
    destruct (t_eflag_either c && t_eflag_atom c) eqn:Ereq.
    2:{ unfold row_gain. by rewrite bump_id. }
    destruct (Hbe eq_refl) as [Hie Hje].
    destruct (Hec (t_tid c) (t_i c) Ht Hie) as [xi Hxi].
    destruct (Hec (t_tid c) (t_j c) Ht Hje) as [xj Hxj].
    apply rd2_Some in Hxi as (row & Hrow & Hxi).
    apply rd2_Some in Hxj as (row' & Hrow' & Hxj).
    assert (row' = row) as -> by congruence.
    intros Hinv. rewrite (atom_sum_row _ _ _ _ _ row) in Hinv by done.
    rewrite (atom_sum_row _ _ _ _ _ (row_gain
               (fun x => dadd x (dmul dhalf (dadd (t_evdwl c) (t_ecoul c))))
               true (t_newton_pair c) (t_nlocal c) (t_i c) (t_j c) row))
      by (by rewrite rd_bump, decide_True, Hrow).
    rewrite (row_gain_sum dadd _ d0 true) by eauto.
    rewrite Hinv, Hdist.
    set (V := slot d0 (eng_vdwl_thr s) (t_tid c)).
    set (C := slot d0 (eng_coul_thr s) (t_tid c)).
    set (a := dmul dhalf (t_evdwl c)). set (b := dmul dhalf (t_ecoul c)).
    destruct (t_newton_pair c); simpl.
    + rewrite <- (Hhalf (t_evdwl c)), <- (Hhalf (t_ecoul c)). fold a b.
      rewrite (dadd_shuffle V a C b Hsums).
      rewrite (dadd_shuffle (dadd V a) a (dadd C b) b Hsums).
      by rewrite <- !Hassoc.
    + destruct (t_i c <? t_nlocal c), (t_j c <? t_nlocal c); simpl.
      * rewrite (dadd_shuffle V a C b Hsums).
        by rewrite (dadd_shuffle (dadd V a) a (dadd C b) b Hsums).
      * by rewrite (dadd_shuffle V a C b Hsums).
      * by rewrite (dadd_shuffle V a C b Hsums).
      * done.
  - unfold tally_virial_gain, tally_vatom_gain, global_gain, local_ends.
    rewrite Hvq.
    destruct (t_vflag_either c && t_vflag_atom c) eqn:Ereq.
    2:{ unfold row_gain. by rewrite bump_id. }
    destruct (Hbv eq_refl) as [Hie Hje].
    destruct (Hvc (t_tid c) (t_i c) Ht Hie) as [xi Hxi].
    destruct (Hvc (t_tid c) (t_j c) Ht Hje) as [xj Hxj].
    apply rd2_Some in Hxi as (row & Hrow & Hxi).
    apply rd2_Some in Hxj as (row' & Hrow' & Hxj).
    assert (row' = row) as -> by congruence.
    intros Hinv. rewrite (atom_sum_row _ _ _ _ _ row) in Hinv by done.
    rewrite (atom_sum_row _ _ _ _ _ (row_gain
               (fun x => add6_half x (tally_v c))
               true (t_newton_pair c) (t_nlocal c) (t_i c) (t_j c) row))
      by (by rewrite rd_bump, decide_True, Hrow).
    rewrite (row_gain_sum add6 _ zero6 true) by eauto.
    rewrite Hinv.
    destruct (t_newton_pair c); simpl.
    + by apply add6_half_twice.
    + by destruct (t_i c <? t_nlocal c), (t_j c <? t_nlocal c).
Qed.

Lemma foldl_tallied_adds_up nthreads ntotal (cs : list (tally D)) s t :
  exact_halves D ->
  storage_covers_marks s nthreads ->
  Forall (tally_in_bounds nthreads s) cs ->
  Forall (tally_both ntotal) cs ->
  energies_add_up s ntotal t /\ virials_add_up s ntotal t ->
  energies_add_up (foldl (fun s c => tallied c s) s cs) ntotal t /\
  virials_add_up (foldl (fun s c => tallied c s) s cs) ntotal t.
Proof.
  intros Hex Hcov Hcs Hboth. revert s Hcov Hcs.
  induction Hboth as [|c cs Hc Hboth IH]; intros s Hcov Hcs [He Hv];
    simpl; [done|].
  apply Forall_cons_1 in Hcs as [Hin Hcs].
  destruct (tallied_adds_up nthreads ntotal c s t Hex Hcov Hin Hc)
    as [He' Hv'].
  apply IH; [by apply tallied_covers|exact Hcs|auto].
Qed.

(** X15.  The per-atom accumulators of a thread add up to its global
    ones.  With exact sums in which two halves make a whole: after a setup
    with all four flags and any tallies of the step that ask for the
    global and the per-atom quantities together, for every thread the sum
    of its per-atom energies over the atoms of the step is its
    [eng_vdwl_thr + eng_coul_thr], and the sum of its per-atom virials is
    its [virial_thr] - with and without [newton_pair], whichever of the two
    atoms are local. *)
Theorem pair_step_atoms_add_up (lmp : LAMMPS) (cs : list (tally D)) s :
  let nthreads := comm_nthreads lmp in
  let ntotal := setup_ntotal lmp PAIR in
  exact_halves D ->
  storage_covers_marks s nthreads ->
  thr_style s = PAIR ->
  ntotal <= atom_nmax lmp ->
  Forall (tally_in_step nthreads ntotal true true) cs ->
  Forall (tally_both ntotal) cs ->
  exists s1 s2,
    ev_setup_thr lmp true true true true s = Some s1 /\
    run_calls ev_tally_call cs s1 = Some s2 /\
    forall t, 0 <= t < nthreads ->
      energies_add_up s2 ntotal t /\ virials_add_up s2 ntotal t.
Proof.
  intros nthreads ntotal Hex Hcov Hst Hmax Hcs Hboth.
  destruct (ev_setup_thr_step lmp true true true true s)
    as (s1 & Hrun1 & Hcov1 & Hst1 & Hme & Hmv & Hvd & Hco & _ & Hvi
        & Hea & Hva & _).
  { done. }
  { by rewrite Hst. }
  { intros _. by left. }
  rewrite Hst in Hea, Hva. fold nthreads ntotal in Hvd, Hco, Hvi, Hea, Hva.
  assert (Forall (tally_in_bounds nthreads s1) cs) as Hcs1.
  { eapply Forall_impl; [|exact Hcs]. intros c (Ht & He & Hv). simpl.
    split; [done|]. split; intros Hf.
    - destruct (He Hf) as (_ & ? & ?). lia.
    - destruct (Hv Hf) as (_ & ? & ?). lia. }
  destruct (run_tallies_tallied nthreads cs s1 Hcov1 Hcs1) as [Hrun2 _].
  exists s1, (foldl (fun s c => tallied c s) s1 cs).
  split; [exact Hrun1|]. split; [exact Hrun2|].
  intros t Ht. apply (foldl_tallied_adds_up nthreads); try done.
  destruct Hex as ((_ & _ & Hzero) & _).
  destruct Hcov as ((Hs1 & Hs2 & _ & Hs4) & _).
  destruct (has_slots_rd _ _ t Hs1 Ht) as [x1 Hx1].
  destruct (has_slots_rd _ _ t Hs2 Ht) as [x2 Hx2].
  destruct (has_slots_rd _ _ t Hs4 Ht) as [x4 Hx4].
  unfold energies_add_up, virials_add_up, atom_sum, slot.
  rewrite Hvd, Hco, Hvi, Hx1, Hx2, Hx4. unfold zeroed.
  rewrite bool_decide_eq_true_2 by done. simpl. split.
  - rewrite Hzero. apply (thread_sum_zeros dadd d0); [done|].
    intros k Hk. unfold cell. by rewrite Hea.
  - apply (thread_sum_zeros add6 zero6); [intros; by apply add6_zero6|].
    intros k Hk. unfold cell. by rewrite Hva.
Qed.
End AddUpProofs.

(** the canonical rationals have exact sums and halves *)
Lemma Qc_exact_halves : exact_halves Qc.
Proof.
  repeat split; simpl; intros.
  - symmetry. apply Qcplus_assoc.
  - apply Qcplus_comm.
  - apply Qcplus_0_r.
  - assert (Q2Qc (1 # 2) + Q2Qc (1 # 2) = 1)%Qc as Hh
      by (apply Qc_is_canon; reflexivity).
    rewrite <- Qcmult_plus_distr_l, Hh. apply Qcmult_1_l.
  - apply Qcmult_plus_distr_r.
Qed.

Lemma pair_step_atoms_add_up_witness :
  exists s1 s2 : ThrOMP Qc,
    ev_setup_thr lmp_2x4 true true true true (ThrOMP_new lmp_2x4 PAIR)
      = Some s1 /\
    run_calls ev_tally_call [tally_qc_thread0; tally_qc_thread1] s1
      = Some s2 /\
    forall t, 0 <= t < 2 ->
      energies_add_up s2 4 t /\ virials_add_up s2 4 t.
Proof.
  apply (pair_step_atoms_add_up lmp_2x4
           [tally_qc_thread0; tally_qc_thread1] (ThrOMP_new lmp_2x4 PAIR)).
  - apply Qc_exact_halves.
  - split; [repeat split; unfold has_slots; simpl; lia|].
    split; intros t i Ht Hi; simpl in Hi; lia.
  - done.
  - unfold setup_ntotal; simpl; lia.
  - repeat constructor; simpl; try lia; intros [=].
  - repeat constructor; simpl; lia.
Defined.
